(** * go-commitgen: the commit-message pipeline, embedded and verified

    The development follows the packages of the repository:
    - [utf8], [unicode], [strings], [regexp]: the parts of Go's runtime and
      standard library that the pipeline calls, over byte strings;
    - [util]: internal/util (CondenseSpaces, TruncateShorten, TrimLines,
      TrimTo);
    - [json]: the reading of a JSON text, as encoding/json does it for the
      two record shapes of the program;
    - [commit]: internal/commit/message.go;
    - [ollama]: the streaming loop of internal/ollama/client.go;
    - [git]: internal/git, the repository behind the git command line;
    - [prompt]: internal/prompt, the two texts sent to the model;
    - [usecase]: internal/usecase/service.go, the flow from the staged diff
      to the message;
    - [main]: main.go, the program in one file that the packages were made
      from, with the panics of its slice expressions;
    - [Spec]: the words of the specification where they are compared with
      the code; [Examples]: the inputs of the examples.

    A Go [string] is an immutable sequence of bytes; it is a [list byte]
    here, and runes are obtained by UTF-8 decoding exactly where the Go code
    decodes ([utf8.RuneCountInString], [[]rune(s)], [strings.TrimSpace],
    [strings.ToLower]), so that every statement holds of strings that are
    not valid UTF-8 as well. An [int] is a [Z]: no operation of the program
    comes near the bounds of 64 bits.

    Three things the program does not fix enter as parameters:
    - [table], the case table of the Go runtime behind [strings.ToLower]
      for the runes outside ASCII;
    - [order], the order in which one [range] over the map
      [allowedCommitTypes] yields its entries, which Go leaves unspecified;
    - [Unmarshal], the decoding of encoding/json into a record; the
      theorems hold whatever it answers, and the examples run on the model
      of it given here ([commit.UnmarshalParts], [ollama.UnmarshalChunk]). *)

From Stdlib Require Import List ZArith Lia Bool Arith ZifyBool.
From Stdlib Require Import Strings.Byte Sorting.Permutation.
From Stdlib Require Strings.String.
Import ListNotations.
Import String.StringSyntax.
Delimit Scope string_scope with string.
Local Open Scope Z_scope.
Set Warnings "-register-all,-abstract-large-number".

(** ** Byte strings *)

Definition gostring := list byte.

Definition str (s : String.string) : gostring := String.list_byte_of_string s.
Arguments str s%_string.

Definition b2z (b : byte) : Z := Z.of_N (Byte.to_N b).

Definition z2b (z : Z) : byte :=
  match Byte.of_N (Z.to_N (z mod 256)) with
  | Some b => b
  | None => x00
  end.

Definition len (s : gostring) : Z := Z.of_nat (length s).

Fixpoint bytes_eqb (a b : gostring) : bool :=
  match a, b with
  | [], [] => true
  | x :: a', y :: b' => Byte.eqb x y && bytes_eqb a' b'
  | _, _ => false
  end.

Definition is_empty (s : gostring) : bool :=
  match s with [] => true | _ => false end.

(** ** unicode/utf8 *)

Module utf8.

Definition RuneError : Z := 0xFFFD.
Definition RuneSelf : Z := 0x80.
Definition MaxRune : Z := 0x10FFFF.
Definition surrogateMin : Z := 0xD800.
Definition surrogateMax : Z := 0xDFFF.

(** The information of the table [first] of the package: what a leading
    byte announces. [Seq sz lo hi] is a sequence of [sz] bytes whose second
    byte must lie in [lo..hi] (the accept ranges of the package). *)
Inductive firstInfo : Type :=
| ASCII
| Invalid
| Seq (size : nat) (lo hi : Z).

Definition locb : Z := 0x80.
Definition hicb : Z := 0xBF.

Definition first (p0 : byte) : firstInfo :=
  let c := b2z p0 in
  if c <? 0x80 then ASCII
  else if c <? 0xC2 then Invalid
  else if c <? 0xE0 then Seq 2 locb hicb
  else if c =? 0xE0 then Seq 3 0xA0 hicb
  else if c <? 0xED then Seq 3 locb hicb
  else if c =? 0xED then Seq 3 locb 0x9F
  else if c <? 0xF0 then Seq 3 locb hicb
  else if c =? 0xF0 then Seq 4 0x90 hicb
  else if c <? 0xF4 then Seq 4 locb hicb
  else if c =? 0xF4 then Seq 4 locb 0x8F
  else Invalid.

Definition within (lo hi : Z) (b : byte) : bool :=
  (lo <=? b2z b) && (b2z b <=? hi).

(** The payload bits of a byte: [p & mask] for the masks 0x1F, 0x0F, 0x07
    of leading bytes and 0x3F of continuation bytes. *)
Definition payload (mask : Z) (b : byte) : Z := Z.land (b2z b) mask.

Definition rune2 (p0 p1 : byte) : Z :=
  Z.lor (Z.shiftl (payload 0x1F p0) 6) (payload 0x3F p1).

Definition rune3 (p0 p1 p2 : byte) : Z :=
  Z.lor (Z.lor (Z.shiftl (payload 0x0F p0) 12) (Z.shiftl (payload 0x3F p1) 6))
        (payload 0x3F p2).

Definition rune4 (p0 p1 p2 p3 : byte) : Z :=
  Z.lor (Z.lor (Z.lor (Z.shiftl (payload 0x07 p0) 18)
                      (Z.shiftl (payload 0x3F p1) 12))
               (Z.shiftl (payload 0x3F p2) 6))
        (payload 0x3F p3).

(** [runes s] is [[]rune(s)]: the runes that ranging over [s] yields.
    Every step is one [DecodeRuneInString]: a byte that starts no valid
    sequence decodes to [RuneError] and is one byte wide. *)
Fixpoint runes (s : gostring) : list Z :=
  match s with
  | [] => []
  | p0 :: t0 =>
    match first p0 with
    | ASCII => b2z p0 :: runes t0
    | Invalid => RuneError :: runes t0
    | Seq sz lo hi =>
      match t0 with
      | [] => RuneError :: runes t0
      | p1 :: t1 =>
        if negb (within lo hi p1) then RuneError :: runes t0
        else if (sz <=? 2)%nat then rune2 p0 p1 :: runes t1
        else
          match t1 with
          | [] => RuneError :: runes t0
          | p2 :: t2 =>
            if negb (within locb hicb p2) then RuneError :: runes t0
            else if (sz <=? 3)%nat then rune3 p0 p1 p2 :: runes t2
            else
              match t2 with
              | [] => RuneError :: runes t0
              | p3 :: t3 =>
                if negb (within locb hicb p3) then RuneError :: runes t0
                else rune4 p0 p1 p2 p3 :: runes t3
              end
          end
      end
    end
  end.

Definition RuneCountInString (s : gostring) : Z := Z.of_nat (length (runes s)).

(** [encodeRune r] is [utf8.AppendRune(nil, r)]: runes out of range and
    surrogates are written as U+FFFD. *)
Definition encodeRune (r : Z) : gostring :=
  if (0 <=? r) && (r <=? 0x7F) then [z2b r]
  else if (0 <=? r) && (r <=? 0x7FF) then
    [z2b (Z.lor 0xC0 (Z.shiftr r 6)); z2b (Z.lor 0x80 (Z.land r 0x3F))]
  else if (r <? 0) || (MaxRune <? r) || ((surrogateMin <=? r) && (r <=? surrogateMax)) then
    [xef; xbf; xbd]
  else if r <=? 0xFFFF then
    [z2b (Z.lor 0xE0 (Z.shiftr r 12));
     z2b (Z.lor 0x80 (Z.land (Z.shiftr r 6) 0x3F));
     z2b (Z.lor 0x80 (Z.land r 0x3F))]
  else
    [z2b (Z.lor 0xF0 (Z.shiftr r 18));
     z2b (Z.lor 0x80 (Z.land (Z.shiftr r 12) 0x3F));
     z2b (Z.lor 0x80 (Z.land (Z.shiftr r 6) 0x3F));
     z2b (Z.lor 0x80 (Z.land r 0x3F))].

(** [string(rs)] for a slice of runes. *)
Definition encode (rs : list Z) : gostring := flat_map encodeRune rs.

Definition ValidRune (r : Z) : bool :=
  ((0 <=? r) && (r <? surrogateMin)) || ((surrogateMax <? r) && (r <=? MaxRune)).

End utf8.

(** ** unicode *)

Module unicode.

(** [unicode.IsSpace]: the Latin-1 spaces and the runes of category
    White_Space beyond. *)
Definition IsSpace (r : Z) : bool :=
  if (0 <=? r) && (r <=? 0xFF) then
    ((0x09 <=? r) && (r <=? 0x0D)) || (r =? 0x20) || (r =? 0x85) || (r =? 0xA0)
  else
    (r =? 0x1680) || ((0x2000 <=? r) && (r <=? 0x200A)) || (r =? 0x2028)
    || (r =? 0x2029) || (r =? 0x202F) || (r =? 0x205F) || (r =? 0x3000).

(** [unicode.ToLower]: ASCII is handled by the function itself, every other
    rune by the case tables of the Go runtime, which are data of the
    runtime and enter through [table]. *)
Definition ToLower (table : Z -> Z) (r : Z) : Z :=
  if (0 <=? r) && (r <=? 0x7F) then
    if (0x41 <=? r) && (r <=? 0x5A) then r + 32 else r
  else table r.

End unicode.

(** ** strings *)

Module strings.

Fixpoint HasPrefix (s prefix : gostring) : bool :=
  match prefix, s with
  | [], _ => true
  | p :: prefix', c :: s' => Byte.eqb c p && HasPrefix s' prefix'
  | _ :: _, [] => false
  end.

Definition HasSuffix (s suffix : gostring) : bool :=
  HasPrefix (rev s) (rev suffix).

(** [Index] and [LastIndex] return a byte offset, or -1. *)
Fixpoint Index (s substr : gostring) : Z :=
  if HasPrefix s substr then 0
  else match s with
       | [] => -1
       | _ :: t => let i := Index t substr in if i <? 0 then -1 else i + 1
       end.

Fixpoint LastIndex (s substr : gostring) : Z :=
  match s with
  | [] => if is_empty substr then 0 else -1
  | _ :: t =>
    let i := LastIndex t substr in
    if 0 <=? i then i + 1
    else if HasPrefix s substr then 0 else -1
  end.

Definition Contains (s substr : gostring) : bool := 0 <=? Index s substr.

(** [s[i:j]] and [s[i:]] for offsets that are in range where the program
    slices. *)
Definition slice (s : gostring) (i j : Z) : gostring :=
  firstn (Z.to_nat (j - i)) (skipn (Z.to_nat i) s).

Definition slice_from (s : gostring) (i : Z) : gostring := skipn (Z.to_nat i) s.

Fixpoint Join (elems : list gostring) (sep : gostring) : gostring :=
  match elems with
  | [] => []
  | [e] => e
  | e :: rest => e ++ sep ++ Join rest sep
  end.

(** [Split(s, sep)] for a separator of one byte. *)
Fixpoint SplitByte (s : gostring) (sep : byte) : list gostring :=
  match s with
  | [] => [[]]
  | b :: t =>
    if Byte.eqb b sep then [] :: SplitByte t sep
    else match SplitByte t sep with
         | h :: r => (b :: h) :: r
         | [] => [[b]]
         end
  end.

(** [ReplaceAll(s, "\r\n", "\n")]. *)
Fixpoint ReplaceCRLF (s : gostring) : gostring :=
  match s with
  | [] => []
  | b :: t =>
    match t with
    | b1 :: t1 =>
      if Byte.eqb b x0d && Byte.eqb b1 x0a then x0a :: ReplaceCRLF t1
      else b :: ReplaceCRLF t
    | [] => [b]
    end
  end.

(** One step of decoding at the front of a string: the rune and its width
    in bytes ([utf8.DecodeRuneInString]). *)
Definition DecodeRune (s : gostring) : Z * nat :=
  match s with
  | [] => (utf8.RuneError, 0%nat)
  | p0 :: t0 =>
    match utf8.first p0 with
    | utf8.ASCII => (b2z p0, 1%nat)
    | utf8.Invalid => (utf8.RuneError, 1%nat)
    | utf8.Seq sz lo hi =>
      match t0 with
      | [] => (utf8.RuneError, 1%nat)
      | p1 :: t1 =>
        if negb (utf8.within lo hi p1) then (utf8.RuneError, 1%nat)
        else if (sz <=? 2)%nat then (utf8.rune2 p0 p1, 2%nat)
        else
          match t1 with
          | [] => (utf8.RuneError, 1%nat)
          | p2 :: t2 =>
            if negb (utf8.within utf8.locb utf8.hicb p2) then (utf8.RuneError, 1%nat)
            else if (sz <=? 3)%nat then (utf8.rune3 p0 p1 p2, 3%nat)
            else
              match t2 with
              | [] => (utf8.RuneError, 1%nat)
              | p3 :: _ =>
                if negb (utf8.within utf8.locb utf8.hicb p3) then (utf8.RuneError, 1%nat)
                else (utf8.rune4 p0 p1 p2 p3, 4%nat)
              end
          end
      end
    end
  end.

(** [utf8.RuneStart]: the byte is not a continuation byte. *)
Definition RuneStart (b : byte) : bool := negb (Z.land (b2z b) 0xC0 =? 0x80).

(** The search of [utf8.DecodeLastRuneInString] for the start of the last
    rune: [rs] holds the bytes before the last one, nearest first, and at
    most [UTFMax - 1] of them are inspected. The result is how many bytes
    before the last byte the candidate start lies. *)
Fixpoint lastStart (budget : nat) (rs : gostring) : nat :=
  match budget, rs with
  | S k, b :: rs' => if RuneStart b then 1%nat else S (lastStart k rs')
  | S _, [] => 0%nat
  | O, [] => 0%nat
  | O, _ :: _ => 1%nat
  end.

Definition DecodeLastRune (s : gostring) : Z * nat :=
  match rev s with
  | [] => (utf8.RuneError, 0%nat)
  | b :: before =>
    if b2z b <? utf8.RuneSelf then (b2z b, 1%nat)
    else
      let back := lastStart 3 before in
      let start := (length s - 1 - back)%nat in
      let (r, size) := DecodeRune (skipn start s) in
      if (start + size =? length s)%nat then (r, size) else (utf8.RuneError, 1%nat)
  end.

(** [TrimLeftFunc(s, unicode.IsSpace)]: [skip] counts the bytes that still
    belong to a space rune already decoded. *)
Fixpoint trimLeftSpace (skip : nat) (s : gostring) : gostring :=
  match s with
  | [] => []
  | _ :: t =>
    match skip with
    | S k => trimLeftSpace k t
    | O =>
      let (r, w) := DecodeRune s in
      if unicode.IsSpace r then trimLeftSpace (w - 1) t else s
    end
  end.

(** [TrimRightFunc(s, unicode.IsSpace)], on the reversed string. *)
Fixpoint trimRightSpace (skip : nat) (rs : gostring) : gostring :=
  match rs with
  | [] => []
  | _ :: t =>
    match skip with
    | S k => trimRightSpace k t
    | O =>
      let (r, w) := DecodeLastRune (rev rs) in
      if unicode.IsSpace r then trimRightSpace (w - 1) t else rs
    end
  end.

Definition TrimLeftSpace (s : gostring) : gostring := trimLeftSpace 0 s.
Definition TrimRightSpace (s : gostring) : gostring := rev (trimRightSpace 0 (rev s)).
Definition TrimSpace (s : gostring) : gostring := TrimRightSpace (TrimLeftSpace s).

(** [TrimLeft], [TrimRight] and [Trim] for a cutset of ASCII bytes. *)
Definition inCutset (cutset : gostring) (b : byte) : bool :=
  existsb (Byte.eqb b) cutset.

Fixpoint TrimLeft (s cutset : gostring) : gostring :=
  match s with
  | [] => []
  | b :: t => if inCutset cutset b then TrimLeft t cutset else s
  end.

Definition TrimRight (s cutset : gostring) : gostring :=
  rev (TrimLeft (rev s) cutset).

Definition Trim (s cutset : gostring) : gostring :=
  TrimRight (TrimLeft s cutset) cutset.

(** [ToLower] is [Map(unicode.ToLower, s)]: every decoded rune is mapped and
    written back, a negative result is dropped. *)
Definition mapRune (mapping : Z -> Z) (r : Z) : gostring :=
  let r' := mapping r in
  if r' <? 0 then [] else utf8.encodeRune r'.

Definition Map (mapping : Z -> Z) (s : gostring) : gostring :=
  flat_map (mapRune mapping) (utf8.runes s).

Definition ToLower (table : Z -> Z) (s : gostring) : gostring :=
  Map (unicode.ToLower table) s.

End strings.

(** ** regexp: the two patterns of the program *)

Module regexp.

(** The class [\s] of Go's regular expressions: tab, newline, form feed,
    carriage return and space. *)
Definition perlSpace (b : byte) : bool :=
  let c := b2z b in
  (c =? 0x09) || (c =? 0x0A) || (c =? 0x0C) || (c =? 0x0D) || (c =? 0x20).

Definition isLetter (b : byte) : bool :=
  let c := b2z b in
  ((0x41 <=? c) && (c <=? 0x5A)) || ((0x61 <=? c) && (c <=? 0x7A)).

Definition isDigit (b : byte) : bool :=
  let c := b2z b in (0x30 <=? c) && (c <=? 0x39).

(** [regexp.MustCompile(`\s+`).ReplaceAllString(s, " ")]: every maximal run
    of [\s] bytes becomes one space. [inRun] tells that the run being read
    has been replaced already. *)
Fixpoint replaceSpaceRuns (inRun : bool) (s : gostring) : gostring :=
  match s with
  | [] => []
  | b :: t =>
    if perlSpace b then
      if inRun then replaceSpaceRuns true t else x20 :: replaceSpaceRuns true t
    else b :: replaceSpaceRuns false t
  end.

Fixpoint takeWhile (f : byte -> bool) (s : gostring) : gostring :=
  match s with
  | [] => []
  | b :: t => if f b then b :: takeWhile f t else []
  end.

Fixpoint dropWhile (f : byte -> bool) (s : gostring) : gostring :=
  match s with
  | [] => []
  | b :: t => if f b then dropWhile f t else s
  end.

(** [regexp.MustCompile(`^([A-Za-z]+-\d+)`).FindStringSubmatch(s)]: [None]
    is the nil result, [Some m1] a result of length 2 whose group 1 is
    [m1]. Both repetitions are greedy and no letter is a hyphen, no digit
    follows the digits taken, so the match is the longest run of letters,
    the hyphen and the longest run of digits. *)
Definition findTicket (s : gostring) : option gostring :=
  let letters := takeWhile isLetter s in
  match letters, dropWhile isLetter s with
  | _ :: _, b :: rest =>
    if Byte.eqb b x2d then
      match takeWhile isDigit rest with
      | [] => None
      | digits => Some (letters ++ [x2d] ++ digits)
      end
    else None
  | _, _ => None
  end.

End regexp.

(** ** internal/util *)

Module util.

Definition ellipsis : gostring := [xe2; x80; xa6].

(* CondenseSpaces collapses runs of whitespace to single spaces. *)
Definition CondenseSpaces (s : gostring) : gostring :=
  regexp.replaceSpaceRuns false s.

(* TruncateShorten trims a string to at most n characters, adding an
   ellipsis if trimmed. *)
Definition TruncateShorten (s : gostring) (n : Z) : gostring :=
  if n <=? 0 then []
  else if utf8.RuneCountInString s <=? n then s
  else utf8.encode (firstn (Z.to_nat (n - 1)) (utf8.runes s)) ++ ellipsis.

(* TrimLines splits and removes empty lines, returning a cleaned slice. *)
Definition TrimLines (s : gostring) : list gostring :=
  if is_empty s then []
  else
    filter (fun line => negb (is_empty line))
           (map strings.TrimSpace (strings.SplitByte (strings.ReplaceCRLF s) x0a)).

(** The mark that [TrimTo] leaves where it cut: a newline, an ellipsis and
    the words "[diff truncated]". *)
Definition truncatedMark : gostring :=
  [x0a] ++ ellipsis ++ str "[diff truncated]".

(* TrimTo limits a string to max bytes, attempting to cut on line
   boundaries. *)
Definition TrimTo (s : gostring) (max : Z) : gostring :=
  if (max <=? 0) || (len s <=? max) then s
  else
    let head := strings.slice s 0 max in
    let idx := strings.LastIndex head [x0a] in
    let head := if idx >? 0 then strings.slice head 0 idx else head in
    head ++ truncatedMark.

End util.

(** ** encoding/json: reading a JSON text *)

Module json.

Inductive value : Type :=
| Null
| Bool (b : bool)
| Number
| String (s : gostring)
| Array (elems : list value)
| Object (members : list (gostring * value)).

Definition maxNestingDepth : nat := 10000.

Definition isSpace (b : byte) : bool :=
  Byte.eqb b x20 || Byte.eqb b x09 || Byte.eqb b x0d || Byte.eqb b x0a.

Definition skipSpace (s : gostring) : gostring := regexp.dropWhile isSpace s.

Definition hexDigit (b : byte) : option Z :=
  let c := b2z b in
  if (0x30 <=? c) && (c <=? 0x39) then Some (c - 0x30)
  else if (0x61 <=? c) && (c <=? 0x66) then Some (c - 0x61 + 10)
  else if (0x41 <=? c) && (c <=? 0x46) then Some (c - 0x41 + 10)
  else None.

(** [getu4]: the code unit of a [\uXXXX] escape at the front of [s]. *)
Definition getu4 (s : gostring) : option Z :=
  match s with
  | b0 :: b1 :: h1 :: h2 :: h3 :: h4 :: _ =>
    if Byte.eqb b0 x5c && Byte.eqb b1 x75 then
      match hexDigit h1, hexDigit h2, hexDigit h3, hexDigit h4 with
      | Some d1, Some d2, Some d3, Some d4 => Some (((d1 * 16 + d2) * 16 + d3) * 16 + d4)
      | _, _, _, _ => None
      end
    else None
  | _ => None
  end.

Definition isSurrogate (r : Z) : bool := (0xD800 <=? r) && (r <? 0xE000).

(** [utf16.DecodeRune]. *)
Definition decodeSurrogates (r1 r2 : Z) : Z :=
  if (0xD800 <=? r1) && (r1 <? 0xDC00) && (0xDC00 <=? r2) && (r2 <? 0xE000)
  then Z.lor (Z.shiftl (r1 - 0xD800) 10) (r2 - 0xDC00) + 0x10000
  else utf8.RuneError.

(** An escape sequence at the front of [s], which starts with the
    backslash: the bytes it stands for and the number of bytes it takes. *)
Definition escape (s : gostring) : option (gostring * nat) :=
  match s with
  | _ :: c :: rest =>
    if Byte.eqb c x22 then Some ([x22], 2%nat)
    else if Byte.eqb c x5c then Some ([x5c], 2%nat)
    else if Byte.eqb c x2f then Some ([x2f], 2%nat)
    else if Byte.eqb c x62 then Some ([x08], 2%nat)
    else if Byte.eqb c x66 then Some ([x0c], 2%nat)
    else if Byte.eqb c x6e then Some ([x0a], 2%nat)
    else if Byte.eqb c x72 then Some ([x0d], 2%nat)
    else if Byte.eqb c x74 then Some ([x09], 2%nat)
    else if Byte.eqb c x75 then
      match getu4 s with
      | None => None
      | Some rr =>
        if isSurrogate rr then
          match getu4 (skipn 6 s) with
          | Some rr1 =>
            let dec := decodeSurrogates rr rr1 in
            if dec =? utf8.RuneError then Some (utf8.encodeRune utf8.RuneError, 6%nat)
            else Some (utf8.encodeRune dec, 12%nat)
          | None => Some (utf8.encodeRune utf8.RuneError, 6%nat)
          end
        else Some (utf8.encodeRune rr, 6%nat)
      end
    else None
  | _ => None
  end.

Definition prepend (out : gostring) (r : option (gostring * gostring))
  : option (gostring * gostring) :=
  match r with
  | Some (body, rest) => Some (out ++ body, rest)
  | None => None
  end.

(** The text of a string after its opening quote: the string it denotes
    and what follows the closing quote. Control characters are refused,
    bytes that are not UTF-8 are read as U+FFFD. [skip] counts the bytes of
    the construct being read that are still ahead. *)
Fixpoint unquote (skip : nat) (s : gostring) : option (gostring * gostring) :=
  match s with
  | [] => None
  | c :: t =>
    match skip with
    | S k => unquote k t
    | O =>
      if Byte.eqb c x22 then Some ([], t)
      else if Byte.eqb c x5c then
        match escape s with
        | Some (out, n) => prepend out (unquote (n - 1) t)
        | None => None
        end
      else if b2z c <? 0x20 then None
      else if b2z c <? utf8.RuneSelf then prepend [c] (unquote 0 t)
      else
        let (r, w) := strings.DecodeRune s in
        prepend (utf8.encodeRune r) (unquote (w - 1) t)
    end
  end.

Definition digits (s : gostring) : gostring := regexp.takeWhile regexp.isDigit s.
Definition afterDigits (s : gostring) : gostring := regexp.dropWhile regexp.isDigit s.

Definition number_exp (s : gostring) : option gostring :=
  match s with
  | e :: t =>
    if Byte.eqb e x65 || Byte.eqb e x45 then
      let t' := match t with
                | sg :: t1 => if Byte.eqb sg x2b || Byte.eqb sg x2d then t1 else t
                | [] => t
                end in
      if is_empty (digits t') then None else Some (afterDigits t')
    else Some s
  | [] => Some s
  end.

Definition number_frac (s : gostring) : option gostring :=
  match s with
  | d :: t =>
    if Byte.eqb d x2e then
      if is_empty (digits t) then None else number_exp (afterDigits t)
    else number_exp s
  | [] => Some s
  end.

(** A number: what follows it, when the text starts with one. *)
Definition number (s : gostring) : option gostring :=
  let s1 := match s with
            | m :: t => if Byte.eqb m x2d then t else s
            | [] => s
            end in
  match s1 with
  | d :: t =>
    if Byte.eqb d x30 then number_frac t
    else if regexp.isDigit d then number_frac (afterDigits t)
    else None
  | [] => None
  end.

Fixpoint parseValue (fuel depth : nat) (s : gostring) : option (value * gostring) :=
  match fuel with
  | O => None
  | S k =>
    match skipSpace s with
    | [] => None
    | c :: t =>
      if Byte.eqb c x7b then
        if (maxNestingDepth <? S depth)%nat then None
        else match skipSpace t with
             | c1 :: t1 =>
               if Byte.eqb c1 x7d then Some (Object [], t1)
               else parseMembers k (S depth) (skipSpace t) []
             | [] => None
             end
      else if Byte.eqb c x5b then
        if (maxNestingDepth <? S depth)%nat then None
        else match skipSpace t with
             | c1 :: t1 =>
               if Byte.eqb c1 x5d then Some (Array [], t1)
               else parseElements k (S depth) (skipSpace t) []
             | [] => None
             end
      else if Byte.eqb c x22 then
        match unquote 0 t with
        | Some (str, rest) => Some (String str, rest)
        | None => None
        end
      else if strings.HasPrefix (c :: t) (str "true") then Some (Bool true, skipn 4 (c :: t))
      else if strings.HasPrefix (c :: t) (str "false") then Some (Bool false, skipn 5 (c :: t))
      else if strings.HasPrefix (c :: t) (str "null") then Some (Null, skipn 4 (c :: t))
      else match number (c :: t) with
           | Some rest => Some (Number, rest)
           | None => None
           end
    end
  end
with parseMembers (fuel depth : nat) (s : gostring) (acc : list (gostring * value))
  : option (value * gostring) :=
  match fuel with
  | O => None
  | S k =>
    match s with
    | q :: t =>
      if Byte.eqb q x22 then
        match unquote 0 t with
        | Some (key, rest) =>
          match skipSpace rest with
          | colon :: rest1 =>
            if Byte.eqb colon x3a then
              match parseValue k depth rest1 with
              | Some (v, rest2) =>
                match skipSpace rest2 with
                | d :: rest3 =>
                  if Byte.eqb d x2c then parseMembers k depth (skipSpace rest3) (acc ++ [(key, v)])
                  else if Byte.eqb d x7d then Some (Object (acc ++ [(key, v)]), rest3)
                  else None
                | [] => None
                end
              | None => None
              end
            else None
          | [] => None
          end
        | None => None
        end
      else None
    | [] => None
    end
  end
with parseElements (fuel depth : nat) (s : gostring) (acc : list value)
  : option (value * gostring) :=
  match fuel with
  | O => None
  | S k =>
    match parseValue k depth s with
    | Some (v, rest) =>
      match skipSpace rest with
      | d :: rest1 =>
        if Byte.eqb d x2c then parseElements k depth rest1 (acc ++ [v])
        else if Byte.eqb d x5d then Some (Array (acc ++ [v]), rest1)
        else None
      | [] => None
      end
    | None => None
    end
  end.

(** The value a whole text denotes: [None] is a syntax error. Every call of
    the parser reads a byte of its own, as a value or as a member, so that
    twice the length of the text is fuel enough. *)
Definition parse (data : gostring) : option value :=
  match parseValue (2 * length data + 2) 0 data with
  | Some (v, rest) => if is_empty (skipSpace rest) then Some v else None
  | None => None
  end.

(** [foldName]: the key under which a member is looked up when no field has
    exactly its name. Letters of ASCII fold to upper case; outside ASCII
    only U+017F and U+212A share a fold set with an ASCII letter, and every
    other rune folds to a rune outside ASCII. *)
Definition foldRune (r : Z) : Z :=
  if (0x61 <=? r) && (r <=? 0x7A) then r - 32
  else if r =? 0x17F then 0x53
  else if r =? 0x212A then 0x4B
  else r.

Definition foldName (name : gostring) : gostring :=
  utf8.encode (map foldRune (utf8.runes name)).

(** The field a member's key selects among the JSON names of a struct: the
    field of exactly that name, else the first one equal under folding. *)
Fixpoint indexOf (f : gostring -> bool) (names : list gostring) : option nat :=
  match names with
  | [] => None
  | n :: rest => if f n then Some 0%nat else option_map S (indexOf f rest)
  end.

Definition fieldIndex (names : list gostring) (key : gostring) : option nat :=
  match indexOf (bytes_eqb key) names with
  | Some i => Some i
  | None => indexOf (fun n => bytes_eqb (foldName key) (foldName n)) names
  end.

End json.

(** ** internal/commit *)

Module commit.

(* Parts represents the structured information returned by the model. *)
Record Parts : Type := mkParts {
  CommitType : gostring;
  Description : gostring;
  Summary : gostring;
  Body : gostring
}.

(* Message holds the final headline and body to be presented or committed.
   (Its second field is [Body] in the source.) *)
Record Message : Type := mkMessage {
  Headline : gostring;
  MessageBody : gostring
}.

Definition zeroParts : Parts := mkParts [] [] [] [].

Inductive error : Type :=
| ErrEmptyResponse        (* errors.New("empty response") *)
| ErrMissingJSONObject    (* errors.New("response missing JSON object") *)
| ErrUnmarshal.           (* the error of json.Unmarshal *)

Inductive result (A : Type) : Type :=
| Ok (a : A)
| Err (e : error).
Arguments Ok {A} a.
Arguments Err {A} e.

(** The literal of the map [allowedCommitTypes], entry by entry. *)
Definition allowedCommitTypes : list (gostring * gostring) :=
  [ (str "feat", str "feat");
    (str "feature", str "feat");
    (str "fix", str "fix");
    (str "bugfix", str "fix");
    (str "perf", str "perf");
    (str "refactor", str "refactor");
    (str "docs", str "docs");
    (str "doc", str "docs");
    (str "test", str "test");
    (str "tests", str "test");
    (str "build", str "build");
    (str "chore", str "chore");
    (str "ci", str "ci") ].

(** The enumeration of commit types: the values of the map. *)
Definition commitTypes : list gostring :=
  [str "feat"; str "fix"; str "perf"; str "refactor"; str "docs"; str "test";
   str "build"; str "chore"; str "ci"].

Definition commitKeywords : list gostring :=
  [str "fix"; str "feat"; str "perf"; str "refactor"; str "docs"; str "test";
   str "build"; str "ci"].

(** [allowedCommitTypes[key]]. *)
Fixpoint lookup (key : gostring) (m : list (gostring * gostring)) : option gostring :=
  match m with
  | [] => None
  | (k, v) :: rest => if bytes_eqb key k then Some v else lookup key rest
  end.

(** The JSON names of the fields of [Parts], and the store of one member
    of an object into a [Parts]: a string is stored, [null] leaves the
    field alone, any other value is a type error ([None]). A member that
    names no field is skipped. *)
Definition partsFields : list gostring :=
  [str "commit_type"; str "description"; str "summary"; str "body"].

Definition storeString (v : json.value) (old : gostring) : option gostring :=
  match v with
  | json.String s => Some s
  | json.Null => Some old
  | _ => None
  end.

Definition storeMember (p : Parts) (member : gostring * json.value) : Parts * bool :=
  let (key, v) := member in
  match json.fieldIndex partsFields key with
  | Some 0%nat =>
    match storeString v (CommitType p) with
    | Some s => (mkParts s (Description p) (Summary p) (Body p), true)
    | None => (p, false)
    end
  | Some 1%nat =>
    match storeString v (Description p) with
    | Some s => (mkParts (CommitType p) s (Summary p) (Body p), true)
    | None => (p, false)
    end
  | Some 2%nat =>
    match storeString v (Summary p) with
    | Some s => (mkParts (CommitType p) (Description p) s (Body p), true)
    | None => (p, false)
    end
  | Some 3%nat =>
    match storeString v (Body p) with
    | Some s => (mkParts (CommitType p) (Description p) (Summary p) s, true)
    | None => (p, false)
    end
  | _ => (p, true)
  end.

Fixpoint storeMembers (p : Parts) (ok : bool) (ms : list (gostring * json.value))
  : Parts * bool :=
  match ms with
  | [] => (p, ok)
  | m :: rest =>
    let (p', ok') := storeMember p m in
    storeMembers p' (ok && ok') rest
  end.

(** [json.Unmarshal(data, &p)] for a zero [p : Parts]: [None] is an error
    (of syntax, or of type, which is reported once the text is read). *)
Definition UnmarshalParts (data : gostring) : option Parts :=
  match json.parse data with
  | Some (json.Object ms) =>
    let (p, ok) := storeMembers zeroParts true ms in
    if ok then Some p else None
  | Some json.Null => Some zeroParts
  | _ => None
  end.

Section Runtime.

(** The case table of the Go runtime behind [strings.ToLower]. *)
Variable table : Z -> Z.

(** The order in which [range allowedCommitTypes] yields the entries of the
    map: Go leaves it unspecified, and it may change from one loop to the
    next. A function takes the order of the one loop it runs; the resolver is
    proved below not to depend on it. *)
Variable order : list (gostring * gostring).

(** [json.Unmarshal] into a zero [Parts]. *)
Variable Unmarshal : gostring -> option Parts.

(** The loop [for key, value := range allowedCommitTypes] of the resolver:
    the value of the first key met that is a prefix of the candidate. *)
Fixpoint rangePrefix (candidate : gostring) (entries : list (gostring * gostring))
  : option gostring :=
  match entries with
  | [] => None
  | (key, value) :: rest =>
    if strings.HasPrefix candidate key then Some value
    else rangePrefix candidate rest
  end.

Definition normaliseCommitType (t : gostring) : gostring :=
  let candidate := strings.ToLower table (strings.TrimSpace t) in
  let candidate := strings.Trim candidate (str "[]") in
  if is_empty candidate then str "chore"
  else
    match lookup candidate allowedCommitTypes with
    | Some mapped => mapped
    | None =>
      match rangePrefix candidate order with
      | Some value => value
      | None => str "chore"
      end
    end.

(** The loop [for _, candidate := range commitKeywords]. *)
Fixpoint rangeKeywords (lower : gostring) (keywords : list gostring) : gostring :=
  match keywords with
  | [] => str "chore"
  | candidate :: rest =>
    if strings.Contains lower candidate then normaliseCommitType candidate
    else rangeKeywords lower rest
  end.

Definition detectCommitType (raw : gostring) : gostring :=
  let lower := strings.ToLower table raw in
  rangeKeywords lower commitKeywords.

Definition sanitizeDescription (s : gostring) : gostring :=
  let s := util.CondenseSpaces (strings.TrimSpace s) in
  if is_empty s then []
  else
    let s := if Z.of_nat (length (utf8.runes s)) >? 72
             then util.TruncateShorten s 72 else s in
    strings.TrimRight s (str ".").

Definition sanitizeSummary (s : gostring) : gostring :=
  let s := util.CondenseSpaces (strings.TrimSpace s) in
  if is_empty s then []
  else if Z.of_nat (length (utf8.runes s)) >? 100
       then util.TruncateShorten s 100 else s.

(** The body of the loop of [sanitizeBody] over the lines. *)
Definition sanitizeLine (line : gostring) : gostring :=
  let line := util.CondenseSpaces line in
  if Z.of_nat (length (utf8.runes line)) >? 300
  then util.TruncateShorten line 300 else line.

Definition sanitizeBody (body summary : gostring) : gostring :=
  let body := strings.TrimSpace body in
  let body := if is_empty body then summary else body in
  let lines := util.TrimLines body in
  match lines with
  | [] => []
  | _ => strings.Join (map sanitizeLine lines) [x0a]
  end.

Definition extractTicket (branch : gostring) : gostring :=
  let branch := util.CondenseSpaces (strings.TrimSpace branch) in
  if is_empty branch then str "unknown"
  else
    let idx := strings.LastIndex branch (str "/") in
    let branch :=
      if negb (idx =? -1) && (idx <? len branch - 1)
      then strings.slice_from branch (idx + 1) else branch in
    match regexp.findTicket branch with
    | Some m1 => m1
    | None => branch
    end.

Definition normaliseParts (p : Parts) : Parts :=
  let commitType := normaliseCommitType (CommitType p) in
  let description := sanitizeDescription (Description p) in
  let summary := sanitizeSummary (Summary p) in
  let body := sanitizeBody (Body p) summary in
  mkParts commitType description summary body.

(* ParseParts normalises the model output into Parts enforcing length
   limits. *)
Definition ParseParts (raw : gostring) : result Parts :=
  let raw := strings.TrimSpace raw in
  if is_empty raw then Err ErrEmptyResponse
  else
    let start := strings.Index raw (str "{") in
    let end_ := strings.LastIndex raw (str "}") in
    if (start =? -1) || (end_ =? -1) || (start >? end_) then Err ErrMissingJSONObject
    else
      match Unmarshal (strings.slice raw start (end_ + 1)) with
      | None => Err ErrUnmarshal
      | Some p => Ok (normaliseParts p)
      end.

(* FallbackParts attempts to build a meaningful Parts struct from an
   arbitrary string. *)
Definition FallbackParts (raw : gostring) : Parts :=
  let clean := sanitizeDescription raw in
  let clean := if is_empty clean then str "update project files" else clean in
  let summary := sanitizeSummary raw in
  let summary := if is_empty summary then util.TruncateShorten clean 100 else summary in
  mkParts (detectCommitType raw) clean summary (sanitizeBody raw summary).

(* BuildMessage creates the final printable/committable representation. *)
Definition BuildMessage (branch : gostring) (parts : Parts) : Message :=
  let ticket := extractTicket branch in
  let commitType := normaliseCommitType (CommitType parts) in
  let summary := sanitizeSummary (Summary parts) in
  let description := sanitizeDescription (Description parts) in
  let description :=
    if is_empty description then
      if negb (is_empty summary) then summary else str "update project files"
    else description in
  let summary := if is_empty summary then util.TruncateShorten description 100 else summary in
  let body := sanitizeBody (Body parts) summary in
  let headline :=
    strings.TrimSpace
      (strings.Join [ticket; str "[" ++ commitType ++ str "]"; description] (str " ")) in
  mkMessage headline body.

End Runtime.

End commit.

(** ** internal/ollama: reading the streamed response *)

Module ollama.

(* Chunk mirrors the streamed response from Ollama. *)
Record Chunk : Type := mkChunk {
  Response : gostring;
  Done : bool
}.

Definition zeroChunk : Chunk := mkChunk [] false.

Definition chunkFields : list gostring := [str "response"; str "done"].

Definition storeMember (c : Chunk) (member : gostring * json.value) : Chunk * bool :=
  let (key, v) := member in
  match json.fieldIndex chunkFields key with
  | Some 0%nat =>
    match v with
    | json.String s => (mkChunk s (Done c), true)
    | json.Null => (c, true)
    | _ => (c, false)
    end
  | Some 1%nat =>
    match v with
    | json.Bool b => (mkChunk (Response c) b, true)
    | json.Null => (c, true)
    | _ => (c, false)
    end
  | _ => (c, true)
  end.

Fixpoint storeMembers (c : Chunk) (ok : bool) (ms : list (gostring * json.value))
  : Chunk * bool :=
  match ms with
  | [] => (c, ok)
  | m :: rest =>
    let (c', ok') := storeMember c m in
    storeMembers c' (ok && ok') rest
  end.

(** [json.Unmarshal(line, &chunk)] for a zero [chunk]. *)
Definition UnmarshalChunk (line : gostring) : option Chunk :=
  match json.parse line with
  | Some (json.Object ms) =>
    let (c, ok) := storeMembers zeroChunk true ms in
    if ok then Some c else None
  | Some json.Null => Some zeroChunk
  | _ => None
  end.

Inductive error : Type :=
| ErrStatus (code : Z) (body : gostring)   (* "ollama error %d: %s" *)
| ErrTooLong.                              (* bufio.ErrTooLong, from sc.Err() *)

Inductive result : Type :=
| Ok (s : gostring)
| Err (e : error).

(** [bufio.MaxScanTokenSize]: a scanner with the default buffer gives up on
    a line that does not fit, its newline included. (A last line of exactly
    this size that no newline ends is at the mercy of the reader; it is
    refused here.) *)
Definition MaxScanTokenSize : Z := 64 * 1024.

(** The lines of a body: the pieces between newlines; what follows the last
    newline is a line only when it is not empty. *)
Fixpoint bodyLines (body : gostring) (cur : gostring) : list gostring :=
  match body with
  | [] => match cur with [] => [] | _ => [cur] end
  | b :: t =>
    if Byte.eqb b x0a then cur :: bodyLines t []
    else bodyLines t (cur ++ [b])
  end.

(** [dropCR] of [bufio.ScanLines]. *)
Definition dropCR (line : gostring) : gostring :=
  match rev line with
  | b :: before => if Byte.eqb b x0d then rev before else line
  | [] => line
  end.

Section Stream.

(** [json.Unmarshal] into a zero [Chunk]. *)
Variable Unmarshal : gostring -> option Chunk.

(** The loop [for sc.Scan() { ... }] over the lines still unread, with the
    builder [out]; the result is the builder when the loop is left, or
    the error that [sc.Err()] reports. *)
Fixpoint scanLoop (lines : list gostring) (out : gostring) : result :=
  match lines with
  | [] => Ok out
  | line :: rest =>
    if MaxScanTokenSize <=? len line then Err ErrTooLong
    else
      match Unmarshal (dropCR line) with
      | None => scanLoop rest out                      (* continue *)
      | Some chunk =>
        let out := out ++ Response chunk in
        if Done chunk then Ok out                      (* break *)
        else scanLoop rest out
      end
  end.

(* Generate sends a prompt to the model and returns the aggregated
   response. The request is sent by the HTTP client of the Go library;
   the function is taken up where the response has arrived in full, with
   its status code and its body: the status, the loop, the result. An
   error of the transport, or a deadline that ends the read, is not part
   of this model. *)
Definition Generate (StatusCode : Z) (body : gostring) : result :=
  if StatusCode >=? 300 then Err (ErrStatus StatusCode body)
  else
    match scanLoop (bodyLines body []) [] with
    | Err e => Err e
    | Ok out => Ok (strings.TrimSpace out)
    end.

End Stream.

(** A value of the map [Options] of a request: the literals of the
    repository are decimal fractions, kept as the fraction they denote, and
    integers. *)
Inductive optionValue : Type :=
| Float (numerator denominator : Z)
| Int (n : Z).

(* Request defines the payload sent to the Ollama API. *)
Record Request : Type := mkRequest {
  Model : gostring;
  Prompt : gostring;
  Stream : bool;
  Options : list (gostring * optionValue)
}.

End ollama.

(** ** The specification's words, for comparison with the code *)

Module Spec.

(** "the first occurrence in the raw text of any member of the keyword
    list": the keyword that occurs earliest in the text. *)
Definition earlier (lower : gostring) (best : option gostring) (k : gostring)
  : option gostring :=
  let i := strings.Index lower k in
  if i <? 0 then best
  else match best with
       | None => Some k
       | Some b => if i <? strings.Index lower b then Some k else best
       end.

Definition earliestKeyword (lower : gostring) : option gostring :=
  fold_left (earlier lower) commit.commitKeywords None.

Definition detectCommitType (table : Z -> Z) (order : list (gostring * gostring))
           (raw : gostring) : gostring :=
  match earliestKeyword (strings.ToLower table raw) with
  | Some k => commit.normaliseCommitType table order k
  | None => str "chore"
  end.

(** "strips path segments up to the last "/"", then the ticket token or
    the whole remaining segment; "unknown" for an empty branch. *)
Definition extractTicket (branch : gostring) : gostring :=
  let branch := util.CondenseSpaces (strings.TrimSpace branch) in
  if is_empty branch then str "unknown"
  else
    let idx := strings.LastIndex branch (str "/") in
    let segment := if idx =? -1 then branch else strings.slice_from branch (idx + 1) in
    match regexp.findTicket segment with
    | Some ticket => ticket
    | None => segment
    end.

(** "description via sanitizeDescription (defaulting to summary, then to
    the literal fallback phrase if both are empty)". *)
Definition resolvedDescription (parts : commit.Parts) : gostring :=
  let description := commit.sanitizeDescription (commit.Description parts) in
  let summary := commit.sanitizeSummary (commit.Summary parts) in
  if negb (is_empty description) then description
  else if negb (is_empty summary) then summary
  else str "update project files".




(** A response body made of the given lines, a newline after each. *)
Definition bodyOf (lines : list gostring) : gostring :=
  flat_map (fun line => line ++ [x0a]) lines.

End Spec.

(** ** Inputs of the examples *)

Module Examples.

(** A case table that leaves every rune outside ASCII alone: it stands for
    the table of the runtime in the examples, whose texts are ASCII. *)
Definition identityTable (r : Z) : Z := r.

(** JSON texts for the examples: a member ["name":"text"], where [text] is
    the text of the string as it stands between the quotes. *)
Definition quoted (s : gostring) : gostring := x22 :: s ++ [x22].

Definition member (name text : gostring) : gostring :=
  quoted name ++ str ":" ++ quoted text.

(** [{"summary":"logs auth events"}]: an object without description. *)
Definition noDescriptionResponse : gostring :=
  str "{" ++ member (str "summary") (str "logs auth events") ++ str "}".

(** An object whose body has two lines of 200 letters each. *)
Definition twoLineBodyResponse : gostring :=
  str "{" ++ member (str "description") (str "add audit hook") ++ str ","
      ++ member (str "body") (repeat x61 200 ++ str "\n" ++ repeat x62 200) ++ str "}".


(** [{"response":"he"}] and [{"response":"llo ","done":true}], and the
    lines of a stream: the two records around a line that is no JSON, and a
    record more after the one that is done. *)
Definition heChunkLine : gostring :=
  str "{" ++ member (str "response") (str "he") ++ str "}".

Definition lloChunkLine : gostring :=
  str "{" ++ member (str "response") (str "llo ") ++ str ","
      ++ quoted (str "done") ++ str ":true}".


End Examples.

(** ** internal/git: the repository behind the git command line *)

Module git.

Section CLI.

(** The state of the machine that the commands read and change, and the
    errors of running a command. *)
Variable World : Type.
Variable ExecError : Type.

(** [r.Exec(ctx, name, args...)] followed by [cmd.Run()], for the command
    line [name :: args]: what the command wrote to its output, its error
    if it failed, and the state it leaves. *)
Variable Run : list gostring -> World -> gostring * option ExecError * World.

(** [os.WriteFile(path, data, perm)]. *)
Variable WriteFile : gostring -> gostring -> Z -> World -> option ExecError * World.

Inductive error : Type :=
| ErrDiff (e : ExecError) (out : gostring)           (* "git diff error: %v\n%s" *)
| ErrRevParse (e : ExecError) (out : gostring)       (* "git rev-parse failed: %v\n%s" *)
| ErrRevParseShort (e : ExecError) (out : gostring)  (* "git rev-parse --short failed: %v\n%s" *)
| ErrEmptyHeadline                                   (* "empty headline" *)
| ErrRun (e : ExecError).                            (* the error of cmd.Run or os.WriteFile *)

Definition StagedDiff (w : World) : (gostring + error) * World :=
  let '(out, err, w) :=
    Run [str "git"; str "diff"; str "--staged"; str "-U0"; str "-M"] w in
  match err with
  | Some e => (inr (ErrDiff e out), w)
  | None => (inl out, w)
  end.

Definition CurrentBranch (w : World) : (gostring + error) * World :=
  let '(out, err, w) :=
    Run [str "git"; str "rev-parse"; str "--abbrev-ref"; str "HEAD"] w in
  match err with
  | Some e => (inr (ErrRevParse e out), w)
  | None =>
    let branch := strings.TrimSpace out in
    if negb (is_empty branch) && negb (bytes_eqb branch (str "HEAD"))
    then (inl branch, w)
    else
      let '(out, err, w) :=
        Run [str "git"; str "rev-parse"; str "--short"; str "HEAD"] w in
      match err with
      | Some e => (inr (ErrRevParseShort e out), w)
      | None => (inl (strings.TrimSpace out), w)
      end
  end.

(** The arguments that [Commit] gives to git. *)
Definition commitArgs (headline body : gostring) : list gostring :=
  let args := [str "commit"; str "-m"; headline] in
  if negb (is_empty (strings.TrimSpace body)) then args ++ [str "-m"; body] else args.

Definition Commit (headline body : gostring) (w : World) : option error * World :=
  if is_empty (strings.TrimSpace headline) then (Some ErrEmptyHeadline, w)
  else
    let '(_, err, w) := Run (str "git" :: commitArgs headline body) w in
    (option_map ErrRun err, w).

(** The file gets the permissions [0o644], which is 420. *)
Definition WriteHook (path message : gostring) (w : World) : option error * World :=
  let (err, w) := WriteFile path (message ++ [x0a]) 420 w in
  (option_map ErrRun err, w).

End CLI.

Arguments ErrDiff {ExecError} e out.
Arguments ErrRevParse {ExecError} e out.
Arguments ErrRevParseShort {ExecError} e out.
Arguments ErrEmptyHeadline {ExecError}.
Arguments ErrRun {ExecError} e.
Arguments StagedDiff {World ExecError} Run w.
Arguments CurrentBranch {World ExecError} Run w.
Arguments Commit {World ExecError} Run headline body w.
Arguments WriteHook {World ExecError} WriteFile path message w.

End git.

(** ** internal/prompt: the texts sent to the model *)

Module prompt.

Definition nl : gostring := [x0a].

Definition quoted (s : gostring) : gostring := x22 :: s ++ [x22].

(** The text of the template of [Review] before its verb [%s]. *)
Definition reviewHead : gostring :=
  str "You are a meticulous senior engineer." ++ nl
  ++ str "Review the following git diff and highlight any potential issues." ++ nl
  ++ nl
  ++ str "Return plain text following this format:" ++ nl
  ++ str "- If you see problems: list each on its own line starting with "
     ++ quoted (str "- ") ++ str " and keep each finding under 160 characters." ++ nl
  ++ str "- If the changes look good: respond with "
     ++ quoted (str "No blocking issues found.") ++ nl
  ++ nl
  ++ str "Focus on correctness, security, performance, tests, and edge cases. Do not mention formatting unless it hides a bug."
     ++ nl
  ++ nl
  ++ str "Diff:" ++ nl.

(** The text of the template of [Commit] before its first verb [%s], and
    the text between the two verbs. *)
Definition commitHead : gostring :=
  str "You help craft git commit messages." ++ nl
  ++ str "Analyse the staged diff and respond with a single JSON object describing the commit."
     ++ nl
  ++ nl
  ++ str "Requirements:" ++ nl
  ++ str "- " ++ quoted (str "commit_type") ++ str ": choose the best fit from ["
     ++ quoted (str "feat") ++ str "," ++ quoted (str "fix") ++ str ","
     ++ quoted (str "perf") ++ str "," ++ quoted (str "refactor") ++ str ","
     ++ quoted (str "docs") ++ str "," ++ quoted (str "test") ++ str ","
     ++ quoted (str "build") ++ str "," ++ quoted (str "chore") ++ str ","
     ++ quoted (str "ci") ++ str "]." ++ nl
  ++ str "- " ++ quoted (str "description")
     ++ str ": short imperative summary of what changed (<= 72 characters, no trailing punctuation, lower case start)."
     ++ nl
  ++ str "- " ++ quoted (str "summary")
     ++ str ": brief reason or impact of the change (<= 100 characters)." ++ nl
  ++ str "- " ++ quoted (str "body")
     ++ str ": 1-3 sentences that highlight key details or rationale (<= 300 characters). Use newline separators if listing items."
     ++ nl
  ++ str "- Output only valid JSON. No prose, markdown, or backticks." ++ nl
  ++ nl
  ++ str "Example:" ++ nl
  ++ str "{" ++ quoted (str "commit_type") ++ str ":" ++ quoted (str "fix") ++ str ","
     ++ quoted (str "description") ++ str ":" ++ quoted (str "handle nil pointer in parser")
     ++ str "," ++ quoted (str "summary") ++ str ":"
     ++ quoted (str "avoid panic when schema metadata missing") ++ str ","
     ++ quoted (str "body") ++ str ":"
     ++ quoted (str "Add nil check before parser access to prevent runtime crash.")
     ++ str "}" ++ nl
  ++ nl
  ++ str "Context:" ++ nl
  ++ str "- Branch: ".

Definition commitMiddle : gostring :=
  nl
  ++ str "- Diff:" ++ nl.

(* Review builds the prompt for lightweight code review. *)
Definition Review (diff : gostring) : gostring :=
  reviewHead ++ diff ++ nl.

(* Commit builds the prompt sent to the model for commit generation. *)
Definition Commit (diff branch : gostring) : gostring :=
  commitHead ++ branch ++ commitMiddle ++ diff ++ nl.

End prompt.

(** ** internal/usecase: the review and generation flow *)

Module usecase.

Section Service.

(** The state that the repository and the model server read and change,
    and the errors they report. *)
Variable World : Type.
Variable GoError : Type.

(** The runtime behind the functions of internal/commit: the case table,
    the order of the loop over the map when the Parts are made and when the
    message is built, and [json.Unmarshal]. *)
Variable table : Z -> Z.
Variable orderParts orderMessage : list (gostring * gostring).
Variable Unmarshal : gostring -> option commit.Parts.

(* Repository exposes git operations required by the application. *)
Record Repository : Type := mkRepository {
  StagedDiff : World -> (gostring + GoError) * World;
  CurrentBranch : World -> (gostring + GoError) * World;
  Commit : gostring -> gostring -> World -> option GoError * World;
  WriteHook : gostring -> gostring -> World -> option GoError * World
}.

(* LLMClient represents the behaviour needed from an Ollama client. *)
Record LLMClient : Type := mkLLMClient {
  Generate : gostring -> ollama.Request -> World -> (gostring + GoError) * World
}.

(* Service orchestrates the review and commit message generation flow. An
   interface that is nil is [None]. *)
Record Service : Type := mkService {
  Repo : option Repository;
  LLM : option LLMClient
}.

(* Result captures the outputs of the use case. *)
Record Result : Type := mkResult {
  Review : gostring;
  ReviewErr : option GoError;
  Message : commit.Message;
  DiffUsed : gostring;
  Branch : gostring
}.

(* Options is a light copy of the config options needed inside the use
   case. (Its last field is [Review] in the source.) *)
Record Options : Type := mkOptions {
  Model : gostring;
  ReviewModel : gostring;
  Endpoint : gostring;
  MaxBytes : Z;
  RunReview : bool
}.

Inductive error : Type :=
| ErrNotInitialized      (* errors.New("service not properly initialized") *)
| ErrNoStagedChanges     (* errors.New("no staged changes detected") *)
| ErrOf (e : GoError).   (* the error of the repository or of the model *)

Definition reviewOptions : list (gostring * ollama.optionValue) :=
  [ (str "temperature", ollama.Float 1 10);
    (str "top_p", ollama.Float 9 10);
    (str "num_predict", ollama.Int 200) ].

Definition commitOptions : list (gostring * ollama.optionValue) :=
  [ (str "temperature", ollama.Float 2 10);
    (str "top_p", ollama.Float 9 10);
    (str "num_predict", ollama.Int 120) ].

Definition zeroMessage : commit.Message := commit.mkMessage [] [].

(** The step [if opts.Review { ... }] of [Execute]: the result after it and
    the state it leaves. *)
Definition reviewStep (llm : LLMClient) (endpoint reviewModel diff : gostring)
           (result : Result) (w : World) : Result * World :=
  let (review, w) :=
    Generate llm endpoint
             (ollama.mkRequest reviewModel (prompt.Review diff) true reviewOptions) w in
  match review with
  | inr err =>
    (mkResult (Review result) (Some err) (Message result) (DiffUsed result) (Branch result), w)
  | inl review =>
    (mkResult (strings.TrimSpace review) (ReviewErr result) (Message result)
              (DiffUsed result) (Branch result), w)
  end.

(* Execute performs the review+generation workflow. *)
Definition Execute (s : option Service) (opts : Options) (w : World)
  : (Result + error) * World :=
  match s with
  | None => (inr ErrNotInitialized, w)
  | Some s =>
    match Repo s, LLM s with
    | Some repo, Some llm =>
      let reviewModel :=
        if is_empty (ReviewModel opts) then Model opts else ReviewModel opts in
      let (diff, w) := StagedDiff repo w in
      match diff with
      | inr err => (inr (ErrOf err), w)
      | inl diff =>
        if is_empty (strings.TrimSpace diff) then (inr ErrNoStagedChanges, w)
        else
          let diff := util.TrimTo diff (MaxBytes opts) in
          let (branch, w) := CurrentBranch repo w in
          match branch with
          | inr err => (inr (ErrOf err), w)
          | inl branch =>
            let result := mkResult [] None zeroMessage diff branch in
            let (result, w) :=
              if RunReview opts
              then reviewStep llm (Endpoint opts) reviewModel diff result w
              else (result, w) in
            let (raw, w) :=
              Generate llm (Endpoint opts)
                       (ollama.mkRequest (Model opts) (prompt.Commit diff branch) true
                                         commitOptions) w in
            match raw with
            | inr err => (inr (ErrOf err), w)
            | inl raw =>
              let parts :=
                match commit.ParseParts table orderParts Unmarshal raw with
                | commit.Ok parts => parts
                | commit.Err _ => commit.FallbackParts table orderParts raw
                end in
              (inl (mkResult (Review result) (ReviewErr result)
                             (commit.BuildMessage table orderMessage branch parts)
                             (DiffUsed result) (Branch result)), w)
            end
          end
      end
    | _, _ => (inr ErrNotInitialized, w)
    end
  end.

End Service.

Arguments mkRepository {World GoError}.
Arguments StagedDiff {World GoError} r w.
Arguments CurrentBranch {World GoError} r w.
Arguments Commit {World GoError} r headline body w.
Arguments WriteHook {World GoError} r path message w.
Arguments mkLLMClient {World GoError}.
Arguments Generate {World GoError} l endpoint req w.
Arguments mkService {World GoError}.
Arguments Repo {World GoError} s.
Arguments LLM {World GoError} s.
Arguments mkResult {GoError}.
Arguments Review {GoError} r.
Arguments ReviewErr {GoError} r.
Arguments Message {GoError} r.
Arguments DiffUsed {GoError} r.
Arguments Branch {GoError} r.
Arguments ErrNotInitialized {GoError}.
Arguments ErrNoStagedChanges {GoError}.
Arguments ErrOf {GoError} e.
Arguments reviewStep {World GoError} llm endpoint reviewModel diff result w.
Arguments Execute {World GoError} table orderParts orderMessage Unmarshal s opts w.

End usecase.

(** ** main.go: the program in one file *)

Module main.

(** A function either returns or panics (a slice expression out of range). *)
Inductive outcome (A : Type) : Type :=
| Ret (a : A)
| Panic.
Arguments Ret {A} a.
Arguments Panic {A}.

Definition bind {A B : Type} (m : outcome A) (f : A -> outcome B) : outcome B :=
  match m with
  | Ret a => f a
  | Panic => Panic
  end.

Notation "x <- m ;; k" := (bind m (fun x => k))
  (at level 61, m at next level, right associativity).

Record commitParts : Type := mkCommitParts {
  CommitType : gostring;
  Description : gostring;
  Summary : gostring;
  Body : gostring
}.

Inductive error : Type :=
| ErrEmptyModelResponse     (* errors.New("empty model response") *)
| ErrMissingJSONObject      (* errors.New("model response missing JSON object") *)
| ErrUnmarshal              (* the error of json.Unmarshal *)
| ErrMissingDescription.    (* errors.New("model response missing description") *)

Definition allowedCommitTypes : list (gostring * gostring) :=
  [ (str "feat", str "feat");
    (str "feature", str "feat");
    (str "fix", str "fix");
    (str "bugfix", str "fix");
    (str "perf", str "perf");
    (str "refactor", str "refactor");
    (str "docs", str "docs");
    (str "doc", str "docs");
    (str "test", str "test");
    (str "tests", str "test");
    (str "build", str "build");
    (str "chore", str "chore");
    (str "ci", str "ci") ].

Definition condenseSpaces (s : gostring) : gostring :=
  regexp.replaceSpaceRuns false s.

(** [runes[:n-1]] panics when [n-1] is negative; it is within the slice
    when the function gets there, since the slice has more than [n] runes. *)
Definition truncate (s : gostring) (n : Z) : outcome gostring :=
  if len s <=? n then Ret s
  else
    let runes := utf8.runes s in
    if Z.of_nat (length runes) <=? n then Ret s
    else if n - 1 <? 0 then Panic
    else Ret (utf8.encode (firstn (Z.to_nat (n - 1)) runes) ++ [xe2; x80; xa6]).

(** [s[:max]] panics when [max] is negative; it is within the string when
    the function gets there, since the string has more than [max] bytes. *)
Definition trimTo (s : gostring) (max : Z) : outcome gostring :=
  if len s <=? max then Ret s
  else if max <? 0 then Panic
  else
    let head := strings.slice s 0 max in
    let idx := strings.LastIndex head [x0a] in
    let head := if idx >? 0 then strings.slice head 0 idx else head in
    Ret (head ++ [x0a; xe2; x80; xa6] ++ str "[diff truncated]").

Definition extractTicket (branch : gostring) : gostring :=
  let branch := condenseSpaces (strings.TrimSpace branch) in
  if is_empty branch then str "unknown"
  else
    let idx := strings.LastIndex branch (str "/") in
    if negb (idx =? -1) && (idx <? len branch - 1)
    then strings.slice_from branch (idx + 1) else branch.

Definition sanitizeDescription (s : gostring) : outcome gostring :=
  let s := condenseSpaces (strings.TrimSpace s) in
  if is_empty s then Ret []
  else
    s <- (if Z.of_nat (length (utf8.runes s)) >? 72 then truncate s 72 else Ret s) ;;
    Ret (strings.TrimRight s (str ".")).

Definition sanitizeSummary (s : gostring) : outcome gostring :=
  let s := condenseSpaces (strings.TrimSpace s) in
  if is_empty s then Ret []
  else if Z.of_nat (length (utf8.runes s)) >? 100 then truncate s 100 else Ret s.

Definition sanitizeBody (s : gostring) : outcome gostring :=
  let s := strings.ReplaceCRLF s in
  let s := strings.TrimSpace s in
  if is_empty s then Ret []
  else
    let lines := strings.SplitByte s x0a in
    let cleaned :=
      filter (fun line => negb (is_empty line))
             (map (fun line => condenseSpaces (strings.TrimSpace line)) lines) in
    let body := strings.Join cleaned [x0a] in
    if Z.of_nat (length (utf8.runes body)) >? 300 then truncate body 300 else Ret body.

Section Runtime.

Variable table : Z -> Z.
Variable order : list (gostring * gostring).
Variable Unmarshal : gostring -> option commitParts.

Definition normalizeCommitType (t : gostring) : gostring :=
  let candidate := strings.ToLower table (strings.TrimSpace t) in
  let candidate := strings.Trim candidate (str "[]") in
  match commit.lookup candidate allowedCommitTypes with
  | Some mapped => mapped
  | None =>
    match commit.rangePrefix candidate order with
    | Some value => value
    | None => str "chore"
    end
  end.

(** The loop of [detectCommitType] over its list of keywords. *)
Fixpoint rangeKeywords (lower : gostring) (keywords : list gostring) : gostring :=
  match keywords with
  | [] => str "chore"
  | candidate :: rest =>
    if strings.Contains lower candidate then normalizeCommitType candidate
    else rangeKeywords lower rest
  end.

Definition detectCommitType (raw : gostring) : gostring :=
  let lower := strings.ToLower table raw in
  rangeKeywords lower
    [str "fix"; str "feat"; str "perf"; str "refactor"; str "docs"; str "test";
     str "build"; str "ci"].

Definition parseCommitParts (raw : gostring) : outcome (commitParts + error) :=
  let raw := strings.TrimSpace raw in
  if is_empty raw then Ret (inr ErrEmptyModelResponse)
  else
    let start := strings.Index raw (str "{") in
    let end_ := strings.LastIndex raw (str "}") in
    if (start =? -1) || (end_ =? -1) || (start >? end_) then Ret (inr ErrMissingJSONObject)
    else
      match Unmarshal (strings.slice raw start (end_ + 1)) with
      | None => Ret (inr ErrUnmarshal)
      | Some parts =>
        let commitType := normalizeCommitType (CommitType parts) in
        description <- sanitizeDescription (Description parts) ;;
        summary <- sanitizeSummary (Summary parts) ;;
        body <- sanitizeBody (Body parts) ;;
        if is_empty description then Ret (inr ErrMissingDescription)
        else Ret (inl (mkCommitParts commitType description summary body))
      end.

Definition fallbackCommitParts (raw : gostring) : outcome commitParts :=
  clean <- sanitizeDescription raw ;;
  let clean := if is_empty clean then str "update project files" else clean in
  summary <- sanitizeSummary raw ;;
  summary <- (if is_empty summary then truncate clean 100 else Ret summary) ;;
  let commitType := detectCommitType raw in
  body <- sanitizeBody raw ;;
  Ret (mkCommitParts commitType clean summary body).

(** The pair returned is (headline, body). *)
Definition formatCommitOutput (branch : gostring) (parts : commitParts)
  : outcome (gostring * gostring) :=
  let ticket := extractTicket branch in
  let commitType := normalizeCommitType (CommitType parts) in
  let description := Description parts in
  let description :=
    if is_empty description then str "update project files" else description in
  summary <- (if is_empty (Summary parts) then truncate description 100
              else Ret (Summary parts)) ;;
  let body := Body parts in
  let body := if is_empty body then summary else body in
  let headline := ticket ++ str " [" ++ commitType ++ str "] " ++ description in
  Ret (headline, body).

(** What [main] does with the response of the model, up to the message it
    prints, writes or commits: it stops with [fail] when the headline is
    blank. *)
Inductive composed : Type :=
| Composed (headline body commitMessage : gostring)
| FailEmptyMessage.   (* fail("Model returned an empty message. ...") *)

Definition main_message (branch raw : gostring) : outcome composed :=
  parsed <- parseCommitParts raw ;;
  parts <- (match parsed with
            | inl parts => Ret parts
            | inr _ => fallbackCommitParts raw
            end) ;;
  out <- formatCommitOutput branch parts ;;
  let (headline, body) := out in
  if is_empty (strings.TrimSpace headline) then Ret FailEmptyMessage
  else
    let commitMessage :=
      if negb (is_empty body) then headline ++ [x0a; x0a] ++ body else headline in
    Ret (Composed headline body commitMessage).

End Runtime.

End main.

(** ** More examples *)

Module MoreExamples.

(** A machine on which every git command prints [" main "] and succeeds:
    the state is the list of the command lines run, the last one first. *)
Definition recordingRun (args : list gostring) (w : list (list gostring))
  : gostring * option unit * list (list gostring) :=
  (str " main ", None, args :: w).

(** A repository with a staged diff of one line on the branch
    feature/TES-123-login, and a model that answers every request with a
    text that is no JSON. The state counts the calls made. *)
Definition oneLineRepo : usecase.Repository nat unit :=
  usecase.mkRepository
    (fun w => (inl (str "+x := 1" ++ [x0a]), S w))
    (fun w => (inl (str "feature/TES-123-login"), S w))
    (fun _ _ w => (None, S w))
    (fun _ _ w => (None, S w)).

Definition proseModel : usecase.LLMClient nat unit :=
  usecase.mkLLMClient (fun _ _ w => (inl (str "Add the x variable."), S w)).

(** A model that is down. *)
Definition downModel : usecase.LLMClient nat unit :=
  usecase.mkLLMClient (fun _ _ w => (inr tt, S w)).

Definition defaultOptions : usecase.Options :=
  usecase.mkOptions (str "qwen2.5-coder:1.5b") [] (str "http://localhost:11434") 32000 true.

(** [json.Unmarshal] into the [commitParts] of main.go, whose fields have
    the tags of [commit.Parts]. *)
Definition UnmarshalCommitParts (data : gostring) : option main.commitParts :=
  match commit.UnmarshalParts data with
  | Some p =>
    Some (main.mkCommitParts (commit.CommitType p) (commit.Description p)
                             (commit.Summary p) (commit.Body p))
  | None => None
  end.

End MoreExamples.

(** ** Notions used in the proofs *)

(** The bytes that a rune of white space can be made of: the ASCII spaces
    and the bytes of multi-byte sequences. No printable ASCII byte is one. *)
Definition spaceByte (b : byte) : Prop :=
  (0x09 <= b2z b <= 0x0D) \/ b2z b = 0x20 \/ 0x80 <= b2z b.

(** What a rune becomes when it is written and read back. *)
Definition normRune (r : Z) : Z := if utf8.ValidRune r then r else utf8.RuneError.

(** Case analysis on the comparisons of a goal. *)
Ltac zbool :=
  repeat match goal with
         | |- context [Z.ltb ?a ?b] => destruct (Z.ltb_spec a b); try lia
         | |- context [Z.leb ?a ?b] => destruct (Z.leb_spec a b); try lia
         | |- context [Z.eqb ?a ?b] => destruct (Z.eqb_spec a b); try lia
         end.

(** Decide the tests of conditionals by linear arithmetic. *)
Ltac zif :=
  repeat match goal with
         | |- context [if ?c then _ else _] =>
           first [ replace c with true by lia | replace c with false by lia ];
           cbv iota
         end.

(** A text in which white space of the class [\s] is single spaces only;
    [afterSpace] tells that a space stands just before the text. *)
Fixpoint isCondensed (afterSpace : bool) (s : gostring) : bool :=
  match s with
  | [] => true
  | b :: t =>
    if regexp.perlSpace b
    then Byte.eqb b x20 && negb afterSpace && isCondensed true t
    else isCondensed false t
  end.

(** The rune at the front, and the rune at the end, is no white space. An
    empty string has neither. *)
Definition startsNonSpace (s : gostring) : Prop :=
  unicode.IsSpace (fst (strings.DecodeRune s)) = false.

Definition endsNonSpace (s : gostring) : Prop :=
  unicode.IsSpace (fst (strings.DecodeLastRune s)) = false.

(** Two texts that read alike to a decoder over their first [k] bytes: the
    bytes are the same as long as they are bytes of multi-byte sequences,
    and where one text has an ASCII byte, or ends, so does the other. *)
Fixpoint highAgree (k : nat) (x y : gostring) : Prop :=
  match k with
  | O => True
  | S k' =>
    match x, y with
    | [], [] => True
    | [], b :: _ => b2z b < 0x80
    | a :: _, [] => b2z a < 0x80
    | a :: x', b :: y' =>
      (a = b /\ highAgree k' x' y') \/ (b2z a < 0x80 /\ b2z b < 0x80)
    end
  end.

(** Whether the reading of [s], begun in the state [inRun], ends inside a
    run of white space. *)
Definition runState (inRun : bool) (s : gostring) : bool :=
  fold_left (fun _ b => regexp.perlSpace b) s inRun.

(** * Properties *)

(** ** Bytes *)

Lemma b2z_range (b : byte) : 0 <= b2z b < 256.
Proof.
  unfold b2z. pose proof (Byte.to_N_bounded b). lia.
Qed.

Lemma b2z_z2b (z : Z) : 0 <= z < 256 -> b2z (z2b z) = z.
Proof.
  intros Hz. unfold z2b, b2z.
  rewrite Z.mod_small by lia.
  destruct (Byte.of_N (Z.to_N z)) as [b|] eqn:E.
  - apply Byte.to_of_N in E. rewrite E. lia.
  - apply Byte.of_N_None_iff in E. lia.
Qed.

Lemma b2z_inj (a b : byte) : b2z a = b2z b -> a = b.
Proof.
  unfold b2z. intros H. apply N2Z.inj in H.
  assert (Some a = Some b) as E.
  { rewrite <- (Byte.of_to_N a), <- (Byte.of_to_N b). now rewrite H. }
  now inversion E.
Qed.

Lemma byte_eqb_eq (a b : byte) : Byte.eqb a b = true <-> a = b.
Proof.
  split; [apply Byte.byte_dec_bl | apply Byte.byte_dec_lb].
Qed.

Lemma byte_eqb_refl (a : byte) : Byte.eqb a a = true.
Proof. now apply byte_eqb_eq. Qed.

Lemma byte_eqb_neq (a b : byte) : Byte.eqb a b = false <-> a <> b.
Proof.
  split.
  - apply Byte.eqb_false.
  - intros H. destruct (Byte.eqb a b) eqn:E; [|reflexivity].
    apply byte_eqb_eq in E. contradiction.
Qed.

Lemma bytes_eqb_eq (a b : gostring) : bytes_eqb a b = true <-> a = b.
Proof.
  revert b. induction a as [|x a IH]; intros [|y b]; simpl; split; intros H;
    try reflexivity; try discriminate.
  - apply andb_true_iff in H as [H1 H2].
    apply byte_eqb_eq in H1. apply IH in H2. now subst.
  - inversion H; subst. rewrite byte_eqb_refl. simpl. now apply IH.
Qed.

Lemma is_empty_true (s : gostring) : is_empty s = true <-> s = [].
Proof. destruct s; simpl; split; intros H; try reflexivity; discriminate. Qed.

Lemma is_empty_false (s : gostring) : is_empty s = false <-> s <> [].
Proof. destruct s; simpl; split; intros H; try reflexivity; try discriminate; congruence. Qed.

Lemma In_firstn {A : Type} (x : A) (n : nat) (l : list A) :
  In x (firstn n l) -> In x l.
Proof.
  intros H. rewrite <- (firstn_skipn n l). apply in_or_app. now left.
Qed.

Lemma In_skipn {A : Type} (x : A) (n : nat) (l : list A) :
  In x (skipn n l) -> In x l.
Proof.
  intros H. rewrite <- (firstn_skipn n l). apply in_or_app. now right.
Qed.

(** ** UTF-8: the bit operations of the codec as arithmetic *)



Lemma lor_disjoint (a b k : Z) :
  0 <= k -> 0 <= b < 2 ^ k -> Z.lor (a * 2 ^ k) b = a * 2 ^ k + b.
Proof.
  intros Hk Hb.
  assert (Z.land (a * 2 ^ k) b = 0) as Hland.
  { apply Z.bits_inj'. intros n Hn.
    rewrite Z.land_spec, Z.bits_0.
    destruct (Z.lt_ge_cases n k) as [Hlt|Hge].
    - rewrite Z.mul_pow2_bits_low by lia. reflexivity.
    - destruct (Z.eq_dec b 0) as [->|Hb0].
      + rewrite Z.bits_0. apply andb_false_r.
      + rewrite (Z.bits_above_log2 b n); [apply andb_false_r | lia |].
        apply Z.log2_lt_pow2; [lia|].
        apply Z.lt_le_trans with (2 ^ k); [lia|].
        apply Z.pow_le_mono_r; lia. }
  rewrite <- Z.lxor_lor by exact Hland.
  symmetry. now apply Z.add_nocarry_lxor.
Qed.

Lemma land_mask (a k : Z) : 0 <= k -> Z.land a (2 ^ k - 1) = a mod 2 ^ k.
Proof.
  intros Hk. rewrite <- Z.land_ones by lia.
  f_equal. rewrite Z.ones_equiv. lia.
Qed.

Lemma payload_3F (b : byte) : utf8.payload 0x3F b = b2z b mod 64.
Proof. unfold utf8.payload. exact (land_mask (b2z b) 6 ltac:(lia)). Qed.

Lemma payload_1F (b : byte) : utf8.payload 0x1F b = b2z b mod 32.
Proof. unfold utf8.payload. exact (land_mask (b2z b) 5 ltac:(lia)). Qed.

Lemma payload_0F (b : byte) : utf8.payload 0x0F b = b2z b mod 16.
Proof. unfold utf8.payload. exact (land_mask (b2z b) 4 ltac:(lia)). Qed.

Lemma payload_07 (b : byte) : utf8.payload 0x07 b = b2z b mod 8.
Proof. unfold utf8.payload. exact (land_mask (b2z b) 3 ltac:(lia)). Qed.

Lemma rune2_arith (p0 p1 : byte) :
  utf8.rune2 p0 p1 = (b2z p0 mod 32) * 64 + b2z p1 mod 64.
Proof.
  unfold utf8.rune2. rewrite payload_1F, payload_3F, Z.shiftl_mul_pow2 by lia.
  apply (lor_disjoint _ _ 6); [lia|]. apply Z.mod_pos_bound. lia.
Qed.

Lemma rune3_arith (p0 p1 p2 : byte) :
  utf8.rune3 p0 p1 p2
  = (b2z p0 mod 16) * 4096 + (b2z p1 mod 64) * 64 + b2z p2 mod 64.
Proof.
  unfold utf8.rune3. rewrite payload_0F, !payload_3F, !Z.shiftl_mul_pow2 by lia.
  pose proof (Z.mod_pos_bound (b2z p1) 64 ltac:(lia)).
  pose proof (Z.mod_pos_bound (b2z p2) 64 ltac:(lia)).
  rewrite (lor_disjoint _ _ 12) by lia.
  replace (b2z p0 mod 16 * 2 ^ 12 + b2z p1 mod 64 * 2 ^ 6)
    with ((b2z p0 mod 16 * 64 + b2z p1 mod 64) * 2 ^ 6) by lia.
  rewrite (lor_disjoint _ _ 6) by lia. lia.
Qed.

Lemma rune4_arith (p0 p1 p2 p3 : byte) :
  utf8.rune4 p0 p1 p2 p3
  = (b2z p0 mod 8) * 262144 + (b2z p1 mod 64) * 4096
    + (b2z p2 mod 64) * 64 + b2z p3 mod 64.
Proof.
  unfold utf8.rune4. rewrite payload_07, !payload_3F, !Z.shiftl_mul_pow2 by lia.
  pose proof (Z.mod_pos_bound (b2z p1) 64 ltac:(lia)).
  pose proof (Z.mod_pos_bound (b2z p2) 64 ltac:(lia)).
  pose proof (Z.mod_pos_bound (b2z p3) 64 ltac:(lia)).
  rewrite (lor_disjoint _ _ 18) by lia.
  replace (b2z p0 mod 8 * 2 ^ 18 + b2z p1 mod 64 * 2 ^ 12)
    with ((b2z p0 mod 8 * 64 + b2z p1 mod 64) * 2 ^ 12) by lia.
  rewrite (lor_disjoint _ _ 12) by lia.
  replace ((b2z p0 mod 8 * 64 + b2z p1 mod 64) * 2 ^ 12 + b2z p2 mod 64 * 2 ^ 6)
    with (((b2z p0 mod 8 * 64 + b2z p1 mod 64) * 64 + b2z p2 mod 64) * 2 ^ 6) by lia.
  rewrite (lor_disjoint _ _ 6) by lia. lia.
Qed.

(** ** UTF-8: decoding what was encoded *)

(** [runes] takes the steps of [DecodeRune]. *)
Lemma runes_step (b : byte) (t : gostring) :
  utf8.runes (b :: t)
  = fst (strings.DecodeRune (b :: t))
      :: utf8.runes (skipn (snd (strings.DecodeRune (b :: t))) (b :: t)).
Proof.
  simpl. destruct (utf8.first b) as [| |sz lo hi]; try reflexivity.
  destruct t as [|p1 t1]; [reflexivity|].
  destruct (negb (utf8.within lo hi p1)); [reflexivity|].
  destruct (sz <=? 2)%nat; [reflexivity|].
  destruct t1 as [|p2 t2]; [reflexivity|].
  destruct (negb (utf8.within utf8.locb utf8.hicb p2)); [reflexivity|].
  destruct (sz <=? 3)%nat; [reflexivity|].
  destruct t2 as [|p3 t3]; [reflexivity|].
  destruct (negb (utf8.within utf8.locb utf8.hicb p3)); reflexivity.
Qed.

Lemma DecodeRune_width (b : byte) (t : gostring) :
  (1 <= snd (strings.DecodeRune (b :: t)) <= length (b :: t))%nat.
Proof.
  simpl. destruct (utf8.first b) as [| |sz lo hi]; simpl; try lia.
  destruct t as [|p1 t1]; simpl; [lia|].
  destruct (negb (utf8.within lo hi p1)); simpl; [lia|].
  destruct (sz <=? 2)%nat; simpl; [lia|].
  destruct t1 as [|p2 t2]; simpl; [lia|].
  destruct (negb (utf8.within utf8.locb utf8.hicb p2)); simpl; [lia|].
  destruct (sz <=? 3)%nat; simpl; [lia|].
  destruct t2 as [|p3 t3]; simpl; [lia|].
  destruct (negb (utf8.within utf8.locb utf8.hicb p3)); simpl; lia.
Qed.

(** What [first] says of a leading byte. *)
Lemma first_ascii (b : byte) : utf8.first b = utf8.ASCII <-> b2z b < 0x80.
Proof.
  unfold utf8.first. cbv zeta. pose proof (b2z_range b) as Hb.
  split; [zbool; discriminate | intros Hx; zbool; reflexivity].
Qed.

Lemma first_seq (b : byte) (sz : nat) (lo hi : Z) :
  utf8.first b = utf8.Seq sz lo hi ->
  0xC2 <= b2z b <= 0xF4 /\ 0x80 <= lo /\ hi <= 0xBF /\
  ((sz = 2%nat /\ b2z b < 0xE0 /\ lo = 0x80 /\ hi = 0xBF) \/
   (sz = 3%nat /\ 0xE0 <= b2z b < 0xF0 /\
    (b2z b = 0xE0 -> lo = 0xA0) /\ (b2z b <> 0xE0 -> lo = 0x80) /\
    (b2z b = 0xED -> hi = 0x9F) /\ (b2z b <> 0xED -> hi = 0xBF)) \/
   (sz = 4%nat /\ 0xF0 <= b2z b /\
    (b2z b = 0xF0 -> lo = 0x90) /\ (b2z b <> 0xF0 -> lo = 0x80) /\
    (b2z b = 0xF4 -> hi = 0x8F) /\ (b2z b <> 0xF4 -> hi = 0xBF))).
Proof.
  unfold utf8.first, utf8.locb, utf8.hicb. cbv zeta. pose proof (b2z_range b).
  zbool; intros E; inversion E; subst; lia.
Qed.

Lemma first_2 (b : byte) :
  0xC2 <= b2z b < 0xE0 -> utf8.first b = utf8.Seq 2 0x80 0xBF.
Proof. intros H. unfold utf8.first. cbv zeta. zif. reflexivity. Qed.

Lemma first_3 (b : byte) :
  0xE0 <= b2z b < 0xF0 ->
  utf8.first b = utf8.Seq 3 (if b2z b =? 0xE0 then 0xA0 else 0x80)
                            (if b2z b =? 0xED then 0x9F else 0xBF).
Proof.
  intros H. unfold utf8.first. cbv zeta.
  destruct (Z.eqb_spec (b2z b) 0xE0), (Z.eqb_spec (b2z b) 0xED); try lia;
    zbool; reflexivity.
Qed.

Lemma first_4 (b : byte) :
  0xF0 <= b2z b <= 0xF4 ->
  utf8.first b = utf8.Seq 4 (if b2z b =? 0xF0 then 0x90 else 0x80)
                            (if b2z b =? 0xF4 then 0x8F else 0xBF).
Proof.
  intros H. unfold utf8.first. cbv zeta.
  destruct (Z.eqb_spec (b2z b) 0xF0), (Z.eqb_spec (b2z b) 0xF4); try lia;
    zbool; reflexivity.
Qed.

Lemma within_spec (lo hi : Z) (b : byte) :
  utf8.within lo hi b = true <-> lo <= b2z b <= hi.
Proof. unfold utf8.within. rewrite andb_true_iff, !Z.leb_le. tauto. Qed.

Lemma ValidRune_spec (r : Z) :
  utf8.ValidRune r = true <-> (0 <= r < 0xD800 \/ 0xDFFF < r <= 0x10FFFF).
Proof.
  unfold utf8.ValidRune, utf8.surrogateMin, utf8.surrogateMax, utf8.MaxRune.
  rewrite orb_true_iff, !andb_true_iff, !Z.leb_le, !Z.ltb_lt. tauto.
Qed.

(** Every rune that decoding yields is a valid rune. *)
Lemma DecodeRune_valid (s : gostring) :
  utf8.ValidRune (fst (strings.DecodeRune s)) = true.
Proof.
  destruct s as [|p0 t0]; [reflexivity|]. simpl.
  destruct (utf8.first p0) as [| |sz lo hi] eqn:F; [| reflexivity |].
  - apply first_ascii in F. pose proof (b2z_range p0).
    apply ValidRune_spec. simpl. lia.
  - apply first_seq in F.
    destruct t0 as [|p1 t1]; [reflexivity|].
    destruct (utf8.within lo hi p1) eqn:W1; [|reflexivity]. simpl negb. cbv iota.
    apply within_spec in W1.
    destruct F as (R0 & Rlo & Rhi & [(-> & F) | [(-> & F) | (-> & F)]]).
    + simpl. apply ValidRune_spec. rewrite rune2_arith.
      Z.div_mod_to_equations. lia.
    + change (3 <=? 2)%nat with false. cbv iota.
      destruct t1 as [|p2 t2]; [reflexivity|].
      destruct (utf8.within utf8.locb utf8.hicb p2) eqn:W2; [|reflexivity].
      apply within_spec in W2. unfold utf8.locb, utf8.hicb in W2.
      simpl. apply ValidRune_spec. rewrite rune3_arith.
      Z.div_mod_to_equations. lia.
    + change (4 <=? 2)%nat with false. cbv iota.
      destruct t1 as [|p2 t2]; [reflexivity|].
      destruct (utf8.within utf8.locb utf8.hicb p2) eqn:W2; [|reflexivity].
      apply within_spec in W2. unfold utf8.locb, utf8.hicb in W2.
      simpl negb. cbv iota. change (4 <=? 3)%nat with false. cbv iota.
      destruct t2 as [|p3 t3]; [reflexivity|].
      destruct (utf8.within utf8.locb utf8.hicb p3) eqn:W3; [|reflexivity].
      apply within_spec in W3. unfold utf8.locb, utf8.hicb in W3.
      simpl. apply ValidRune_spec. rewrite rune4_arith.
      Z.div_mod_to_equations. lia.
Qed.

Lemma runes_valid (s : gostring) : Forall (fun r => utf8.ValidRune r = true) (utf8.runes s).
Proof.
  remember (length s) as n eqn:Hn. revert s Hn.
  induction n as [n IH] using lt_wf_ind. intros s Hn.
  destruct s as [|b t]; [constructor|].
  rewrite runes_step. constructor; [apply DecodeRune_valid|].
  pose proof (DecodeRune_width b t) as [Hw1 Hw2].
  eapply IH; [|reflexivity]. subst n. rewrite length_skipn.
  remember (snd (strings.DecodeRune (b :: t))) as w. simpl length in *. lia.
Qed.

Lemma encodeRune_nonempty (r : Z) : utf8.encodeRune r <> [].
Proof.
  unfold utf8.encodeRune.
  repeat match goal with |- context [if ?c then _ else _] => destruct c end;
    discriminate.
Qed.

(** The bytes [encodeRune] writes, as sums. *)
Lemma encodeRune_1 (r : Z) : 0 <= r <= 0x7F -> utf8.encodeRune r = [z2b r].
Proof. intros H. unfold utf8.encodeRune. zif. reflexivity. Qed.

Lemma cont_byte (x : Z) : Z.lor 0x80 (Z.land x 0x3F) = 0x80 + x mod 64.
Proof.
  change (Z.land x 0x3F) with (Z.land x (2 ^ 6 - 1)).
  rewrite land_mask by lia.
  change 0x80 with (2 * 2 ^ 6) at 1.
  rewrite lor_disjoint; [reflexivity | lia | apply Z.mod_pos_bound; lia].
Qed.

Lemma encodeRune_2 (r : Z) :
  0x7F < r <= 0x7FF ->
  utf8.encodeRune r = [z2b (0xC0 + r / 64); z2b (0x80 + r mod 64)].
Proof.
  intros H. unfold utf8.encodeRune. zif.
  rewrite cont_byte, Z.shiftr_div_pow2 by lia.
  change 0xC0 with (6 * 2 ^ 5) at 1.
  rewrite lor_disjoint; [reflexivity | lia |].
  Z.div_mod_to_equations. lia.
Qed.

Lemma encodeRune_3 (r : Z) :
  0x7FF < r <= 0xFFFF -> ~ (0xD800 <= r <= 0xDFFF) ->
  utf8.encodeRune r
  = [z2b (0xE0 + r / 4096); z2b (0x80 + (r / 64) mod 64); z2b (0x80 + r mod 64)].
Proof.
  intros H Hs. unfold utf8.encodeRune, utf8.MaxRune, utf8.surrogateMin, utf8.surrogateMax.
  zif.
  rewrite !cont_byte, !Z.shiftr_div_pow2 by lia.
  change 0xE0 with (14 * 2 ^ 4) at 1.
  rewrite lor_disjoint; [reflexivity | lia |].
  Z.div_mod_to_equations; lia.
Qed.

Lemma encodeRune_4 (r : Z) :
  0xFFFF < r <= 0x10FFFF ->
  utf8.encodeRune r
  = [z2b (0xF0 + r / 262144); z2b (0x80 + (r / 4096) mod 64);
     z2b (0x80 + (r / 64) mod 64); z2b (0x80 + r mod 64)].
Proof.
  intros H. unfold utf8.encodeRune, utf8.MaxRune, utf8.surrogateMin, utf8.surrogateMax.
  zif.
  rewrite !cont_byte, !Z.shiftr_div_pow2 by lia.
  change 0xF0 with (30 * 2 ^ 3) at 1.
  rewrite lor_disjoint; [reflexivity | lia |].
  Z.div_mod_to_equations; lia.
Qed.

Lemma encodeRune_invalid (r : Z) :
  utf8.ValidRune r = false -> utf8.encodeRune r = [xef; xbf; xbd].
Proof.
  intros H.
  assert (~ (0 <= r < 0xD800 \/ 0xDFFF < r <= 0x10FFFF)) as Hn.
  { intros Hv. apply ValidRune_spec in Hv. congruence. }
  unfold utf8.encodeRune, utf8.MaxRune, utf8.surrogateMin, utf8.surrogateMax.
  zif. reflexivity.
Qed.

(** Decoding the bytes of a valid rune gives it back, whatever follows. *)
Lemma DecodeRune_encodeRune (r : Z) (rest : gostring) :
  utf8.ValidRune r = true ->
  strings.DecodeRune (utf8.encodeRune r ++ rest) = (r, length (utf8.encodeRune r)).
Proof.
  intros Hv. apply ValidRune_spec in Hv.
  destruct (Z_le_gt_dec r 0x7F) as [H1|H1].
  { rewrite encodeRune_1 by lia. cbn [app length strings.DecodeRune].
    assert (utf8.first (z2b r) = utf8.ASCII) as ->.
    { apply first_ascii. rewrite b2z_z2b; lia. }
    rewrite b2z_z2b by lia. reflexivity. }
  destruct (Z_le_gt_dec r 0x7FF) as [H2|H2].
  { rewrite encodeRune_2 by lia. cbn [app length strings.DecodeRune].
    assert (0 <= r / 64 < 32 /\ 0 <= r mod 64 < 64 /\ r = (r / 64) * 64 + r mod 64 /\ 2 <= r / 64)
      as (Ha & Hb & Hc & Hd) by (Z.div_mod_to_equations; lia).
    rewrite first_2 by (rewrite b2z_z2b; lia).
    unfold utf8.within. rewrite !b2z_z2b by lia. zif. cbn [Nat.leb].
    rewrite rune2_arith, !b2z_z2b by lia.
    f_equal. Z.div_mod_to_equations. lia. }
  destruct (Z_le_gt_dec r 0xFFFF) as [H3|H3].
  { rewrite encodeRune_3 by lia. cbn [app length strings.DecodeRune].
    assert (0 <= r / 4096 < 16 /\ 0 <= (r / 64) mod 64 < 64 /\ 0 <= r mod 64 < 64 /\
            r = (r / 4096) * 4096 + ((r / 64) mod 64) * 64 + r mod 64)
      as (Ha & Hb & Hc & Hd) by (Z.div_mod_to_equations; lia).
    rewrite first_3 by (rewrite b2z_z2b; lia).
    unfold utf8.within, utf8.locb, utf8.hicb. rewrite !b2z_z2b by lia.
    destruct (Z.eqb_spec (224 + r / 4096) 224), (Z.eqb_spec (224 + r / 4096) 237);
      try lia; zif; cbn [Nat.leb]; rewrite rune3_arith, !b2z_z2b by lia;
      f_equal; Z.div_mod_to_equations; lia. }
  { rewrite encodeRune_4 by lia. cbn [app length strings.DecodeRune].
    assert (0 <= r / 262144 < 5 /\ 0 <= (r / 4096) mod 64 < 64 /\
            0 <= (r / 64) mod 64 < 64 /\ 0 <= r mod 64 < 64 /\
            r = (r / 262144) * 262144 + ((r / 4096) mod 64) * 4096
                + ((r / 64) mod 64) * 64 + r mod 64)
      as (Ha & Hb & Hc & Hd & He) by (Z.div_mod_to_equations; lia).
    rewrite first_4 by (rewrite b2z_z2b; lia).
    unfold utf8.within, utf8.locb, utf8.hicb. rewrite !b2z_z2b by lia.
    destruct (Z.eqb_spec (240 + r / 262144) 240), (Z.eqb_spec (240 + r / 262144) 244);
      try lia; zif; cbn [Nat.leb]; rewrite rune4_arith, !b2z_z2b by lia;
      f_equal; Z.div_mod_to_equations; lia. }
Qed.


Lemma encodeRune_norm (r : Z) : utf8.encodeRune r = utf8.encodeRune (normRune r).
Proof.
  unfold normRune. destruct (utf8.ValidRune r) eqn:E; [reflexivity|].
  now rewrite encodeRune_invalid.
Qed.

Lemma normRune_valid (r : Z) : utf8.ValidRune (normRune r) = true.
Proof. unfold normRune. destruct (utf8.ValidRune r) eqn:E; [exact E | reflexivity]. Qed.

Lemma runes_encodeRune_app (r : Z) (rest : gostring) :
  utf8.runes (utf8.encodeRune r ++ rest) = normRune r :: utf8.runes rest.
Proof.
  rewrite (encodeRune_norm r).
  pose proof (DecodeRune_encodeRune (normRune r) rest (normRune_valid r)) as D.
  destruct (utf8.encodeRune (normRune r)) as [|b t] eqn:E.
  { now apply encodeRune_nonempty in E. }
  change ((b :: t) ++ rest) with (b :: (t ++ rest)) in *.
  rewrite runes_step, D. cbn [fst snd].
  change (b :: t ++ rest) with ((b :: t) ++ rest).
  rewrite skipn_app, skipn_all, Nat.sub_diag. reflexivity.
Qed.

Lemma runes_encode_app (rs : list Z) (rest : gostring) :
  utf8.runes (utf8.encode rs ++ rest) = map normRune rs ++ utf8.runes rest.
Proof.
  induction rs as [|r rs IH]; [reflexivity|].
  unfold utf8.encode in *. cbn [flat_map map].
  rewrite <- app_assoc, runes_encodeRune_app, IH. reflexivity.
Qed.

Lemma map_normRune_valid (rs : list Z) :
  Forall (fun r => utf8.ValidRune r = true) rs -> map normRune rs = rs.
Proof.
  induction 1 as [|r rs Hr _ IH]; [reflexivity|].
  cbn [map]. rewrite IH. unfold normRune. now rewrite Hr.
Qed.

(** A string is read back rune by rune once its runes are written out:
    [[]rune(string(rs) + rest)] for runes that came out of a string. *)
Lemma runes_encode_runes (s rest : gostring) (n : nat) :
  utf8.runes (utf8.encode (firstn n (utf8.runes s)) ++ rest)
  = firstn n (utf8.runes s) ++ utf8.runes rest.
Proof.
  rewrite runes_encode_app, map_normRune_valid; [reflexivity|].
  apply Forall_forall. intros r Hr. apply In_firstn in Hr.
  pose proof (runes_valid s) as V. rewrite Forall_forall in V. now apply V.
Qed.

Lemma runes_empty (s : gostring) : utf8.runes s = [] -> s = [].
Proof.
  destruct s as [|b t]; [reflexivity|]. rewrite runes_step. discriminate.
Qed.

Lemma RuneCount_nonneg (s : gostring) : 0 <= utf8.RuneCountInString s.
Proof. unfold utf8.RuneCountInString. lia. Qed.

(** An ASCII byte starts a rune of its own wherever it stands: the runes
    before it do not depend on what follows it. *)
Lemma runes_app_ascii (a : gostring) (c : byte) (rest : gostring) :
  b2z c < 0x80 ->
  utf8.runes (a ++ c :: rest) = utf8.runes a ++ utf8.runes (c :: rest).
Proof.
  intros Hc.
  assert (forall lo hi, 0x80 <= lo -> utf8.within lo hi c = false) as Wc.
  { intros lo hi Hlo. unfold utf8.within. lia. }
  remember (length a) as n eqn:Hn. revert a Hn.
  induction n as [n IH] using lt_wf_ind. intros a Hn.
  assert (forall a', (length a' < length a)%nat ->
            utf8.runes (a' ++ c :: rest) = utf8.runes a' ++ utf8.runes (c :: rest)) as IH'.
  { intros a' Hlt. apply (IH (length a')); [lia | reflexivity]. }
  clear IH Hn n.
  destruct a as [|p0 t0]; [reflexivity|].
  cbn [app]. cbn [utf8.runes].
  destruct (utf8.first p0) as [| |sz lo hi] eqn:F.
  - rewrite IH' by (simpl; lia). reflexivity.
  - rewrite IH' by (simpl; lia). reflexivity.
  - apply first_seq in F. destruct F as (_ & Hlo & _ & _).
    destruct t0 as [|p1 t1].
    { cbn [app]. rewrite (Wc lo hi Hlo). reflexivity. }
    cbn [app].
    destruct (negb (utf8.within lo hi p1)).
    { change (p1 :: t1 ++ c :: rest) with ((p1 :: t1) ++ c :: rest).
      rewrite IH' by (simpl; lia). reflexivity. }
    destruct (sz <=? 2)%nat.
    { rewrite IH' by (simpl; lia). reflexivity. }
    destruct t1 as [|p2 t2].
    { cbn [app]. rewrite (Wc utf8.locb utf8.hicb) by (unfold utf8.locb; lia).
      cbn [negb]. change (p1 :: c :: rest) with ([p1] ++ c :: rest).
      rewrite IH' by (simpl; lia). reflexivity. }
    cbn [app].
    destruct (negb (utf8.within utf8.locb utf8.hicb p2)).
    { change (p1 :: p2 :: t2 ++ c :: rest) with ((p1 :: p2 :: t2) ++ c :: rest).
      rewrite IH' by (simpl; lia). reflexivity. }
    destruct (sz <=? 3)%nat.
    { rewrite IH' by (simpl; lia). reflexivity. }
    destruct t2 as [|p3 t3].
    { cbn [app]. rewrite (Wc utf8.locb utf8.hicb) by (unfold utf8.locb; lia).
      cbn [negb]. change (p1 :: p2 :: c :: rest) with ([p1; p2] ++ c :: rest).
      rewrite IH' by (simpl; lia). reflexivity. }
    cbn [app].
    destruct (negb (utf8.within utf8.locb utf8.hicb p3)).
    { change (p1 :: p2 :: p3 :: t3 ++ c :: rest)
        with ((p1 :: p2 :: p3 :: t3) ++ c :: rest).
      rewrite IH' by (simpl; lia). reflexivity. }
    rewrite IH' by (simpl; lia). reflexivity.
Qed.

Lemma runes_ellipsis : utf8.runes util.ellipsis = [0x2026].
Proof. reflexivity. Qed.

(** ** TruncateShorten *)

Lemma TruncateShorten_nonpositive (s : gostring) (n : Z) :
  n <= 0 -> util.TruncateShorten s n = [].
Proof. intros H. unfold util.TruncateShorten. zif. reflexivity. Qed.

Lemma TruncateShorten_short (s : gostring) (n : Z) :
  utf8.RuneCountInString s <= n -> util.TruncateShorten s n = s.
Proof.
  intros H. unfold util.TruncateShorten.
  destruct (Z.leb_spec n 0) as [Hn|Hn].
  - pose proof (RuneCount_nonneg s). unfold utf8.RuneCountInString in *.
    symmetry. apply runes_empty. apply length_zero_iff_nil. lia.
  - zif. reflexivity.
Qed.

Lemma TruncateShorten_long (s : gostring) (n : Z) :
  0 < n < utf8.RuneCountInString s ->
  util.TruncateShorten s n
  = utf8.encode (firstn (Z.to_nat (n - 1)) (utf8.runes s)) ++ util.ellipsis.
Proof. intros H. unfold util.TruncateShorten. zif. reflexivity. Qed.

Lemma TruncateShorten_long_runes (s : gostring) (n : Z) :
  0 < n < utf8.RuneCountInString s ->
  utf8.runes (util.TruncateShorten s n)
  = firstn (Z.to_nat (n - 1)) (utf8.runes s) ++ [0x2026].
Proof.
  intros H. rewrite TruncateShorten_long by exact H.
  now rewrite runes_encode_runes, runes_ellipsis.
Qed.

Lemma TruncateShorten_count (s : gostring) (n : Z) :
  0 <= n -> utf8.RuneCountInString (util.TruncateShorten s n) <= n.
Proof.
  intros Hn.
  destruct (Z_le_gt_dec n 0) as [H0|H0].
  { rewrite TruncateShorten_nonpositive by lia. cbn. lia. }
  destruct (Z_le_gt_dec (utf8.RuneCountInString s) n) as [H1|H1].
  { now rewrite TruncateShorten_short. }
  unfold utf8.RuneCountInString in *.
  rewrite TruncateShorten_long_runes by (unfold utf8.RuneCountInString; lia).
  rewrite length_app, length_firstn. cbn [length]. lia.
Qed.

(** ** Trimming *)


Lemma IsSpace_ascii (r : Z) :
  0 <= r < 0x80 -> unicode.IsSpace r = true -> (0x09 <= r <= 0x0D) \/ r = 0x20.
Proof. unfold unicode.IsSpace. intros H. zif. lia. Qed.

Lemma DecodeRune_space (s : gostring) :
  unicode.IsSpace (fst (strings.DecodeRune s)) = true ->
  (1 <= snd (strings.DecodeRune s))%nat /\
  Forall spaceByte (firstn (snd (strings.DecodeRune s)) s).
Proof.
  destruct s as [|p0 t0]; [discriminate|].
  cbn [strings.DecodeRune].
  destruct (utf8.first p0) as [| |sz lo hi] eqn:F.
  - cbn [fst snd]. intros Hs. apply first_ascii in F. pose proof (b2z_range p0).
    split; [lia|]. cbn [firstn]. constructor; [|constructor].
    apply IsSpace_ascii in Hs; [|lia]. unfold spaceByte. lia.
  - discriminate.
  - apply first_seq in F. destruct F as (R0 & Hlo & Hhi & _).
    assert (spaceByte p0) as S0 by (unfold spaceByte; lia).
    destruct t0 as [|p1 t1]; [discriminate|].
    destruct (utf8.within lo hi p1) eqn:W1; [|discriminate]. cbn [negb].
    apply within_spec in W1.
    assert (spaceByte p1) as S1 by (unfold spaceByte; lia).
    destruct (sz <=? 2)%nat.
    { cbn [fst snd firstn]. intros _. split; [lia|]. repeat (apply Forall_cons; [assumption|]); apply Forall_nil. }
    destruct t1 as [|p2 t2]; [discriminate|].
    destruct (utf8.within utf8.locb utf8.hicb p2) eqn:W2; [|discriminate]. cbn [negb].
    apply within_spec in W2. unfold utf8.locb in W2.
    assert (spaceByte p2) as S2 by (unfold spaceByte; lia).
    destruct (sz <=? 3)%nat.
    { cbn [fst snd firstn]. intros _. split; [lia|]. repeat (apply Forall_cons; [assumption|]); apply Forall_nil. }
    destruct t2 as [|p3 t3]; [discriminate|].
    destruct (utf8.within utf8.locb utf8.hicb p3) eqn:W3; [|discriminate]. cbn [negb].
    apply within_spec in W3. unfold utf8.locb in W3.
    assert (spaceByte p3) as S3 by (unfold spaceByte; lia).
    cbn [fst snd firstn]. intros _. split; [lia|]. repeat (apply Forall_cons; [assumption|]); apply Forall_nil.
Qed.

Lemma trimLeftSpace_split (s : gostring) :
  forall skip, Forall spaceByte (firstn skip s) ->
  exists p, s = p ++ strings.trimLeftSpace skip s /\ Forall spaceByte p.
Proof.
  induction s as [|b t IH]; intros skip Hskip.
  - exists []. split; [reflexivity | constructor].
  - cbn [strings.trimLeftSpace]. destruct skip as [|k].
    + destruct (strings.DecodeRune (b :: t)) as [r w] eqn:D.
      destruct (unicode.IsSpace r) eqn:Sp.
      * pose proof (DecodeRune_space (b :: t)) as Hd. rewrite D in Hd.
        cbn [fst snd] in Hd. destruct (Hd Sp) as [Hw Hf].
        destruct w as [|w']; [lia|]. cbn [firstn] in Hf.
        inversion Hf as [|? ? Hb Hf']; subst.
        replace (S w' - 1)%nat with w' by lia.
        destruct (IH w' Hf') as (p & Hp & Fp).
        exists (b :: p). split; [cbn [app]; now f_equal | now constructor].
      * exists []. split; [reflexivity | constructor].
    + cbn [firstn] in Hskip. inversion Hskip as [|? ? Hb Hf']; subst.
      destruct (IH k Hf') as (p & Hp & Fp).
      exists (b :: p). split; [cbn [app]; now f_equal | now constructor].
Qed.

Lemma TrimLeftSpace_split (s : gostring) :
  exists p, s = p ++ strings.TrimLeftSpace s /\ Forall spaceByte p.
Proof. apply trimLeftSpace_split. constructor. Qed.

Lemma DecodeLastRune_space (s : gostring) :
  unicode.IsSpace (fst (strings.DecodeLastRune s)) = true ->
  (1 <= snd (strings.DecodeLastRune s))%nat /\
  Forall spaceByte (firstn (snd (strings.DecodeLastRune s)) (rev s)).
Proof.
  unfold strings.DecodeLastRune.
  destruct (rev s) as [|b before] eqn:R; [discriminate|].
  destruct (Z.ltb_spec (b2z b) utf8.RuneSelf) as [Hb|Hb].
  - cbn [fst snd firstn]. intros Hs. pose proof (b2z_range b).
    unfold utf8.RuneSelf in Hb.
    split; [lia|]. constructor; [|constructor].
    apply IsSpace_ascii in Hs; [|lia]. unfold spaceByte. lia.
  - set (start := (length s - 1 - strings.lastStart 3 before)%nat).
    destruct (strings.DecodeRune (skipn start s)) as [r size] eqn:D.
    destruct (Nat.eqb_spec (start + size) (length s)) as [E|E]; [|discriminate].
    cbn [fst snd]. intros Hs.
    pose proof (DecodeRune_space (skipn start s)) as Hd. rewrite D in Hd.
    cbn [fst snd] in Hd. destruct (Hd Hs) as [Hw Hf].
    split; [exact Hw|].
    rewrite <- R, firstn_rev.
    replace (length s - size)%nat with start by lia.
    apply Forall_rev.
    rewrite firstn_all2 in Hf; [exact Hf|]. rewrite length_skipn. lia.
Qed.

Lemma trimRightSpace_split (rs : gostring) :
  forall skip, Forall spaceByte (firstn skip rs) ->
  exists p, rs = p ++ strings.trimRightSpace skip rs /\ Forall spaceByte p.
Proof.
  induction rs as [|b t IH]; intros skip Hskip.
  - exists []. split; [reflexivity | constructor].
  - cbn [strings.trimRightSpace]. destruct skip as [|k].
    + destruct (strings.DecodeLastRune (rev (b :: t))) as [r w] eqn:D.
      destruct (unicode.IsSpace r) eqn:Sp.
      * pose proof (DecodeLastRune_space (rev (b :: t))) as Hd. rewrite D in Hd.
        cbn [fst snd] in Hd. destruct (Hd Sp) as [Hw Hf].
        rewrite rev_involutive in Hf.
        destruct w as [|w']; [lia|]. cbn [firstn] in Hf.
        inversion Hf as [|? ? Hb Hf']; subst.
        replace (S w' - 1)%nat with w' by lia.
        destruct (IH w' Hf') as (p & Hp & Fp).
        exists (b :: p). split; [cbn [app]; now f_equal | now constructor].
      * exists []. split; [reflexivity | constructor].
    + cbn [firstn] in Hskip. inversion Hskip as [|? ? Hb Hf']; subst.
      destruct (IH k Hf') as (p & Hp & Fp).
      exists (b :: p). split; [cbn [app]; now f_equal | now constructor].
Qed.

Lemma TrimRightSpace_split (s : gostring) :
  exists q, s = strings.TrimRightSpace s ++ q /\ Forall spaceByte q.
Proof.
  unfold strings.TrimRightSpace.
  destruct (trimRightSpace_split (rev s) 0 ltac:(constructor)) as (p & Hp & Fp).
  exists (rev p). split; [|now apply Forall_rev].
  rewrite <- rev_app_distr, <- Hp. now rewrite rev_involutive.
Qed.

(** [TrimSpace] cuts a piece out of the string, and what it cuts off is made
    of bytes of white space. *)
Lemma TrimSpace_split (s : gostring) :
  exists p q, s = p ++ strings.TrimSpace s ++ q /\ Forall spaceByte p /\ Forall spaceByte q.
Proof.
  unfold strings.TrimSpace.
  destruct (TrimLeftSpace_split s) as (p & Hp & Fp).
  destruct (TrimRightSpace_split (strings.TrimLeftSpace s)) as (q & Hq & Fq).
  exists p, q. split; [|split; assumption].
  rewrite <- Hq. exact Hp.
Qed.

Lemma TrimSpace_keeps (s : gostring) (b : byte) :
  In b s -> ~ spaceByte b -> In b (strings.TrimSpace s).
Proof.
  destruct (TrimSpace_split s) as (p & q & E & Fp & Fq). intros H Hb.
  rewrite E in H. rewrite Forall_forall in Fp, Fq.
  apply in_app_or in H as [H|H]; [now apply Fp in H|].
  apply in_app_or in H as [H|H]; [exact H | now apply Fq in H].
Qed.

(** [TrimLeft], [TrimRight] for a cutset of bytes. *)
Lemma TrimLeft_split (s cutset : gostring) :
  exists p, s = p ++ strings.TrimLeft s cutset
            /\ Forall (fun b => strings.inCutset cutset b = true) p.
Proof.
  induction s as [|b t IH].
  - exists []. split; [reflexivity | constructor].
  - cbn [strings.TrimLeft]. destruct (strings.inCutset cutset b) eqn:C.
    + destruct IH as (p & Hp & Fp). exists (b :: p).
      split; [cbn [app]; now f_equal | now constructor].
    + exists []. split; [reflexivity | constructor].
Qed.

Lemma TrimLeft_head (s cutset : gostring) (b : byte) (t : gostring) :
  strings.TrimLeft s cutset = b :: t -> strings.inCutset cutset b = false.
Proof.
  induction s as [|c s IH]; [discriminate|].
  cbn [strings.TrimLeft]. destruct (strings.inCutset cutset c) eqn:C.
  - exact IH.
  - intros E. inversion E; subst. exact C.
Qed.

Lemma TrimRight_split (s cutset : gostring) :
  exists q, s = strings.TrimRight s cutset ++ q
            /\ Forall (fun b => strings.inCutset cutset b = true) q.
Proof.
  unfold strings.TrimRight.
  destruct (TrimLeft_split (rev s) cutset) as (p & Hp & Fp).
  exists (rev p). split; [|now apply Forall_rev].
  rewrite <- rev_app_distr, <- Hp. now rewrite rev_involutive.
Qed.

Lemma HasPrefix_nil (s : gostring) : strings.HasPrefix s [] = true.
Proof. destruct s; reflexivity. Qed.

(** What [TrimRight] returns does not end with a byte of the cutset. *)
Lemma TrimRight_no_suffix (s : gostring) (c : byte) :
  strings.HasSuffix (strings.TrimRight s [c]) [c] = false.
Proof.
  unfold strings.HasSuffix, strings.TrimRight. rewrite rev_involutive.
  destruct (strings.TrimLeft (rev s) [c]) as [|b t] eqn:E; [reflexivity|].
  apply TrimLeft_head in E. cbn in E |- *. rewrite orb_false_r in E.
  now rewrite E.
Qed.

Lemma runes_app_ascii_all (a q : gostring) :
  Forall (fun b => b2z b < 0x80) q ->
  utf8.runes (a ++ q) = utf8.runes a ++ utf8.runes q.
Proof.
  intros Hq. destruct Hq as [|c rest Hc _].
  - now rewrite !app_nil_r.
  - now apply runes_app_ascii.
Qed.

Lemma inCutset_single (c b : byte) : strings.inCutset [c] b = true -> b = c.
Proof.
  cbn. rewrite orb_false_r. apply byte_eqb_eq.
Qed.

Lemma TrimRight_ascii_count (s : gostring) (c : byte) :
  b2z c < 0x80 ->
  utf8.RuneCountInString (strings.TrimRight s [c]) <= utf8.RuneCountInString s.
Proof.
  intros Hc. destruct (TrimRight_split s [c]) as (q & E & Fq).
  unfold utf8.RuneCountInString. rewrite E at 2.
  rewrite runes_app_ascii_all, length_app; [lia|].
  eapply Forall_impl; [|exact Fq]. cbv beta. intros b Hb.
  apply inCutset_single in Hb. now subst.
Qed.

(** ** sanitizeDescription *)

Lemma sanitizeDescription_count (s : gostring) :
  utf8.RuneCountInString (commit.sanitizeDescription s) <= 72.
Proof.
  unfold commit.sanitizeDescription.
  set (c := util.CondenseSpaces (strings.TrimSpace s)).
  destruct (is_empty c); [cbn; lia|].
  etransitivity; [apply TrimRight_ascii_count; cbn; lia|].
  destruct (Z.gtb_spec (Z.of_nat (length (utf8.runes c))) 72) as [H|H].
  - apply TruncateShorten_count. lia.
  - exact H.
Qed.

Lemma sanitizeDescription_no_period (s : gostring) :
  strings.HasSuffix (commit.sanitizeDescription s) (str ".") = false.
Proof.
  unfold commit.sanitizeDescription.
  destruct (is_empty (util.CondenseSpaces (strings.TrimSpace s))); [reflexivity|].
  apply TrimRight_no_suffix.
Qed.

(** C9. For every string [s], [sanitizeDescription s] has at most 72 runes
    and does not end with the character '.'. *)
Theorem sanitizeDescription_bounded_no_trailing_period (s : gostring) :
  utf8.RuneCountInString (commit.sanitizeDescription s) <= 72
  /\ strings.HasSuffix (commit.sanitizeDescription s) (str ".") = false.
Proof.
  split; [apply sanitizeDescription_count | apply sanitizeDescription_no_period].
Qed.

(** C6, as the code has it. For every string [s] and integer [n]: a
    non-negative [n] bounds the rune count of [TruncateShorten s n]; [s]
    comes back unmodified when it has at most [n] runes; when [s] is longer
    and [n] is at least 1, the result is the first [n - 1] runes of [s]
    followed by one ellipsis, [n] runes in all; for [n <= 0] the result is
    empty, without an ellipsis. *)
Theorem TruncateShorten_spec (s : gostring) (n : Z) :
  (0 <= n -> utf8.RuneCountInString (util.TruncateShorten s n) <= n)
  /\ (utf8.RuneCountInString s <= n -> util.TruncateShorten s n = s)
  /\ (0 < n < utf8.RuneCountInString s ->
      utf8.runes (util.TruncateShorten s n)
      = firstn (Z.to_nat (n - 1)) (utf8.runes s) ++ [0x2026]
      /\ utf8.RuneCountInString (util.TruncateShorten s n) = n)
  /\ (n <= 0 -> util.TruncateShorten s n = []).
Proof.
  split; [apply TruncateShorten_count|].
  split; [apply TruncateShorten_short|].
  split; [|apply TruncateShorten_nonpositive].
  intros H. split; [now apply TruncateShorten_long_runes|].
  unfold utf8.RuneCountInString in *.
  rewrite TruncateShorten_long_runes by (unfold utf8.RuneCountInString; lia).
  rewrite length_app, length_firstn. cbn [length]. lia.
Qed.

(** The string "héllo wörld", of 11 runes: cut to 5 runes it is "héll…"; a
    bound of 11 or of 20 leaves it alone; a bound of 0 empties it. *)
Lemma TruncateShorten_spec_witness :
  (0 <= 5 /\ utf8.RuneCountInString (util.TruncateShorten (str "héllo wörld") 5) <= 5)
  /\ (utf8.RuneCountInString (str "héllo wörld") <= 20
      /\ util.TruncateShorten (str "héllo wörld") 20 = str "héllo wörld")
  /\ (0 < 5 < utf8.RuneCountInString (str "héllo wörld")
      /\ utf8.runes (util.TruncateShorten (str "héllo wörld") 5)
         = firstn (Z.to_nat (5 - 1)) (utf8.runes (str "héllo wörld")) ++ [0x2026])
  /\ (0 <= 0 /\ util.TruncateShorten (str "héllo wörld") 0 = []).
Proof.
  assert (utf8.RuneCountInString (str "héllo wörld") = 11) as C
      by (vm_compute; reflexivity).
  destruct (TruncateShorten_spec (str "héllo wörld") 5) as (T1 & _ & T3 & _).
  destruct (TruncateShorten_spec (str "héllo wörld") 20) as (_ & T2 & _).
  destruct (TruncateShorten_spec (str "héllo wörld") 0) as (_ & _ & _ & T4).
  split; [split; [lia | apply T1; lia]|].
  split; [split; [lia | apply T2; lia]|].
  split; [split; [lia | apply T3; lia]|].
  split; [lia | apply T4; lia].
Defined.

(** C6, as stated, fails for a negative bound: the result is empty, which is
    0 runes and more than [n]. *)
Lemma TruncateShorten_negative_bound_counterexample :
  ~ (utf8.RuneCountInString (util.TruncateShorten (str "a") (-1)) <= -1).
Proof. vm_compute. intros H. apply H. reflexivity. Qed.

(** ** The commit-type resolver *)

Lemma lookup_In (key : gostring) (m : list (gostring * gostring)) (v : gostring) :
  commit.lookup key m = Some v -> In (key, v) m.
Proof.
  induction m as [|[k w] m IH]; [discriminate|].
  cbn [commit.lookup]. destruct (bytes_eqb key k) eqn:E.
  - intros H. inversion H; subst. apply bytes_eqb_eq in E. subst. now left.
  - intros H. right. now apply IH.
Qed.

Lemma rangePrefix_Some (c : gostring) (entries : list (gostring * gostring)) (v : gostring) :
  commit.rangePrefix c entries = Some v ->
  exists k, In (k, v) entries /\ strings.HasPrefix c k = true.
Proof.
  induction entries as [|[k w] entries IH]; [discriminate|].
  cbn [commit.rangePrefix]. destruct (strings.HasPrefix c k) eqn:E.
  - intros H. inversion H; subst. exists k. split; [now left | exact E].
  - intros H. destruct (IH H) as (k' & Hin & Hp). exists k'. split; [now right | exact Hp].
Qed.

Lemma rangePrefix_None (c : gostring) (entries : list (gostring * gostring)) :
  commit.rangePrefix c entries = None ->
  forall k v, In (k, v) entries -> strings.HasPrefix c k = false.
Proof.
  induction entries as [|[k w] entries IH]; [intros _ k v []|].
  cbn [commit.rangePrefix]. destruct (strings.HasPrefix c k) eqn:E; [discriminate|].
  intros H k' v' [Hin|Hin].
  - inversion Hin; subst. exact E.
  - now apply (IH H k' v').
Qed.

Lemma allowed_values (k v : gostring) :
  In (k, v) commit.allowedCommitTypes -> In v commit.commitTypes.
Proof.
  assert (forallb (fun e => existsb (bytes_eqb (snd e)) commit.commitTypes)
                  commit.allowedCommitTypes = true) as H by (vm_compute; reflexivity).
  rewrite forallb_forall in H. intros Hin. specialize (H _ Hin). cbn [snd] in H.
  apply existsb_exists in H as (x & Hx & E). apply bytes_eqb_eq in E. now subst.
Qed.

Lemma chore_is_type : In (str "chore") commit.commitTypes.
Proof. cbn. tauto. Qed.

Section Resolver.

Variable table : Z -> Z.

(** The resolver answers with a member of the enumeration. *)
Lemma normaliseCommitType_in_types (order : list (gostring * gostring)) (t : gostring) :
  incl order commit.allowedCommitTypes ->
  In (commit.normaliseCommitType table order t) commit.commitTypes.
Proof.
  intros Hincl. unfold commit.normaliseCommitType.
  set (c := strings.Trim _ _).
  destruct (is_empty c); [apply chore_is_type|].
  destruct (commit.lookup c commit.allowedCommitTypes) as [v|] eqn:L.
  - apply lookup_In in L. eapply allowed_values; eauto.
  - destruct (commit.rangePrefix c order) as [v|] eqn:R; [|apply chore_is_type].
    apply rangePrefix_Some in R as (k & Hin & _).
    eapply allowed_values. apply Hincl. exact Hin.
Qed.

(** A member of the enumeration resolves to itself, whatever the order of
    the iteration: it is a key of the map. *)
Lemma normaliseCommitType_fixed (order : list (gostring * gostring)) (v : gostring) :
  In v commit.commitTypes -> commit.normaliseCommitType table order v = v.
Proof.
  intros H. cbn [commit.commitTypes In] in H.
  repeat (destruct H as [<-|H]; [reflexivity|]). destruct H.
Qed.

Lemma HasPrefix_comparable (c a b : gostring) :
  strings.HasPrefix c a = true -> strings.HasPrefix c b = true ->
  strings.HasPrefix a b = true \/ strings.HasPrefix b a = true.
Proof.
  revert a b. induction c as [|x c IH]; intros [|y a] [|z b]; cbn;
    try (intros; (now left) || (now right)); try discriminate.
  intros Ha Hb. apply andb_true_iff in Ha as [Ha1 Ha2].
  apply andb_true_iff in Hb as [Hb1 Hb2].
  apply byte_eqb_eq in Ha1, Hb1. subst.
  rewrite byte_eqb_refl. cbn. now apply IH.
Qed.

(** Two keys of the map that are prefixes of one token carry one value. *)
Lemma prefix_values_agree (c k1 v1 k2 v2 : gostring) :
  In (k1, v1) commit.allowedCommitTypes -> In (k2, v2) commit.allowedCommitTypes ->
  strings.HasPrefix c k1 = true -> strings.HasPrefix c k2 = true -> v1 = v2.
Proof.
  intros H1 H2 P1 P2.
  assert (forallb (fun e1 =>
            forallb (fun e2 =>
              implb (strings.HasPrefix (fst e1) (fst e2) || strings.HasPrefix (fst e2) (fst e1))
                    (bytes_eqb (snd e1) (snd e2)))
              commit.allowedCommitTypes) commit.allowedCommitTypes = true) as T
    by (vm_compute; reflexivity).
  rewrite forallb_forall in T. specialize (T _ H1).
  rewrite forallb_forall in T. specialize (T _ H2). cbn [fst snd] in T.
  destruct (HasPrefix_comparable c k1 k2 P1 P2) as [E|E]; rewrite E in T;
    [| rewrite orb_true_r in T]; cbn in T; now apply bytes_eqb_eq in T.
Qed.

Lemma rangePrefix_order (c : gostring) (o1 o2 : list (gostring * gostring)) :
  Permutation o1 commit.allowedCommitTypes ->
  Permutation o2 commit.allowedCommitTypes ->
  commit.rangePrefix c o1 = commit.rangePrefix c o2.
Proof.
  intros P1 P2.
  assert (forall oa ob, Permutation oa commit.allowedCommitTypes ->
                        Permutation ob commit.allowedCommitTypes ->
                        forall v, commit.rangePrefix c oa = Some v ->
                                  commit.rangePrefix c ob = Some v) as One.
  { intros oa ob Pa Pb v Ra.
    apply rangePrefix_Some in Ra as (k & Hin & Hp).
    destruct (commit.rangePrefix c ob) as [w|] eqn:Rb.
    - apply rangePrefix_Some in Rb as (k' & Hin' & Hp').
      f_equal. eapply prefix_values_agree.
      + eapply Permutation_in; [exact Pb | exact Hin'].
      + eapply Permutation_in; [exact Pa | exact Hin].
      + exact Hp'.
      + exact Hp.
    - exfalso. pose proof (rangePrefix_None c ob Rb k v) as N.
      rewrite N in Hp; [discriminate|].
      eapply Permutation_in; [symmetry; exact Pb|].
      eapply Permutation_in; [exact Pa | exact Hin]. }
  destruct (commit.rangePrefix c o1) as [v|] eqn:R1.
  - symmetry. now apply (One o1 o2).
  - destruct (commit.rangePrefix c o2) as [w|] eqn:R2; [|reflexivity].
    apply (One o2 o1) in R2; [congruence | assumption | assumption].
Qed.

End Resolver.



(** C10. The resolver does not depend on the order in which the map is
    iterated: two iteration orders give the same commit type for every
    token; the token "f", for one, resolves to "chore" in every order. *)
Theorem normaliseCommitType_order_independent
        (table : Z -> Z) (o1 o2 : list (gostring * gostring)) (t : gostring) :
  Permutation o1 commit.allowedCommitTypes ->
  Permutation o2 commit.allowedCommitTypes ->
  commit.normaliseCommitType table o1 t = commit.normaliseCommitType table o2 t
  /\ commit.normaliseCommitType table o1 (str "f") = str "chore".
Proof.
  intros P1 P2. split.
  - unfold commit.normaliseCommitType.
    now rewrite (rangePrefix_order _ o1 o2 P1 P2).
  - unfold commit.normaliseCommitType.
    rewrite (rangePrefix_order _ o1 commit.allowedCommitTypes P1 (Permutation_refl _)).
    reflexivity.
Qed.

Lemma normaliseCommitType_order_independent_witness :
  Permutation (rev commit.allowedCommitTypes) commit.allowedCommitTypes
  /\ Permutation commit.allowedCommitTypes commit.allowedCommitTypes
  /\ commit.normaliseCommitType Examples.identityTable (rev commit.allowedCommitTypes)
                                (str "testsuite")
     = commit.normaliseCommitType Examples.identityTable commit.allowedCommitTypes
                                  (str "testsuite").
Proof.
  assert (Permutation (rev commit.allowedCommitTypes) commit.allowedCommitTypes) as P
    by (symmetry; apply Permutation_rev).
  split; [exact P|]. split; [reflexivity|].
  apply (normaliseCommitType_order_independent Examples.identityTable
           (rev commit.allowedCommitTypes) commit.allowedCommitTypes (str "testsuite") P).
  reflexivity.
Defined.

(** ** Searching *)

Lemma HasPrefix_spec (s p : gostring) :
  strings.HasPrefix s p = true <-> exists rest, s = p ++ rest.
Proof.
  revert s. induction p as [|x p IH]; intros s.
  - rewrite HasPrefix_nil. split; [intros _; now exists s | reflexivity].
  - destruct s as [|y s]; cbn [strings.HasPrefix].
    + split; [discriminate | intros (rest & E); discriminate].
    + rewrite andb_true_iff, byte_eqb_eq, IH. split.
      * intros (-> & rest & ->). now exists rest.
      * intros (rest & E). inversion E; subst. split; [reflexivity | now exists rest].
Qed.

Lemma Index_range (s sub : gostring) : -1 <= strings.Index s sub.
Proof.
  induction s as [|b t IH]; cbn [strings.Index].
  - destruct (strings.HasPrefix [] sub); lia.
  - destruct (strings.HasPrefix (b :: t) sub); [lia|].
    destruct (Z.ltb_spec (strings.Index t sub) 0); lia.
Qed.

(** [Contains] holds exactly of the strings that have the substring. *)
Lemma Contains_spec (s sub : gostring) :
  strings.Contains s sub = true <-> exists a b, s = a ++ sub ++ b.
Proof.
  unfold strings.Contains. rewrite Z.leb_le.
  induction s as [|c t IH]; cbn [strings.Index].
  - destruct (strings.HasPrefix [] sub) eqn:E.
    + apply HasPrefix_spec in E as (rest & E).
      split; [intros _; exists [], rest; exact E | lia].
    + split; [lia|]. intros (a & b & Eq).
      destruct a; [|discriminate]. cbn [app] in Eq.
      assert (strings.HasPrefix [] sub = true) as X by (apply HasPrefix_spec; now exists b).
      congruence.
  - destruct (strings.HasPrefix (c :: t) sub) eqn:E.
    + apply HasPrefix_spec in E as (rest & E).
      split; [intros _; exists [], rest; exact E | lia].
    + pose proof (Index_range t sub).
      destruct (Z.ltb_spec (strings.Index t sub) 0) as [Hneg|Hpos].
      * split; [lia|]. intros (a & b & Eq). destruct a as [|x a].
        -- cbn [app] in Eq.
           assert (strings.HasPrefix (c :: t) sub = true) as X
               by (apply HasPrefix_spec; now exists b).
           congruence.
        -- inversion Eq; subst.
           assert (0 <= strings.Index (a ++ sub ++ b) sub) as X
               by (apply IH; now exists a, b).
           lia.
      * split; [|lia]. intros _. destruct IH as [IH _].
        destruct (IH Hpos) as (a & b & ->). now exists (c :: a), b.
Qed.

(** ** detectCommitType *)

Lemma rangeKeywords_first (table : Z -> Z) (order : list (gostring * gostring))
      (lower : gostring) (kws pre post : list gostring) (k : gostring) :
  kws = pre ++ k :: post ->
  (forall k', In k' pre -> strings.Contains lower k' = false) ->
  strings.Contains lower k = true ->
  commit.rangeKeywords table order lower kws = commit.normaliseCommitType table order k.
Proof.
  intros -> Hpre Hk. induction pre as [|p pre IH]; cbn [app commit.rangeKeywords].
  - now rewrite Hk.
  - rewrite (Hpre p) by now left. apply IH. intros k' Hin. apply Hpre. now right.
Qed.

Lemma rangeKeywords_none (table : Z -> Z) (order : list (gostring * gostring))
      (lower : gostring) (kws : list gostring) :
  (forall k, In k kws -> strings.Contains lower k = false) ->
  commit.rangeKeywords table order lower kws = str "chore".
Proof.
  induction kws as [|k kws IH]; intros H; cbn [commit.rangeKeywords]; [reflexivity|].
  rewrite (H k) by now left. apply IH. intros k' Hin. apply H. now right.
Qed.

Lemma keywords_are_types (k : gostring) :
  In k commit.commitKeywords -> In k commit.commitTypes.
Proof.
  cbn [commit.commitKeywords commit.commitTypes In]. intuition.
Qed.

(** C8, as the code has it. The commit type of the fallback is the first
    keyword, in the order of the list fix, feat, perf, refactor, docs, test,
    build, ci, that occurs anywhere in the lower-cased text, wherever the
    other keywords occur; it is that keyword itself, its canonical form; and
    it is "chore" when no keyword occurs. *)
Theorem detectCommitType_first_listed_keyword
        (table : Z -> Z) (order : list (gostring * gostring)) (raw : gostring) :
  let lower := strings.ToLower table raw in
  commit.CommitType (commit.FallbackParts table order raw)
  = commit.detectCommitType table order raw
  /\ (forall pre k post,
      commit.commitKeywords = pre ++ k :: post ->
      (forall k', In k' pre -> ~ exists a b, lower = a ++ k' ++ b) ->
      (exists a b, lower = a ++ k ++ b) ->
      commit.detectCommitType table order raw = k
      /\ commit.normaliseCommitType table order k = k)
  /\ ((forall k, In k commit.commitKeywords -> ~ exists a b, lower = a ++ k ++ b) ->
      commit.detectCommitType table order raw = str "chore").
Proof.
  intros lower. split; [reflexivity|]. split.
  - intros pre k post E Hpre Hk.
    assert (commit.normaliseCommitType table order k = k) as N.
    { apply normaliseCommitType_fixed, keywords_are_types.
      rewrite E. apply in_or_app. right. now left. }
    split; [|exact N]. etransitivity; [|exact N].
    unfold commit.detectCommitType. fold lower.
    apply (rangeKeywords_first table order lower _ pre post k E).
    + intros k' Hin. specialize (Hpre k' Hin).
      destruct (strings.Contains lower k') eqn:C; [|reflexivity].
      apply Contains_spec in C. contradiction.
    + now apply Contains_spec.
  - intros H. unfold commit.detectCommitType. fold lower.
    apply rangeKeywords_none. intros k Hin. specialize (H k Hin).
    destruct (strings.Contains lower k) eqn:C; [|reflexivity].
    apply Contains_spec in C. contradiction.
Qed.

(** In "feat: fix typo" the keyword "feat" occurs first in the text, and
    "fix" is first in the list: the commit type is "fix". In "hello" no
    keyword occurs. *)
Lemma detectCommitType_first_listed_keyword_witness :
  commit.detectCommitType Examples.identityTable commit.allowedCommitTypes (str "feat: fix typo")
  = str "fix"
  /\ commit.detectCommitType Examples.identityTable commit.allowedCommitTypes (str "hello")
     = str "chore".
Proof.
  split.
  - destruct (detectCommitType_first_listed_keyword Examples.identityTable
                commit.allowedCommitTypes (str "feat: fix typo")) as (_ & F & _).
    apply (F [] (str "fix") (tl commit.commitKeywords)).
    + reflexivity.
    + intros k' [].
    + exists (str "feat: "), (str " typo"). reflexivity.
  - destruct (detectCommitType_first_listed_keyword Examples.identityTable
                commit.allowedCommitTypes (str "hello")) as (_ & _ & N).
    apply N. intros k Hk Hocc. apply Contains_spec in Hocc.
    cbn [commit.commitKeywords In] in Hk.
    repeat (destruct Hk as [<-|Hk]; [vm_compute in Hocc; discriminate|]).
    destruct Hk.
Defined.

(** C8, as stated, fails on "feat: fix typo": the keyword of the first
    occurrence in the text is "feat", the code answers "fix". *)
Lemma detectCommitType_first_occurrence_counterexample :
  Spec.detectCommitType Examples.identityTable commit.allowedCommitTypes (str "feat: fix typo")
  = str "feat"
  /\ commit.detectCommitType Examples.identityTable commit.allowedCommitTypes (str "feat: fix typo")
     = str "fix".
Proof. split; vm_compute; reflexivity. Qed.

(** ** Runs of bytes *)

Lemma takeWhile_dropWhile (f : byte -> bool) (s : gostring) :
  regexp.takeWhile f s ++ regexp.dropWhile f s = s.
Proof.
  induction s as [|b t IH]; [reflexivity|].
  cbn. destruct (f b); [cbn; now f_equal | reflexivity].
Qed.

Lemma takeWhile_all (f : byte -> bool) (s : gostring) :
  Forall (fun b => f b = true) (regexp.takeWhile f s).
Proof.
  induction s as [|b t IH]; [constructor|].
  cbn. destruct (f b) eqn:E; [now constructor | constructor].
Qed.

Lemma dropWhile_head (f : byte -> bool) (s : gostring) (b : byte) (t : gostring) :
  regexp.dropWhile f s = b :: t -> f b = false.
Proof.
  induction s as [|c s IH]; [discriminate|].
  cbn. destruct (f c) eqn:E; [exact IH|]. intros H. inversion H; subst. exact E.
Qed.

Lemma takeWhile_app (f : byte -> bool) (a rest : gostring) :
  Forall (fun b => f b = true) a ->
  (forall c t, rest = c :: t -> f c = false) ->
  regexp.takeWhile f (a ++ rest) = a /\ regexp.dropWhile f (a ++ rest) = rest.
Proof.
  intros Ha Hrest. induction Ha as [|b a Hb _ IH]; cbn [app].
  - destruct rest as [|c t]; [split; reflexivity|].
    cbn. rewrite (Hrest c t eq_refl). split; reflexivity.
  - cbn. rewrite Hb. destruct IH as [-> ->]. split; reflexivity.
Qed.

(** ** The ticket pattern *)

(** [findTicket] finds exactly the texts that start with letters, a hyphen
    and digits, and returns that start, all its digits included. *)
Lemma findTicket_spec (s m : gostring) :
  regexp.findTicket s = Some m <->
  exists letters digits rest,
    s = letters ++ x2d :: digits ++ rest
    /\ m = letters ++ x2d :: digits
    /\ letters <> [] /\ Forall (fun c => regexp.isLetter c = true) letters
    /\ digits <> [] /\ Forall (fun c => regexp.isDigit c = true) digits
    /\ (forall c t, rest = c :: t -> regexp.isDigit c = false).
Proof.
  split.
  - unfold regexp.findTicket. intros H.
    pose proof (takeWhile_dropWhile regexp.isLetter s) as E.
    pose proof (takeWhile_all regexp.isLetter s) as L.
    destruct (regexp.takeWhile regexp.isLetter s) as [|l ls] eqn:TL; [discriminate|].
    destruct (regexp.dropWhile regexp.isLetter s) as [|b r] eqn:DL; [discriminate|].
    destruct (Byte.eqb b x2d) eqn:Eb; [|discriminate].
    apply byte_eqb_eq in Eb. subst b.
    pose proof (takeWhile_dropWhile regexp.isDigit r) as E2.
    pose proof (takeWhile_all regexp.isDigit r) as D.
    destruct (regexp.takeWhile regexp.isDigit r) as [|d ds] eqn:TD; [discriminate|].
    inversion H; subst m. cbn [app].
    exists (l :: ls), (d :: ds), (regexp.dropWhile regexp.isDigit r).
    repeat split; try assumption; try discriminate.
    + rewrite <- E. now rewrite E2.
    + intros c t Hc. eapply dropWhile_head. exact Hc.
  - intros (letters & digits & rest & -> & -> & Hl & Fl & Hd & Fd & Hr).
    unfold regexp.findTicket.
    destruct (takeWhile_app regexp.isLetter letters (x2d :: digits ++ rest) Fl) as [-> ->].
    { intros c t E. inversion E; subst. reflexivity. }
    destruct letters as [|l ls]; [contradiction|].
    rewrite byte_eqb_refl.
    destruct (takeWhile_app regexp.isDigit digits rest Fd Hr) as [-> _].
    destruct digits as [|d ds]; [contradiction|]. reflexivity.
Qed.

Lemma findTicket_nonempty (s m : gostring) : regexp.findTicket s = Some m -> m <> [].
Proof.
  intros H. apply findTicket_spec in H as (l & d & r & _ & -> & Hl & _).
  destruct l; [contradiction | discriminate].
Qed.

(** ** The last slash *)

Lemma len_nonneg (s : gostring) : 0 <= len s.
Proof. unfold len. lia. Qed.

Lemma len_app (a b : gostring) : len (a ++ b) = len a + len b.
Proof. unfold len. rewrite length_app. lia. Qed.

Lemma len_cons (c : byte) (s : gostring) : len (c :: s) = len s + 1.
Proof. unfold len. cbn [length]. lia. Qed.

(** [LastIndex] for a separator of one byte: -1 when the byte does not
    occur, else the offset of its last occurrence. *)
Lemma LastIndex_single (s : gostring) (c : byte) :
  (~ In c s /\ strings.LastIndex s [c] = -1)
  \/ (exists pre post, s = pre ++ c :: post /\ ~ In c post
                       /\ strings.LastIndex s [c] = len pre).
Proof.
  induction s as [|b t IH]; cbn [strings.LastIndex].
  - left. split; [intros [] | reflexivity].
  - destruct IH as [(Hn & ->) | (pre & post & -> & Hpost & ->)].
    + replace (0 <=? -1) with false by reflexivity.
      cbn [strings.HasPrefix]. rewrite HasPrefix_nil, andb_true_r.
      destruct (Byte.eqb b c) eqn:E.
      * apply byte_eqb_eq in E. subst b. right. exists [], t.
        split; [reflexivity|]. split; [exact Hn | reflexivity].
      * apply byte_eqb_neq in E. left.
        split; [|reflexivity]. intros [H|H]; [congruence | contradiction].
    + pose proof (len_nonneg pre).
      replace (0 <=? len pre) with true by lia.
      right. exists (b :: pre), post.
      split; [reflexivity|]. split; [exact Hpost|]. rewrite len_cons. lia.
Qed.

(** The segment of a branch name that [extractTicket] looks at. *)
Lemma extractTicket_segment (branch : gostring) :
  let b := util.CondenseSpaces (strings.TrimSpace branch) in
  b <> [] ->
  exists segment,
    commit.extractTicket branch
    = match regexp.findTicket segment with Some ticket => ticket | None => segment end
    /\ segment <> []
    /\ ((~ In x2f b /\ segment = b)
        \/ (exists pre, b = pre ++ x2f :: segment /\ ~ In x2f segment)
        \/ (strings.HasSuffix b (str "/") = true /\ segment = b)).
Proof.
  intros b Hb. unfold commit.extractTicket. fold b. clearbody b.
  replace (is_empty b) with false by (symmetry; now apply is_empty_false).
  change (str "/") with [x2f].
  destruct (LastIndex_single b x2f) as [(Hn & ->) | (pre & post & E & Hpost & ->)].
  - exists b. cbn [Z.eqb negb andb]. split; [reflexivity|]. split; [exact Hb|].
    left. now split.
  - pose proof (len_nonneg pre). pose proof (len_nonneg post).
    replace (len b) with (len pre + (len post + 1))
      by (rewrite E, len_app, len_cons; lia).
    replace (negb (len pre =? -1)) with true by lia. cbn [andb].
    destruct post as [|p post'].
    + replace (len pre <? len pre + (len [] + 1) - 1) with false by (cbn; lia).
      exists b. split; [reflexivity|]. split; [exact Hb|].
      right. right. split; [|reflexivity].
      unfold strings.HasSuffix. rewrite E, rev_app_distr.
      cbn [rev app strings.HasPrefix].
      now rewrite byte_eqb_refl, HasPrefix_nil.
    + replace (len pre <? len pre + (len (p :: post') + 1) - 1) with true
        by (rewrite len_cons; pose proof (len_nonneg post'); lia).
      assert (strings.slice_from b (len pre + 1) = p :: post') as ->.
      { unfold strings.slice_from, len. rewrite E.
        replace (Z.to_nat (Z.of_nat (length pre) + 1)) with (length pre + 1)%nat by lia.
        rewrite skipn_app. rewrite skipn_all2 by lia.
        replace (length pre + 1 - length pre)%nat with 1%nat by lia. reflexivity. }
      exists (p :: post'). split; [reflexivity|]. split; [discriminate|].
      right. left. exists pre. now split.
Qed.

Lemma extractTicket_nonempty (branch : gostring) : commit.extractTicket branch <> [].
Proof.
  destruct (util.CondenseSpaces (strings.TrimSpace branch)) as [|c t] eqn:E.
  - unfold commit.extractTicket. rewrite E. discriminate.
  - destruct (extractTicket_segment branch) as (seg & -> & Hseg & _).
    { rewrite E. discriminate. }
    destruct (regexp.findTicket seg) as [m|] eqn:F; [|exact Hseg].
    eapply findTicket_nonempty. exact F.
Qed.

(** C5, as the code has it. "feature/TES-123-login-audit" gives "TES-123",
    "main" gives "main", the empty string gives "unknown". In general the
    branch name is trimmed and condensed first; an empty name gives
    "unknown"; what follows the last "/" is kept, unless that slash ends the
    name, and then the whole name is kept; of the segment kept, the ticket
    token at its front (letters, a hyphen, digits) is returned when there is
    one, the whole segment otherwise. *)
Theorem extractTicket_spec (branch : gostring) :
  let b := util.CondenseSpaces (strings.TrimSpace branch) in
  commit.extractTicket (str "feature/TES-123-login-audit") = str "TES-123"
  /\ commit.extractTicket (str "main") = str "main"
  /\ commit.extractTicket (str "") = str "unknown"
  /\ (b = [] -> commit.extractTicket branch = str "unknown")
  /\ (b <> [] ->
      exists segment,
        commit.extractTicket branch
        = match regexp.findTicket segment with Some ticket => ticket | None => segment end
        /\ segment <> []
        /\ ((~ In x2f b /\ segment = b)
            \/ (exists pre, b = pre ++ x2f :: segment /\ ~ In x2f segment)
            \/ (strings.HasSuffix b (str "/") = true /\ segment = b)))
  /\ (forall segment ticket,
        regexp.findTicket segment = Some ticket <->
        exists letters digits rest,
          segment = letters ++ x2d :: digits ++ rest
          /\ ticket = letters ++ x2d :: digits
          /\ letters <> [] /\ Forall (fun c => regexp.isLetter c = true) letters
          /\ digits <> [] /\ Forall (fun c => regexp.isDigit c = true) digits
          /\ (forall c t, rest = c :: t -> regexp.isDigit c = false)).
Proof.
  intros b.
  split; [reflexivity|]. split; [reflexivity|]. split; [reflexivity|].
  split; [|split].
  - intros E. unfold commit.extractTicket. fold b. now rewrite E.
  - apply extractTicket_segment.
  - apply findTicket_spec.
Qed.

(** The branch "team/feature/" ends with its last slash and is kept whole;
    a branch of white space is an empty name. *)
Lemma extractTicket_spec_witness :
  (util.CondenseSpaces (strings.TrimSpace (str "team/feature/")) <> []
   /\ exists segment,
       commit.extractTicket (str "team/feature/")
       = match regexp.findTicket segment with Some ticket => ticket | None => segment end
       /\ segment <> [])
  /\ (util.CondenseSpaces (strings.TrimSpace (str "   ")) = []
      /\ commit.extractTicket (str "   ") = str "unknown").
Proof.
  split.
  - assert (util.CondenseSpaces (strings.TrimSpace (str "team/feature/")) <> []) as H
        by (vm_compute; discriminate).
    split; [exact H|].
    destruct (extractTicket_spec (str "team/feature/")) as (_ & _ & _ & _ & S & _).
    destruct (S H) as (segment & E & N & _).
    exists segment. now split.
  - assert (util.CondenseSpaces (strings.TrimSpace (str "   ")) = []) as H
        by (vm_compute; reflexivity).
    split; [exact H|].
    destruct (extractTicket_spec (str "   ")) as (_ & _ & _ & U & _).
    exact (U H).
Defined.

(** C5, as stated, fails on a name that ends with a slash: stripping up to
    the last "/" leaves nothing, the code returns the whole name. *)
Lemma extractTicket_trailing_slash_counterexample :
  Spec.extractTicket (str "feature/") = str ""
  /\ commit.extractTicket (str "feature/") = str "feature/".
Proof. split; vm_compute; reflexivity. Qed.

(** ** BuildMessage *)

Lemma normaliseCommitType_nonempty (table : Z -> Z) (order : list (gostring * gostring))
      (t : gostring) :
  Permutation order commit.allowedCommitTypes ->
  commit.normaliseCommitType table order t <> [].
Proof.
  intros P.
  assert (In (commit.normaliseCommitType table order t) commit.commitTypes) as H.
  { apply normaliseCommitType_in_types. intros e He.
    eapply Permutation_in; [exact P | exact He]. }
  cbn [commit.commitTypes In] in H.
  repeat (destruct H as [<-|H]; [discriminate|]). destruct H.
Qed.

Lemma resolvedDescription_nonempty (parts : commit.Parts) :
  Spec.resolvedDescription parts <> [].
Proof.
  unfold Spec.resolvedDescription.
  destruct (commit.sanitizeDescription _) as [|c t]; [|discriminate].
  destruct (commit.sanitizeSummary _) as [|c t]; discriminate.
Qed.

Lemma BuildMessage_headline_eq (table : Z -> Z) (order : list (gostring * gostring))
      (branch : gostring) (parts : commit.Parts) :
  commit.Headline (commit.BuildMessage table order branch parts)
  = strings.TrimSpace
      (commit.extractTicket branch ++ str " "
       ++ (str "[" ++ commit.normaliseCommitType table order (commit.CommitType parts) ++ str "]")
       ++ str " " ++ Spec.resolvedDescription parts).
Proof.
  unfold commit.BuildMessage, Spec.resolvedDescription. cbn [commit.Headline strings.Join].
  destruct (is_empty (commit.sanitizeDescription (commit.Description parts)));
    reflexivity.
Qed.

(** C4. For every branch and every Parts, the headline of [BuildMessage] is
    the trimmed text "<ticket> [<commitType>] <description>", one space
    between the three tokens; the ticket, the commit type and the description
    are never empty, and neither is the headline. [BuildMessage] is a total
    function: it has no failure mode. *)
Theorem BuildMessage_headline (table : Z -> Z) (order : list (gostring * gostring))
        (branch : gostring) (parts : commit.Parts) :
  Permutation order commit.allowedCommitTypes ->
  let ticket := commit.extractTicket branch in
  let commitType := commit.normaliseCommitType table order (commit.CommitType parts) in
  let description := Spec.resolvedDescription parts in
  commit.Headline (commit.BuildMessage table order branch parts)
  = strings.TrimSpace
      (ticket ++ str " " ++ (str "[" ++ commitType ++ str "]") ++ str " " ++ description)
  /\ commit.Headline (commit.BuildMessage table order branch parts) <> []
  /\ ticket <> [] /\ commitType <> [] /\ description <> [].
Proof.
  intros P ticket commitType description.
  split; [apply BuildMessage_headline_eq|].
  split; [|split; [apply extractTicket_nonempty|
                   split; [now apply normaliseCommitType_nonempty|
                           apply resolvedDescription_nonempty]]].
  rewrite BuildMessage_headline_eq.
  assert (In x5b (strings.TrimSpace
                    (commit.extractTicket branch ++ str " "
                     ++ (str "[" ++ commit.normaliseCommitType table order
                                      (commit.CommitType parts) ++ str "]")
                     ++ str " " ++ Spec.resolvedDescription parts))) as H.
  { apply TrimSpace_keeps.
    - apply in_or_app. right. right. now left.
    - unfold spaceByte. cbn. lia. }
  intros E. rewrite E in H. destruct H.
Qed.

Lemma BuildMessage_headline_witness :
  Permutation commit.allowedCommitTypes commit.allowedCommitTypes
  /\ commit.Headline
       (commit.BuildMessage Examples.identityTable commit.allowedCommitTypes
          (str "feature/TES-123-login")
          (commit.mkParts (str "feat") (str "add login audit hook")
                          (str "logs auth events") (str "adds publisher")))
     = str "TES-123 [feat] add login audit hook".
Proof.
  split; [reflexivity|].
  destruct (BuildMessage_headline Examples.identityTable commit.allowedCommitTypes
              (str "feature/TES-123-login")
              (commit.mkParts (str "feat") (str "add login audit hook")
                              (str "logs auth events") (str "adds publisher")))
    as (E & _); [reflexivity|].
  rewrite E. vm_compute. reflexivity.
Defined.

(** ** ASCII bytes through the codec *)

(** Only an ASCII byte decodes to a rune below [RuneSelf]. *)
Lemma DecodeRune_ascii_inv (b : byte) (t : gostring) :
  fst (strings.DecodeRune (b :: t)) < 0x80 ->
  fst (strings.DecodeRune (b :: t)) = b2z b.
Proof.
  cbn [strings.DecodeRune].
  destruct (utf8.first b) as [| |sz lo hi] eqn:F; [reflexivity | cbn [negb fst]; unfold utf8.RuneError; lia |].
  apply first_seq in F.
  destruct t as [|p1 t1]; [cbn [negb fst]; unfold utf8.RuneError; lia|].
  destruct (utf8.within lo hi p1) eqn:W1; [|cbn [negb fst]; unfold utf8.RuneError; lia]. cbn [negb].
  apply within_spec in W1.
  destruct F as (R0 & Rlo & Rhi & [(-> & F) | [(-> & F) | (-> & F)]]).
  - cbn [Nat.leb fst]. rewrite rune2_arith. intros H. exfalso.
    revert H. Z.div_mod_to_equations. lia.
  - change (3 <=? 2)%nat with false. cbv iota.
    destruct t1 as [|p2 t2]; [cbn [negb fst]; unfold utf8.RuneError; lia|].
    destruct (utf8.within utf8.locb utf8.hicb p2) eqn:W2; [|cbn [negb fst]; unfold utf8.RuneError; lia].
    apply within_spec in W2. unfold utf8.locb, utf8.hicb in W2.
    cbn [negb Nat.leb fst]. rewrite rune3_arith. intros H. exfalso.
    revert H. Z.div_mod_to_equations. lia.
  - change (4 <=? 2)%nat with false. cbv iota.
    destruct t1 as [|p2 t2]; [cbn [negb fst]; unfold utf8.RuneError; lia|].
    destruct (utf8.within utf8.locb utf8.hicb p2) eqn:W2; [|cbn [negb fst]; unfold utf8.RuneError; lia].
    apply within_spec in W2. unfold utf8.locb, utf8.hicb in W2.
    cbn [negb]. change (4 <=? 3)%nat with false. cbv iota.
    destruct t2 as [|p3 t3]; [cbn [negb fst]; unfold utf8.RuneError; lia|].
    destruct (utf8.within utf8.locb utf8.hicb p3) eqn:W3; [|cbn [negb fst]; unfold utf8.RuneError; lia].
    apply within_spec in W3. unfold utf8.locb, utf8.hicb in W3.
    cbn [negb fst]. rewrite rune4_arith. intros H. exfalso.
    revert H. Z.div_mod_to_equations. lia.
Qed.

Lemma runes_In_ascii (s : gostring) (r : Z) :
  In r (utf8.runes s) -> r < 0x80 -> exists b, In b s /\ b2z b = r.
Proof.
  remember (length s) as n eqn:Hn. revert s Hn.
  induction n as [n IH] using lt_wf_ind. intros s Hn Hin Hr.
  destruct s as [|b t]; [destruct Hin|].
  rewrite runes_step in Hin. destruct Hin as [E|Hin].
  - exists b. split; [now left|]. subst r. symmetry. now apply DecodeRune_ascii_inv.
  - pose proof (DecodeRune_width b t) as [Hw1 Hw2].
    remember (snd (strings.DecodeRune (b :: t))) as w.
    destruct (IH (length (skipn w (b :: t)))) with (s := skipn w (b :: t))
      as (c & Hc & Ec); try reflexivity; try assumption.
    { subst n. rewrite length_skipn. cbn [length] in *. lia. }
    exists c. split; [|exact Ec]. eapply In_skipn. exact Hc.
Qed.

Lemma encodeRune_In_ascii (r : Z) (b : byte) :
  utf8.ValidRune r = true -> In b (utf8.encodeRune r) -> b2z b < 0x80 -> r = b2z b.
Proof.
  intros Hv Hin Hb. apply ValidRune_spec in Hv.
  destruct (Z_le_gt_dec r 0x7F) as [H1|H1].
  { rewrite encodeRune_1 in Hin by lia. destruct Hin as [<-|[]].
    rewrite b2z_z2b; lia. }
  exfalso.
  destruct (Z_le_gt_dec r 0x7FF) as [H2|H2].
  { rewrite encodeRune_2 in Hin by lia.
    cbn [In] in Hin. destruct Hin as [<-|[<-|[]]];
      rewrite b2z_z2b in Hb; Z.div_mod_to_equations; lia. }
  destruct (Z_le_gt_dec r 0xFFFF) as [H3|H3].
  { rewrite encodeRune_3 in Hin by lia.
    cbn [In] in Hin. destruct Hin as [<-|[<-|[<-|[]]]];
      rewrite b2z_z2b in Hb; Z.div_mod_to_equations; lia. }
  rewrite encodeRune_4 in Hin by lia.
  cbn [In] in Hin. destruct Hin as [<-|[<-|[<-|[<-|[]]]]];
    rewrite b2z_z2b in Hb; Z.div_mod_to_equations; lia.
Qed.

(** Truncation brings in no ASCII byte that the string did not have. *)
Lemma TruncateShorten_In_ascii (s : gostring) (n : Z) (b : byte) :
  In b (util.TruncateShorten s n) -> b2z b < 0x80 -> In b s.
Proof.
  unfold util.TruncateShorten.
  destruct (n <=? 0); [intros []|].
  destruct (utf8.RuneCountInString s <=? n); [tauto|].
  intros Hin Hb. apply in_app_or in Hin as [Hin|Hin].
  - unfold utf8.encode in Hin. apply in_flat_map in Hin as (r & Hr & Hin).
    apply In_firstn in Hr.
    pose proof (runes_valid s) as V. rewrite Forall_forall in V.
    pose proof (encodeRune_In_ascii r b (V r Hr) Hin Hb) as E.
    destruct (runes_In_ascii s r Hr ltac:(lia)) as (c & Hc & Ec).
    replace b with c; [exact Hc|]. apply b2z_inj. congruence.
  - exfalso. cbn in Hin. destruct Hin as [<-|[<-|[<-|[]]]]; cbn in Hb; lia.
Qed.

Lemma replaceSpaceRuns_In (inRun : bool) (s : gostring) (b : byte) :
  In b (regexp.replaceSpaceRuns inRun s) ->
  b = x20 \/ (In b s /\ regexp.perlSpace b = false).
Proof.
  revert inRun. induction s as [|c t IH]; intros inRun; [intros []|].
  cbn [regexp.replaceSpaceRuns]. destruct (regexp.perlSpace c) eqn:P.
  - destruct inRun.
    + intros H. destruct (IH _ H) as [E|[Hin Hp]]; [now left | right; split; [now right | exact Hp]].
    + intros [E|H]; [now left|].
      destruct (IH _ H) as [E|[Hin Hp]]; [now left | right; split; [now right | exact Hp]].
  - intros [E|H].
    + subst. right. split; [now left | exact P].
    + destruct (IH _ H) as [E|[Hin Hp]]; [now left | right; split; [now right | exact Hp]].
Qed.

Lemma CondenseSpaces_no_newline (s : gostring) : ~ In x0a (util.CondenseSpaces s).
Proof.
  intros H. apply replaceSpaceRuns_In in H as [E|[_ P]]; discriminate.
Qed.

(** ** Lines *)

Lemma sanitizeLine_count (line : gostring) :
  utf8.RuneCountInString (commit.sanitizeLine line) <= 300.
Proof.
  unfold commit.sanitizeLine.
  destruct (Z.gtb_spec (Z.of_nat (length (utf8.runes (util.CondenseSpaces line)))) 300).
  - apply TruncateShorten_count. lia.
  - assumption.
Qed.

Lemma sanitizeLine_no_newline (line : gostring) : ~ In x0a (commit.sanitizeLine line).
Proof.
  unfold commit.sanitizeLine. intros H.
  destruct (_ >? 300).
  - apply TruncateShorten_In_ascii in H; [|cbn; lia].
    now apply CondenseSpaces_no_newline in H.
  - now apply CondenseSpaces_no_newline in H.
Qed.

Lemma SplitByte_no_sep (line : gostring) (sep : byte) :
  ~ In sep line -> strings.SplitByte line sep = [line].
Proof.
  induction line as [|b t IH]; intros H; [reflexivity|].
  cbn. destruct (Byte.eqb b sep) eqn:E.
  - apply byte_eqb_eq in E. subst. exfalso. apply H. now left.
  - rewrite IH; [reflexivity|]. intros Hin. apply H. now right.
Qed.

Lemma SplitByte_app_sep (line rest : gostring) (sep : byte) :
  ~ In sep line ->
  strings.SplitByte (line ++ sep :: rest) sep = line :: strings.SplitByte rest sep.
Proof.
  induction line as [|b t IH]; intros H.
  - cbn. now rewrite byte_eqb_refl.
  - cbn. destruct (Byte.eqb b sep) eqn:E.
    + apply byte_eqb_eq in E. subst. exfalso. apply H. now left.
    + rewrite IH; [reflexivity|]. intros Hin. apply H. now right.
Qed.

(** Splitting what was joined gives the lines back. *)
Lemma SplitByte_Join (lines : list gostring) (sep : byte) :
  lines <> [] -> Forall (fun line => ~ In sep line) lines ->
  strings.SplitByte (strings.Join lines [sep]) sep = lines.
Proof.
  induction lines as [|l rest IH]; [contradiction|].
  intros _ F. inversion F as [|? ? Hl Hrest]; subst.
  destruct rest as [|l2 rest'].
  - cbn. now apply SplitByte_no_sep.
  - change (strings.Join (l :: l2 :: rest') [sep])
      with (l ++ sep :: strings.Join (l2 :: rest') [sep]).
    rewrite SplitByte_app_sep by exact Hl. f_equal.
    apply IH; [discriminate | exact Hrest].
Qed.

(** Every line of a sanitized body has at most 300 runes. *)
Lemma sanitizeBody_lines (body summary : gostring) :
  Forall (fun line => utf8.RuneCountInString line <= 300)
         (strings.SplitByte (commit.sanitizeBody body summary) x0a).
Proof.
  unfold commit.sanitizeBody.
  set (lines := util.TrimLines _).
  destruct lines as [|l rest] eqn:E.
  - cbn. constructor; [cbn; lia | constructor].
  - rewrite <- E. rewrite SplitByte_Join.
    + apply Forall_forall. intros x Hx. apply in_map_iff in Hx as (y & <- & _).
      apply sanitizeLine_count.
    + rewrite E. discriminate.
    + apply Forall_forall. intros x Hx. apply in_map_iff in Hx as (y & <- & _).
      apply sanitizeLine_no_newline.
Qed.

(** ** ParseParts *)

Lemma Index_first (pre post : gostring) (c : byte) :
  ~ In c pre -> strings.Index (pre ++ c :: post) [c] = len pre.
Proof.
  induction pre as [|b t IH]; intros H.
  - cbn. now rewrite byte_eqb_refl, HasPrefix_nil.
  - cbn [app strings.Index strings.HasPrefix].
    assert (Byte.eqb b c = false) as ->.
    { apply byte_eqb_neq. intros E. apply H. now left. }
    cbn [andb]. rewrite IH by (intros Hin; apply H; now right).
    pose proof (len_nonneg t). rewrite len_cons.
    replace (len t <? 0) with false by lia. reflexivity.
Qed.

Lemma LastIndex_last (pre post : gostring) (c : byte) :
  ~ In c post -> strings.LastIndex (pre ++ c :: post) [c] = len pre.
Proof.
  intros H. induction pre as [|b t IH].
  - cbn [app strings.LastIndex].
    destruct (LastIndex_single post c) as [(_ & ->) | (p & q & E & _ & _)].
    + replace (0 <=? -1) with false by reflexivity.
      cbn. now rewrite byte_eqb_refl, HasPrefix_nil.
    + exfalso. apply H. rewrite E. apply in_or_app. right. now left.
  - cbn [app strings.LastIndex]. rewrite IH.
    pose proof (len_nonneg t). rewrite len_cons.
    replace (0 <=? len t) with true by lia. reflexivity.
Qed.

Lemma slice_middle (pre mid post : gostring) (a b : byte) :
  strings.slice (pre ++ a :: mid ++ b :: post) (len pre) (len pre + 1 + len mid + 1)
  = a :: mid ++ [b].
Proof.
  unfold strings.slice, len.
  rewrite Nat2Z.id, skipn_app, skipn_all, Nat.sub_diag. cbn [skipn app].
  replace (Z.to_nat (Z.of_nat (length pre) + 1 + Z.of_nat (length mid) + 1
                     - Z.of_nat (length pre))) with (S (length mid + 1)) by lia.
  cbn [firstn]. f_equal.
  rewrite firstn_app. rewrite firstn_all2 by lia.
  replace (length mid + 1 - length mid)%nat with 1%nat by lia. reflexivity.
Qed.

(** C1, as the code has it. [ParseParts] does not look at the description:
    whenever the text from the first "{" to the last "}" of the trimmed
    response decodes, the normalised Parts are returned, an empty description
    included; its errors are the three of the code, the empty response, the
    missing JSON object and the error of the decoder. *)
Theorem ParseParts_outcomes
        (table : Z -> Z) (order : list (gostring * gostring))
        (Unmarshal : gostring -> option commit.Parts) (raw : gostring) :
  let trimmed := strings.TrimSpace raw in
  let start := strings.Index trimmed (str "{") in
  let end_ := strings.LastIndex trimmed (str "}") in
  (forall pre mid post p,
      trimmed = pre ++ x7b :: mid ++ x7d :: post ->
      ~ In x7b pre -> ~ In x7d post ->
      Unmarshal (x7b :: mid ++ [x7d]) = Some p ->
      commit.ParseParts table order Unmarshal raw
      = commit.Ok (commit.normaliseParts table order p))
  /\ (forall e,
        commit.ParseParts table order Unmarshal raw = commit.Err e ->
        (e = commit.ErrEmptyResponse /\ trimmed = [])
        \/ (e = commit.ErrMissingJSONObject /\ trimmed <> []
            /\ (start = -1 \/ end_ = -1 \/ start > end_))
        \/ (e = commit.ErrUnmarshal /\ trimmed <> []
            /\ Unmarshal (strings.slice trimmed start (end_ + 1)) = None)).
Proof.
  intros trimmed start end_. split.
  - intros pre mid post p E Hpre Hpost U.
    unfold commit.ParseParts. fold trimmed.
    change (str "{") with [x7b]. change (str "}") with [x7d].
    assert (strings.Index trimmed [x7b] = len pre) as ->
        by (rewrite E; now apply Index_first).
    assert (strings.LastIndex trimmed [x7d] = len pre + 1 + len mid) as ->.
    { rewrite E. change (pre ++ x7b :: mid ++ x7d :: post)
                   with (pre ++ (x7b :: mid) ++ x7d :: post).
      rewrite app_assoc, LastIndex_last by exact Hpost.
      rewrite len_app, len_cons. lia. }
    pose proof (len_nonneg pre). pose proof (len_nonneg mid).
    replace (is_empty trimmed) with false
      by (rewrite E; destruct pre; reflexivity).
    replace ((len pre =? -1) || (len pre + 1 + len mid =? -1)
             || (len pre >? len pre + 1 + len mid)) with false by lia.
    rewrite E, slice_middle, U. reflexivity.
  - intros e. unfold commit.ParseParts. fold trimmed. fold start. fold end_.
    destruct (is_empty trimmed) eqn:Em.
    { intros H. inversion H; subst. left. split; [reflexivity|].
      now apply is_empty_true. }
    apply is_empty_false in Em.
    destruct ((start =? -1) || (end_ =? -1) || (start >? end_)) eqn:C.
    { intros H. inversion H; subst. right. left.
      split; [reflexivity|]. split; [exact Em|]. lia. }
    destruct (Unmarshal (strings.slice trimmed start (end_ + 1))) as [p|] eqn:U;
      [discriminate|].
    intros H. inversion H; subst. right. right. now repeat split.
Qed.

(** An object without description, wrapped in prose, is accepted; an answer
    without braces is the error of the missing object. *)
Lemma ParseParts_outcomes_witness :
  commit.ParseParts Examples.identityTable commit.allowedCommitTypes commit.UnmarshalParts
                    (str "Sure: " ++ Examples.noDescriptionResponse ++ str " Done.")
  = commit.Ok (commit.mkParts (str "chore") [] (str "logs auth events")
                              (str "logs auth events"))
  /\ (commit.ParseParts Examples.identityTable commit.allowedCommitTypes
                        commit.UnmarshalParts (str "no object here")
      = commit.Err commit.ErrMissingJSONObject
      /\ strings.TrimSpace (str "no object here") <> []).
Proof.
  split.
  - destruct (ParseParts_outcomes Examples.identityTable commit.allowedCommitTypes
                commit.UnmarshalParts
                (str "Sure: " ++ Examples.noDescriptionResponse ++ str " Done.")) as [A _].
    rewrite (A (str "Sure: ")
               (Examples.member (str "summary") (str "logs auth events"))
               (str " Done.")
               (commit.mkParts [] [] (str "logs auth events") [])).
    + vm_compute. reflexivity.
    + vm_compute. reflexivity.
    + vm_compute. intuition discriminate.
    + vm_compute. intuition discriminate.
    + vm_compute. reflexivity.
  - assert (commit.ParseParts Examples.identityTable commit.allowedCommitTypes
              commit.UnmarshalParts (str "no object here")
            = commit.Err commit.ErrMissingJSONObject) as E by (vm_compute; reflexivity).
    split; [exact E|].
    destruct (ParseParts_outcomes Examples.identityTable commit.allowedCommitTypes
                commit.UnmarshalParts (str "no object here")) as [_ B].
    destruct (B _ E) as [(D & _) | [(_ & N & _) | (D & _)]];
      [discriminate D | exact N | discriminate D].
Defined.

(** C1, as stated, fails on [{"summary":"logs auth events"}]: the normalised
    description is empty and Parts are returned, not an error. *)
Lemma ParseParts_missing_description_counterexample :
  exists parts,
    commit.ParseParts Examples.identityTable commit.allowedCommitTypes commit.UnmarshalParts
                      Examples.noDescriptionResponse = commit.Ok parts
    /\ commit.Description parts = [].
Proof.
  eexists. split; vm_compute; reflexivity.
Qed.

(** C2, as the code has it. For every response that [ParseParts] accepts,
    every line of the body returned has at most 300 runes; the body as a
    whole is not capped. *)
Theorem ParseParts_body_lines
        (table : Z -> Z) (order : list (gostring * gostring))
        (Unmarshal : gostring -> option commit.Parts) (raw : gostring)
        (parts : commit.Parts) :
  commit.ParseParts table order Unmarshal raw = commit.Ok parts ->
  Forall (fun line => utf8.RuneCountInString line <= 300)
         (strings.SplitByte (commit.Body parts) x0a).
Proof.
  unfold commit.ParseParts.
  destruct (is_empty _); [discriminate|].
  destruct (_ || _); [discriminate|].
  destruct (Unmarshal _) as [p|]; [|discriminate].
  intros H. inversion H; subst. cbn [commit.normaliseParts commit.Body].
  apply sanitizeBody_lines.
Qed.

Lemma ParseParts_body_lines_witness :
  Forall (fun line => utf8.RuneCountInString line <= 300)
         (strings.SplitByte (repeat x61 200 ++ x0a :: repeat x62 200) x0a).
Proof.
  apply (ParseParts_body_lines Examples.identityTable commit.allowedCommitTypes
           commit.UnmarshalParts Examples.twoLineBodyResponse
           (commit.mkParts (str "chore") (str "add audit hook") []
                           (repeat x61 200 ++ x0a :: repeat x62 200))).
  vm_compute. reflexivity.
Defined.

(** C2, as stated, fails on a body of two lines of 200 letters: the response
    is accepted and the body returned has 401 runes. *)
Lemma ParseParts_body_total_counterexample :
  exists parts,
    commit.ParseParts Examples.identityTable commit.allowedCommitTypes commit.UnmarshalParts
                      Examples.twoLineBodyResponse = commit.Ok parts
    /\ utf8.RuneCountInString (commit.Body parts) = 401.
Proof.
  eexists. split; vm_compute; reflexivity.
Qed.

(** ** The streaming loop *)



Lemma bodyLines_line (line rest cur : gostring) :
  ~ In x0a line ->
  ollama.bodyLines (line ++ x0a :: rest) cur = (cur ++ line) :: ollama.bodyLines rest [].
Proof.
  revert cur. induction line as [|b t IH]; intros cur H.
  - cbn. now rewrite app_nil_r.
  - cbn [app ollama.bodyLines].
    assert (Byte.eqb b x0a = false) as ->.
    { apply byte_eqb_neq. intros E. apply H. now left. }
    rewrite IH by (intros Hin; apply H; now right).
    now rewrite <- app_assoc.
Qed.

(** A body made of lines is read back as those lines. *)
Lemma bodyLines_bodyOf (lines : list gostring) :
  Forall (fun line => ~ In x0a line) lines ->
  ollama.bodyLines (Spec.bodyOf lines) [] = lines.
Proof.
  induction 1 as [|line lines Hline _ IH]; [reflexivity|].
  unfold Spec.bodyOf in *. cbn [flat_map].
  rewrite <- app_assoc. cbn [app].
  rewrite bodyLines_line by exact Hline. cbn [app]. now rewrite IH.
Qed.





(** ** The test vectors of the specification, run on the model *)

(** The strict parse of the object of the specification, on the branch
    "feature/TES-123-login". *)
Example strict_parse_headline :
  match commit.ParseParts Examples.identityTable commit.allowedCommitTypes
          commit.UnmarshalParts
          (str "{" ++ Examples.member (str "commit_type") (str "feat") ++ str ","
               ++ Examples.member (str "description") (str "add login audit hook") ++ str ","
               ++ Examples.member (str "summary") (str "logs auth events") ++ str ","
               ++ Examples.member (str "body") (str "adds publisher") ++ str "}")
  with
  | commit.Ok parts =>
    commit.BuildMessage Examples.identityTable commit.allowedCommitTypes
                        (str "feature/TES-123-login") parts
    = commit.mkMessage (str "TES-123 [feat] add login audit hook") (str "adds publisher")
  | commit.Err _ => False
  end.
Proof. vm_compute. reflexivity. Qed.

(** An answer without braces, on the branch "main": the strict parse fails
    and the fallback gives a headline that starts with "main [". *)
Example fallback_headline :
  commit.ParseParts Examples.identityTable commit.allowedCommitTypes commit.UnmarshalParts
                    (str "Updated the README docs.")
  = commit.Err commit.ErrMissingJSONObject
  /\ commit.Headline
       (commit.BuildMessage Examples.identityTable commit.allowedCommitTypes (str "main")
          (commit.FallbackParts Examples.identityTable commit.allowedCommitTypes
                                (str "Updated the README docs.")))
     = str "main [docs] Updated the README docs".
Proof. split; vm_compute; reflexivity. Qed.

(** A body with blank lines and a line of 400 letters: the blank lines go,
    the long line becomes 299 letters and an ellipsis. *)
Example body_sanitation :
  commit.sanitizeBody
    (x0a :: x0a :: repeat x61 400 ++ [x0d; x0a; x0a; x20; x0a] ++ str "  second   line ")
    (str "summary")
  = repeat x61 299 ++ util.ellipsis ++ [x0a] ++ str "second line".
Proof. vm_compute. reflexivity. Qed.

(** White space of Unicode is trimmed, a byte that is no UTF-8 is kept. *)
Example TrimSpace_unicode :
  strings.TrimSpace ([xc2; xa0; xe2; x80; x89; x20] ++ str "x y" ++ [xe3; x80; x80; x0b; xc2; x85])
  = str "x y"
  /\ strings.TrimSpace (str " x" ++ [xc2]) = str "x" ++ [xc2].
Proof. split; vm_compute; reflexivity. Qed.

(** Runes are counted, not bytes: "héllo wörld" has 11 runes in 13 bytes. *)
Example rune_count :
  utf8.RuneCountInString (str "héllo wörld") = 11 /\ len (str "héllo wörld") = 13.
Proof. split; vm_compute; reflexivity. Qed.

(** A member is matched to a field whatever the case of its key; an escape
    in a string is decoded; a value of the wrong type is an error. *)
Example json_decoding :
  commit.UnmarshalParts
    (str "{ " ++ Examples.member (str "Summary") (str "aé\tb") ++ str " , "
         ++ Examples.quoted (str "extra") ++ str ": [1, 2.5e3, null] }")
  = Some (commit.mkParts [] [] ([x61; xc3; xa9; x09; x62]) [])
  /\ commit.UnmarshalParts
       (str "{" ++ Examples.quoted (str "body") ++ str ":12}") = None.
Proof. split; vm_compute; reflexivity. Qed.

(** * More of the code *)

(** ** Runes and bytes *)

Lemma runes_length_le (s : gostring) : (length (utf8.runes s) <= length s)%nat.
Proof.
  remember (length s) as n eqn:Hn. revert s Hn.
  induction n as [n IH] using lt_wf_ind. intros s Hn.
  destruct s as [|b t]; [cbn; lia|].
  rewrite runes_step. cbn [length].
  pose proof (DecodeRune_width b t) as [Hw1 Hw2].
  remember (snd (strings.DecodeRune (b :: t))) as w.
  assert (length (utf8.runes (skipn w (b :: t))) <= length (skipn w (b :: t)))%nat as H.
  { eapply IH; [|reflexivity]. subst n. rewrite length_skipn. cbn [length] in *. lia. }
  rewrite length_skipn in H. cbn [length] in *. lia.
Qed.

(** ** CondenseSpaces *)

Lemma replaceSpaceRuns_condensed (s : gostring) :
  forall inRun, isCondensed inRun (regexp.replaceSpaceRuns inRun s) = true.
Proof.
  induction s as [|b t IH]; intros inRun; [reflexivity|].
  cbn [regexp.replaceSpaceRuns]. destruct (regexp.perlSpace b) eqn:P.
  - destruct inRun; [apply IH|].
    cbn [isCondensed]. replace (regexp.perlSpace x20) with true by reflexivity.
    rewrite IH. reflexivity.
  - cbn [isCondensed]. rewrite P. apply IH.
Qed.

Lemma replaceSpaceRuns_fixed (s : gostring) :
  forall a, isCondensed a s = true -> regexp.replaceSpaceRuns a s = s.
Proof.
  induction s as [|b t IH]; intros a H; [reflexivity|].
  cbn [isCondensed] in H. cbn [regexp.replaceSpaceRuns].
  destruct (regexp.perlSpace b) eqn:P.
  - apply andb_true_iff in H as [H1 H3]. apply andb_true_iff in H1 as [H1 H2].
    apply byte_eqb_eq in H1. subst b. destruct a; [discriminate|].
    now rewrite IH.
  - now rewrite IH.
Qed.

Lemma replaceSpaceRuns_length (s : gostring) :
  forall inRun, (length (regexp.replaceSpaceRuns inRun s) <= length s)%nat.
Proof.
  induction s as [|b t IH]; intros inRun; [reflexivity|].
  cbn [regexp.replaceSpaceRuns]. destruct (regexp.perlSpace b).
  - destruct inRun; cbn [length]; [specialize (IH true) | specialize (IH true)]; lia.
  - cbn [length]. specialize (IH false). lia.
Qed.

Lemma isCondensed_spaces (s : gostring) :
  forall a, isCondensed a s = true ->
  forall b, In b s -> regexp.perlSpace b = true -> b = x20.
Proof.
  induction s as [|c t IH]; intros a H b Hin Hb; [destruct Hin|].
  cbn [isCondensed] in H. destruct (regexp.perlSpace c) eqn:P.
  - apply andb_true_iff in H as [H1 H3]. apply andb_true_iff in H1 as [H1 H2].
    apply byte_eqb_eq in H1. destruct Hin as [<-|Hin]; [exact H1|].
    eapply IH; eauto.
  - destruct Hin as [<-|Hin]; [congruence|]. eapply IH; eauto.
Qed.

Lemma isCondensed_no_double (s : gostring) :
  forall a, isCondensed a s = true ->
  forall pre post, s <> pre ++ x20 :: x20 :: post.
Proof.
  induction s as [|c t IH]; intros a H pre post E.
  - destruct pre; discriminate.
  - cbn [isCondensed] in H. destruct pre as [|p pre].
    + cbn [app] in E. inversion E; subst.
      replace (regexp.perlSpace x20) with true in H by reflexivity.
      apply andb_true_iff in H as [_ H]. cbn [isCondensed] in H.
      replace (regexp.perlSpace x20) with true in H by reflexivity.
      cbn in H. discriminate.
    + cbn [app] in E. inversion E; subst.
      destruct (regexp.perlSpace p).
      * apply andb_true_iff in H as [_ H]. eapply IH; eauto.
      * eapply IH; eauto.
Qed.

(** X1. CondenseSpaces is idempotent and never lengthens a text; in what it
    returns, the only white space of the class [\s] is the space, and no two
    spaces stand side by side. *)
Theorem CondenseSpaces_normal_form (s : gostring) :
  util.CondenseSpaces (util.CondenseSpaces s) = util.CondenseSpaces s
  /\ len (util.CondenseSpaces s) <= len s
  /\ (forall b, In b (util.CondenseSpaces s) -> regexp.perlSpace b = true -> b = x20)
  /\ (forall pre post, util.CondenseSpaces s <> pre ++ x20 :: x20 :: post).
Proof.
  unfold util.CondenseSpaces.
  pose proof (replaceSpaceRuns_condensed s false) as C.
  split; [now apply replaceSpaceRuns_fixed|].
  split; [unfold len; pose proof (replaceSpaceRuns_length s false); lia|].
  split; [now apply (isCondensed_spaces _ false) | now apply (isCondensed_no_double _ false)].
Qed.

(** ** TrimSpace, step by step *)

Lemma IsSpace_RuneError : unicode.IsSpace utf8.RuneError = false.
Proof. reflexivity. Qed.

(** A rune that decoding found, other than the replacement for an error, is
    found again whatever is appended. *)
Lemma DecodeRune_app_ok (a rest : gostring) :
  fst (strings.DecodeRune a) <> utf8.RuneError ->
  strings.DecodeRune (a ++ rest) = strings.DecodeRune a.
Proof.
  destruct a as [|p0 t0]; [cbn; congruence|].
  cbn [app strings.DecodeRune].
  destruct (utf8.first p0) as [| |sz lo hi]; try reflexivity.
  destruct t0 as [|p1 t1]; [cbn; congruence|]. cbn [app].
  destruct (negb (utf8.within lo hi p1)); [reflexivity|].
  destruct (sz <=? 2)%nat; [reflexivity|].
  destruct t1 as [|p2 t2]; [cbn; congruence|]. cbn [app].
  destruct (negb (utf8.within utf8.locb utf8.hicb p2)); [reflexivity|].
  destruct (sz <=? 3)%nat; [reflexivity|].
  destruct t2 as [|p3 t3]; [cbn; congruence|]. cbn [app].
  reflexivity.
Qed.

Lemma startsNonSpace_nil : startsNonSpace [].
Proof. reflexivity. Qed.

Lemma endsNonSpace_nil : endsNonSpace [].
Proof. reflexivity. Qed.

Lemma startsNonSpace_prefix (a rest : gostring) :
  startsNonSpace (a ++ rest) -> a <> [] -> startsNonSpace a.
Proof.
  unfold startsNonSpace. intros H Ha.
  destruct (Z.eq_dec (fst (strings.DecodeRune a)) utf8.RuneError) as [E|E].
  - rewrite E. reflexivity.
  - now rewrite <- (DecodeRune_app_ok a rest E).
Qed.

Lemma trimLeftSpace_skip (s : gostring) :
  forall k, strings.trimLeftSpace k s = strings.trimLeftSpace 0 (skipn k s).
Proof.
  induction s as [|b t IH]; intros k.
  - destruct k; reflexivity.
  - destruct k as [|k]; [reflexivity|]. cbn [strings.trimLeftSpace skipn]. apply IH.
Qed.

Lemma trimRightSpace_skip (rs : gostring) :
  forall k, strings.trimRightSpace k rs = strings.trimRightSpace 0 (skipn k rs).
Proof.
  induction rs as [|b t IH]; intros k.
  - destruct k; reflexivity.
  - destruct k as [|k]; [reflexivity|]. cbn [strings.trimRightSpace skipn]. apply IH.
Qed.

(** One step of the trimming at the front. *)
Lemma TrimLeftSpace_step (s : gostring) :
  s <> [] ->
  (startsNonSpace s /\ strings.TrimLeftSpace s = s)
  \/ (unicode.IsSpace (fst (strings.DecodeRune s)) = true
      /\ (1 <= snd (strings.DecodeRune s) <= length s)%nat
      /\ strings.TrimLeftSpace s
         = strings.TrimLeftSpace (skipn (snd (strings.DecodeRune s)) s)).
Proof.
  destruct s as [|b t]; [congruence|]. intros _.
  unfold strings.TrimLeftSpace, startsNonSpace. cbn [strings.trimLeftSpace].
  pose proof (DecodeRune_width b t) as W.
  destruct (strings.DecodeRune (b :: t)) as [r w] eqn:D. cbn [fst snd] in *.
  destruct (unicode.IsSpace r) eqn:Sp.
  - right. split; [reflexivity|]. split; [exact W|].
    rewrite trimLeftSpace_skip. destruct w as [|w']; [lia|].
    cbn [skipn]. replace (S w' - 1)%nat with w' by lia. reflexivity.
  - left. split; reflexivity.
Qed.

(** One step of the trimming at the end. *)
Lemma DecodeLastRune_width (s : gostring) :
  s <> [] -> (1 <= snd (strings.DecodeLastRune s) <= length s)%nat.
Proof.
  intros Hs. unfold strings.DecodeLastRune.
  assert (1 <= length s)%nat as L by (destruct s; [congruence | cbn; lia]).
  destruct (rev s) as [|b before] eqn:R.
  { apply (f_equal (@length byte)) in R. rewrite length_rev in R. cbn in R. lia. }
  destruct (b2z b <? utf8.RuneSelf); [cbn; lia|].
  destruct (strings.DecodeRune _) as [r size].
  destruct (Nat.eqb_spec (length s - 1 - strings.lastStart 3 before + size) (length s));
    cbn [snd]; [|lia].
  split; [|lia].
  destruct size; [|lia]. exfalso.
  assert (strings.lastStart 3 before <= 4)%nat.
  { destruct before as [|x1 [|x2 [|x3 [|x4 r4]]]]; cbn;
      repeat match goal with |- context [if ?c then _ else _] => destruct c end; lia. }
  lia.
Qed.

Lemma DecodeLastRune_space_tail (s : gostring) :
  unicode.IsSpace (fst (strings.DecodeLastRune s)) = true ->
  strings.DecodeRune (skipn (length s - snd (strings.DecodeLastRune s)) s)
  = strings.DecodeLastRune s.
Proof.
  unfold strings.DecodeLastRune.
  destruct (rev s) as [|b before] eqn:R; [discriminate|].
  assert (s = rev before ++ [b]) as Es.
  { rewrite <- (rev_involutive s), R. reflexivity. }
  destruct (Z.ltb_spec (b2z b) utf8.RuneSelf) as [Hb|Hb].
  - cbn [fst snd]. intros _. rewrite Es, length_app. cbn [length].
    replace (length (rev before) + 1 - 1)%nat with (length (rev before)) by lia.
    rewrite skipn_app, skipn_all, Nat.sub_diag. cbn [skipn app strings.DecodeRune].
    replace (utf8.first b) with utf8.ASCII; [reflexivity|].
    symmetry. apply first_ascii. unfold utf8.RuneSelf in Hb. lia.
  - destruct (strings.DecodeRune _) as [r size] eqn:D.
    destruct (Nat.eqb_spec (length s - 1 - strings.lastStart 3 before + size) (length s))
      as [E|E]; [|discriminate].
    cbn [fst snd]. intros _.
    replace (length s - size)%nat with (length s - 1 - strings.lastStart 3 before)%nat by lia.
    exact D.
Qed.

Lemma TrimRightSpace_step (s : gostring) :
  s <> [] ->
  (endsNonSpace s /\ strings.TrimRightSpace s = s)
  \/ (unicode.IsSpace (fst (strings.DecodeLastRune s)) = true
      /\ (1 <= snd (strings.DecodeLastRune s) <= length s)%nat
      /\ strings.TrimRightSpace s
         = strings.TrimRightSpace
             (firstn (length s - snd (strings.DecodeLastRune s)) s)).
Proof.
  intros Hs. pose proof (DecodeLastRune_width s Hs) as W.
  unfold strings.TrimRightSpace, endsNonSpace.
  destruct (rev s) as [|b t] eqn:R.
  { apply (f_equal (@length byte)) in R. rewrite length_rev in R.
    destruct s; [congruence | discriminate]. }
  cbn [strings.trimRightSpace]. rewrite <- R, rev_involutive.
  destruct (strings.DecodeLastRune s) as [r w] eqn:D. cbn [fst snd] in *.
  destruct (unicode.IsSpace r) eqn:Sp.
  - right. split; [reflexivity|]. split; [exact W|].
    f_equal. rewrite trimRightSpace_skip.
    destruct w as [|w']; [lia|]. replace (S w' - 1)%nat with w' by lia.
    change (skipn w' t) with (skipn (S w') (b :: t)). rewrite <- R.
    rewrite skipn_rev. reflexivity.
  - left. split; [reflexivity|]. apply rev_involutive.
Qed.

Lemma TrimLeftSpace_starts (s : gostring) : startsNonSpace (strings.TrimLeftSpace s).
Proof.
  remember (length s) as n eqn:Hn. revert s Hn.
  induction n as [n IH] using lt_wf_ind. intros s Hn.
  destruct s as [|b t] eqn:Es; [reflexivity|]. rewrite <- Es in *.
  destruct (TrimLeftSpace_step s) as [[H ->] | (Sp & W & ->)]; [subst; discriminate | exact H |].
  eapply IH; [|reflexivity]. rewrite length_skipn. subst n. lia.
Qed.

Lemma TrimRightSpace_ends (s : gostring) : endsNonSpace (strings.TrimRightSpace s).
Proof.
  remember (length s) as n eqn:Hn. revert s Hn.
  induction n as [n IH] using lt_wf_ind. intros s Hn.
  destruct s as [|b t] eqn:Es; [reflexivity|]. rewrite <- Es in *.
  destruct (TrimRightSpace_step s) as [[H ->] | (Sp & W & ->)]; [subst; discriminate | exact H |].
  eapply IH; [|reflexivity]. rewrite length_firstn. subst n. lia.
Qed.

Lemma TrimLeftSpace_fixed (s : gostring) : startsNonSpace s -> strings.TrimLeftSpace s = s.
Proof.
  intros H. destruct s as [|b t] eqn:Es; [reflexivity|]. rewrite <- Es in *.
  destruct (TrimLeftSpace_step s) as [[_ E] | (Sp & _)]; [subst; discriminate | exact E |].
  unfold startsNonSpace in H. congruence.
Qed.

Lemma TrimRightSpace_fixed (s : gostring) : endsNonSpace s -> strings.TrimRightSpace s = s.
Proof.
  intros H. destruct s as [|b t] eqn:Es; [reflexivity|]. rewrite <- Es in *.
  destruct (TrimRightSpace_step s) as [[_ E] | (Sp & _)]; [subst; discriminate | exact E |].
  unfold endsNonSpace in H. congruence.
Qed.

(** Trimming at the end removes whole runes of white space: it leaves
    something of a text that starts with another rune. *)
Lemma TrimRightSpace_keeps_start (s : gostring) :
  s <> [] -> startsNonSpace s ->
  strings.TrimRightSpace s <> [] /\ startsNonSpace (strings.TrimRightSpace s).
Proof.
  remember (length s) as n eqn:Hn. revert s Hn.
  induction n as [n IH] using lt_wf_ind. intros s Hn Hs St.
  destruct (TrimRightSpace_step s Hs) as [[_ ->] | (Sp & W & ->)]; [now split|].
  pose proof (DecodeLastRune_space_tail s Sp) as T.
  set (w := snd (strings.DecodeLastRune s)) in *.
  assert (firstn (length s - w) s <> []) as Hne.
  { intros E. assert (length s - w = 0)%nat as Z0.
    { apply (f_equal (@length byte)) in E. rewrite length_firstn in E. cbn in E. lia. }
    rewrite Z0 in T. cbn [skipn] in T. unfold startsNonSpace in St.
    rewrite T in St. congruence. }
  eapply IH; [| reflexivity | exact Hne |].
  - rewrite length_firstn. subst n. lia.
  - apply (startsNonSpace_prefix _ (skipn (length s - w) s)); [|exact Hne].
    now rewrite firstn_skipn.
Qed.

Lemma TrimSpace_starts_ends (s : gostring) :
  startsNonSpace (strings.TrimSpace s) /\ endsNonSpace (strings.TrimSpace s).
Proof.
  unfold strings.TrimSpace. split; [|apply TrimRightSpace_ends].
  destruct (strings.TrimLeftSpace s) as [|b t] eqn:E; [reflexivity|].
  rewrite <- E. apply TrimRightSpace_keeps_start; [rewrite E; discriminate|].
  apply TrimLeftSpace_starts.
Qed.

Lemma TrimSpace_fixed (s : gostring) :
  startsNonSpace s -> endsNonSpace s -> strings.TrimSpace s = s.
Proof.
  intros H1 H2. unfold strings.TrimSpace.
  rewrite TrimLeftSpace_fixed by exact H1. now apply TrimRightSpace_fixed.
Qed.

Lemma TrimSpace_idempotent (s : gostring) :
  strings.TrimSpace (strings.TrimSpace s) = strings.TrimSpace s.
Proof.
  destruct (TrimSpace_starts_ends s). now apply TrimSpace_fixed.
Qed.

Lemma TrimSpace_nonempty (s : gostring) :
  s <> [] -> startsNonSpace s -> strings.TrimSpace s <> [].
Proof.
  intros Hs St. unfold strings.TrimSpace.
  rewrite TrimLeftSpace_fixed by exact St.
  now apply TrimRightSpace_keeps_start.
Qed.

(** ** TrimLines *)

Lemma TrimSpace_subset (s : gostring) (b : byte) :
  In b (strings.TrimSpace s) -> In b s.
Proof.
  destruct (TrimSpace_split s) as (p & q & E & _). intros H.
  rewrite E. apply in_or_app. right. apply in_or_app. now left.
Qed.

Lemma SplitByte_pieces (s : gostring) (sep : byte) :
  forall piece, In piece (strings.SplitByte s sep) -> ~ In sep piece.
Proof.
  induction s as [|b t IH]; intros piece H.
  - cbn in H. destruct H as [<-|[]]. intros [].
  - cbn [strings.SplitByte] in H. destruct (Byte.eqb b sep) eqn:E.
    + destruct H as [<-|H]; [intros [] | now apply IH].
    + apply byte_eqb_neq in E.
      destruct (strings.SplitByte t sep) as [|h r] eqn:S.
      * destruct H as [<-|[]]. intros [H|[]]. congruence.
      * destruct H as [<-|H].
        -- intros [H|H]; [congruence|]. apply (IH h); [now left | exact H].
        -- apply IH. now right.
Qed.

Lemma TrimLines_line (s line : gostring) :
  In line (util.TrimLines s) ->
  line <> [] /\ ~ In x0a line /\ strings.TrimSpace line = line.
Proof.
  unfold util.TrimLines. destruct (is_empty s); [intros []|].
  intros H. apply filter_In in H as [H Hne].
  apply in_map_iff in H as (piece & <- & Hp).
  split; [|split].
  - apply is_empty_false. now destruct (is_empty (strings.TrimSpace piece)).
  - intros Hin. apply TrimSpace_subset in Hin.
    now apply (SplitByte_pieces _ _ _ Hp).
  - apply TrimSpace_idempotent.
Qed.

Lemma filter_length_le {A : Type} (f : A -> bool) (l : list A) :
  (length (filter f l) <= length l)%nat.
Proof.
  induction l as [|x l IH]; cbn; [lia|]. destruct (f x); cbn; lia.
Qed.

Lemma SplitByte_length (s : gostring) (sep : byte) :
  length (strings.SplitByte s sep) = S (count_occ Byte.byte_eq_dec s sep).
Proof.
  induction s as [|b t IH]; [reflexivity|].
  cbn [strings.SplitByte count_occ].
  destruct (Byte.eqb b sep) eqn:E.
  - apply byte_eqb_eq in E. subst.
    destruct (Byte.byte_eq_dec sep sep); [|congruence]. cbn [length]. now rewrite IH.
  - apply byte_eqb_neq in E.
    destruct (Byte.byte_eq_dec b sep); [congruence|].
    destruct (strings.SplitByte t sep) as [|h r]; [discriminate|].
    cbn [length] in *. exact IH.
Qed.

Lemma ReplaceCRLF_step (b b1 : byte) (t1 : gostring) :
  strings.ReplaceCRLF (b :: b1 :: t1)
  = if Byte.eqb b x0d && Byte.eqb b1 x0a then x0a :: strings.ReplaceCRLF t1
    else b :: strings.ReplaceCRLF (b1 :: t1).
Proof. reflexivity. Qed.

Lemma ReplaceCRLF_count (s : gostring) :
  count_occ Byte.byte_eq_dec (strings.ReplaceCRLF s) x0a = count_occ Byte.byte_eq_dec s x0a.
Proof.
  remember (length s) as n eqn:Hn. revert s Hn.
  induction n as [n IH] using lt_wf_ind. intros s Hn.
  destruct s as [|b [|b1 t1]]; [reflexivity | reflexivity |].
  rewrite ReplaceCRLF_step.
  destruct (Byte.eqb b x0d && Byte.eqb b1 x0a) eqn:E.
  - apply andb_true_iff in E as [E1 E2]. apply byte_eqb_eq in E1, E2. subst b b1.
    rewrite (count_occ_cons_neq Byte.byte_eq_dec _ (x := x0d) (y := x0a)) by discriminate.
    rewrite !(fun l => count_occ_cons_eq Byte.byte_eq_dec l (x := x0a) (y := x0a) eq_refl).
    f_equal. eapply IH; [|reflexivity]. subst n. cbn. lia.
  - destruct (Byte.byte_eq_dec b x0a) as [->|N].
    + rewrite !(fun l => count_occ_cons_eq Byte.byte_eq_dec l (x := x0a) (y := x0a) eq_refl).
      f_equal. eapply IH; [|reflexivity]. subst n. cbn. lia.
    + rewrite !(fun l => count_occ_cons_neq Byte.byte_eq_dec l N).
      eapply IH; [|reflexivity]. subst n. cbn. lia.
Qed.

(** X2. TrimLines returns lines that are not empty, hold no newline and have
    no white space at either end; there are at most one more of them than
    the text has newlines, and none for the empty text. *)
Theorem TrimLines_lines (s : gostring) :
  (forall line, In line (util.TrimLines s) ->
                line <> [] /\ ~ In x0a line /\ strings.TrimSpace line = line)
  /\ (length (util.TrimLines s) <= S (count_occ Byte.byte_eq_dec s x0a))%nat
  /\ util.TrimLines [] = [].
Proof.
  split; [apply TrimLines_line|]. split; [|reflexivity].
  unfold util.TrimLines. destruct (is_empty s); [cbn; lia|].
  etransitivity; [apply filter_length_le|].
  rewrite length_map, SplitByte_length, ReplaceCRLF_count. lia.
Qed.

Lemma TrimLines_lines_witness :
  In (str "b c") (util.TrimLines (str "a" ++ [x0d; x0a; x0a; x20] ++ str "b c " ++ [x0a]))
  /\ strings.TrimSpace (str "b c") = str "b c".
Proof.
  assert (In (str "b c")
             (util.TrimLines (str "a" ++ [x0d; x0a; x0a; x20] ++ str "b c " ++ [x0a]))) as H
      by (vm_compute; tauto).
  split; [exact H|].
  destruct (TrimLines_lines (str "a" ++ [x0d; x0a; x0a; x20] ++ str "b c " ++ [x0a]))
    as (L & _).
  now destruct (L _ H) as (_ & _ & T).
Defined.

(** ** TrimTo *)

Lemma slice_0 (s : gostring) (n : Z) : strings.slice s 0 n = firstn (Z.to_nat n) s.
Proof. unfold strings.slice. cbn [Z.to_nat skipn]. now rewrite Z.sub_0_r. Qed.

Lemma len_truncatedMark : len util.truncatedMark = 20.
Proof. reflexivity. Qed.



(** ** The rune at the front of a text that was rewritten *)

Lemma within_high (lo hi : Z) (p : byte) :
  0x80 <= lo -> b2z p < 0x80 -> utf8.within lo hi p = false.
Proof. intros. unfold utf8.within. lia. Qed.

Lemma DecodeRune_ascii (b : byte) (t : gostring) :
  b2z b < 0x80 -> strings.DecodeRune (b :: t) = (b2z b, 1%nat).
Proof.
  intros H. unfold strings.DecodeRune. now rewrite (proj2 (first_ascii b) H).
Qed.

Lemma DecodeRune_highAgree (b : byte) (x y : gostring) :
  highAgree 3 x y -> strings.DecodeRune (b :: x) = strings.DecodeRune (b :: y).
Proof.
  intros H. unfold strings.DecodeRune.
  destruct (utf8.first b) as [| |sz lo hi] eqn:F; try reflexivity.
  apply first_seq in F as (_ & Hlo & _ & _).
  assert (0x80 <= utf8.locb) as Hcb by (unfold utf8.locb; lia).
  destruct x as [|a1 x1], y as [|b1 y1]; cbn [highAgree] in H.
  - reflexivity.
  - now rewrite (within_high lo hi b1).
  - now rewrite (within_high lo hi a1).
  - destruct H as [[-> H]|[Ha Hb]].
    2: { rewrite !within_high by assumption. reflexivity. }
    destruct (utf8.within lo hi b1); cbn [negb]; [|reflexivity].
    destruct (sz <=? 2)%nat; [reflexivity|].
    destruct x1 as [|a2 x2], y1 as [|b2 y2]; cbn [highAgree] in H.
    + reflexivity.
    + now rewrite (within_high utf8.locb utf8.hicb b2).
    + now rewrite (within_high utf8.locb utf8.hicb a2).
    + destruct H as [[-> H]|[Ha Hb]].
      2: { rewrite !within_high by assumption. reflexivity. }
      destruct (utf8.within utf8.locb utf8.hicb b2); cbn [negb]; [|reflexivity].
      destruct (sz <=? 3)%nat; [reflexivity|].
      destruct x2 as [|a3 x3], y2 as [|b3 y3]; cbn [highAgree] in H.
      * reflexivity.
      * now rewrite (within_high utf8.locb utf8.hicb b3).
      * now rewrite (within_high utf8.locb utf8.hicb a3).
      * destruct H as [[-> H]|[Ha Hb]]; [reflexivity|].
        rewrite !within_high by assumption. reflexivity.
Qed.

Lemma highAgree_replaceSpaceRuns (k : nat) :
  forall x, highAgree k (regexp.replaceSpaceRuns false x) x.
Proof.
  induction k as [|k IH]; [exact (fun _ => I)|].
  intros [|b t]; [exact I|].
  cbn [regexp.replaceSpaceRuns]. destruct (regexp.perlSpace b) eqn:P.
  - right. split; [reflexivity|]. unfold regexp.perlSpace in P. lia.
  - left. split; [reflexivity | apply IH].
Qed.

Lemma highAgree_ReplaceCRLF (k : nat) :
  forall x, highAgree k (strings.ReplaceCRLF x) x.
Proof.
  induction k as [|k IH]; [exact (fun _ => I)|].
  intros [|b [|b1 t1]]; [exact I| |].
  - left. split; [reflexivity|]. apply (IH []).
  - rewrite ReplaceCRLF_step.
    destruct (Byte.eqb b x0d && Byte.eqb b1 x0a) eqn:E.
    + apply andb_true_iff in E as [E _]. apply byte_eqb_eq in E. subst b.
      right. split; reflexivity.
    + left. split; [reflexivity | apply IH].
Qed.

Lemma highAgree_app_ascii (c : byte) (rest : gostring) :
  b2z c < 0x80 -> forall k a, highAgree k (a ++ c :: rest) a.
Proof.
  intros Hc. induction k as [|k IH]; [exact (fun _ => I)|].
  intros [|b t]; [exact Hc|].
  left. split; [reflexivity | apply IH].
Qed.

Lemma SplitByte_head (sep : byte) (s : gostring) :
  b2z sep < 0x80 ->
  exists h r, strings.SplitByte s sep = h :: r /\ forall k, highAgree k h s.
Proof.
  intros Hsep. induction s as [|b t (h & r & E & IH)].
  - exists [], []. split; [reflexivity|]. now intros [|k].
  - cbn [strings.SplitByte]. destruct (Byte.eqb b sep) eqn:B.
    + apply byte_eqb_eq in B. subst b.
      exists [], (strings.SplitByte t sep). split; [reflexivity|].
      intros [|k]; [exact I | exact Hsep].
    + rewrite E. exists (b :: h), r. split; [reflexivity|].
      intros [|k]; [exact I|]. left. split; [reflexivity | apply IH].
Qed.

Lemma startsNonSpace_head (b : byte) (t : gostring) :
  startsNonSpace (b :: t) -> ~ ((0x09 <= b2z b <= 0x0D) \/ b2z b = 0x20).
Proof.
  unfold startsNonSpace. intros H Hb.
  rewrite DecodeRune_ascii in H by lia. cbn [fst] in H.
  pose proof (b2z_range b).
  assert (unicode.IsSpace (b2z b) = true) as T.
  { unfold unicode.IsSpace.
    replace ((0 <=? b2z b) && (b2z b <=? 0xFF)) with true by lia. lia. }
  congruence.
Qed.

Lemma startsNonSpace_same_head (b : byte) (x y : gostring) :
  highAgree 3 x y -> startsNonSpace (b :: y) -> startsNonSpace (b :: x).
Proof.
  unfold startsNonSpace. intros H. now rewrite (DecodeRune_highAgree b x y H).
Qed.

Lemma CondenseSpaces_nonempty (s : gostring) : s <> [] -> util.CondenseSpaces s <> [].
Proof.
  destruct s as [|b t]; [congruence|]. intros _.
  unfold util.CondenseSpaces. cbn [regexp.replaceSpaceRuns].
  destruct (regexp.perlSpace b); discriminate.
Qed.

Lemma CondenseSpaces_starts (s : gostring) :
  startsNonSpace s -> startsNonSpace (util.CondenseSpaces s).
Proof.
  destruct s as [|b t]; [exact (fun H => H)|]. intros H.
  pose proof (startsNonSpace_head _ _ H) as Hb.
  unfold util.CondenseSpaces. cbn [regexp.replaceSpaceRuns].
  replace (regexp.perlSpace b) with false by (unfold regexp.perlSpace; lia).
  apply (startsNonSpace_same_head b _ t); [apply highAgree_replaceSpaceRuns | exact H].
Qed.

Lemma ReplaceCRLF_starts (s : gostring) :
  s <> [] -> startsNonSpace s ->
  strings.ReplaceCRLF s <> [] /\ startsNonSpace (strings.ReplaceCRLF s).
Proof.
  destruct s as [|b t]; [congruence|]. intros _ H.
  pose proof (startsNonSpace_head _ _ H) as Hb.
  assert (strings.ReplaceCRLF (b :: t) = b :: strings.ReplaceCRLF t) as ->.
  { destruct t as [|b1 t1]; [reflexivity|]. rewrite ReplaceCRLF_step.
    destruct (Byte.eqb b x0d) eqn:E; [|reflexivity].
    apply byte_eqb_eq in E. subst b. exfalso. apply Hb. left. cbn. lia. }
  split; [discriminate|].
  apply (startsNonSpace_same_head b _ t); [apply highAgree_ReplaceCRLF | exact H].
Qed.

Lemma SplitByte_starts (s : gostring) :
  s <> [] -> startsNonSpace s ->
  exists h r, strings.SplitByte s x0a = h :: r /\ h <> [] /\ startsNonSpace h.
Proof.
  destruct s as [|b t]; [congruence|]. intros _ H.
  pose proof (startsNonSpace_head _ _ H) as Hb.
  destruct (SplitByte_head x0a t) as (h & r & E & A); [cbn; lia|].
  cbn [strings.SplitByte]. destruct (Byte.eqb b x0a) eqn:B.
  { apply byte_eqb_eq in B. subst b. exfalso. apply Hb. left. cbn. lia. }
  rewrite E. exists (b :: h), r. split; [reflexivity|]. split; [discriminate|].
  apply (startsNonSpace_same_head b h t); [apply A | exact H].
Qed.

Lemma app_ascii_starts (a rest : gostring) (c : byte) :
  b2z c < 0x80 -> a <> [] -> startsNonSpace a -> startsNonSpace (a ++ c :: rest).
Proof.
  intros Hc Ha H. destruct a as [|b t]; [congruence|].
  cbn [app]. apply (startsNonSpace_same_head b _ t); [now apply highAgree_app_ascii | exact H].
Qed.

Lemma startsNonSpace_runes (s : gostring) :
  startsNonSpace s <-> (forall r rs, utf8.runes s = r :: rs -> unicode.IsSpace r = false).
Proof.
  destruct s as [|b t].
  - split; [intros _ r rs E; discriminate | intros _; apply startsNonSpace_nil].
  - rewrite runes_step. unfold startsNonSpace. split.
    + intros H r rs E. injection E as <- _. exact H.
    + intros H. eapply H. reflexivity.
Qed.

Lemma TruncateShorten_starts (s : gostring) (n : Z) :
  startsNonSpace s -> startsNonSpace (util.TruncateShorten s n).
Proof.
  intros H.
  destruct (Z_le_gt_dec n 0) as [N|N].
  { rewrite TruncateShorten_nonpositive by exact N. apply startsNonSpace_nil. }
  destruct (Z_le_gt_dec (utf8.RuneCountInString s) n) as [C|C].
  { now rewrite TruncateShorten_short. }
  apply startsNonSpace_runes. intros r rs E.
  rewrite TruncateShorten_long_runes in E by lia.
  destruct (firstn (Z.to_nat (n - 1)) (utf8.runes s)) as [|r0 l] eqn:F.
  - injection E as <- _. reflexivity.
  - injection E as <- _.
    destruct (utf8.runes s) as [|r1 l1] eqn:R.
    + now rewrite firstn_nil in F.
    + destruct (Z.to_nat (n - 1)); [discriminate|]. cbn [firstn] in F.
      injection F as <- _. apply (proj1 (startsNonSpace_runes s) H r1 l1 R).
Qed.

Lemma TruncateShorten_nonempty (s : gostring) (n : Z) :
  0 < n -> s <> [] -> util.TruncateShorten s n <> [].
Proof.
  intros N Hs.
  destruct (Z_le_gt_dec (utf8.RuneCountInString s) n) as [C|C].
  - now rewrite TruncateShorten_short.
  - rewrite TruncateShorten_long by lia. intros E.
    apply app_eq_nil in E as [_ E]. discriminate.
Qed.

Lemma TrimLines_starts (s : gostring) :
  s <> [] -> startsNonSpace s ->
  exists line rest, util.TrimLines s = line :: rest /\ line <> [] /\ startsNonSpace line.
Proof.
  intros Hs H. unfold util.TrimLines.
  replace (is_empty s) with false by (symmetry; now apply is_empty_false).
  destruct (ReplaceCRLF_starts s Hs H) as [Hr Sr].
  destruct (SplitByte_starts _ Hr Sr) as (h & r & -> & Hh & Sh).
  cbn [map filter].
  pose proof (TrimSpace_nonempty h Hh Sh) as Ht.
  replace (is_empty (strings.TrimSpace h)) with false by (symmetry; now apply is_empty_false).
  cbn [negb]. eexists _, _. split; [reflexivity|]. split; [exact Ht|].
  apply TrimSpace_starts_ends.
Qed.

Lemma sanitizeLine_starts (line : gostring) :
  line <> [] -> startsNonSpace line ->
  commit.sanitizeLine line <> [] /\ startsNonSpace (commit.sanitizeLine line).
Proof.
  intros Hl H. unfold commit.sanitizeLine.
  pose proof (CondenseSpaces_nonempty line Hl) as Hc.
  pose proof (CondenseSpaces_starts line H) as Sc.
  destruct (Z.of_nat (length (utf8.runes (util.CondenseSpaces line))) >? 300).
  - split; [apply TruncateShorten_nonempty; [lia | exact Hc] | now apply TruncateShorten_starts].
  - now split.
Qed.

Lemma Join_cons_starts (line : gostring) (rest : list gostring) :
  line <> [] -> startsNonSpace line ->
  strings.Join (line :: rest) [x0a] <> [] /\ startsNonSpace (strings.Join (line :: rest) [x0a]).
Proof.
  intros Hl H. destruct rest as [|l2 rest]; [now split|].
  change (strings.Join (line :: l2 :: rest) [x0a])
    with (line ++ x0a :: strings.Join (l2 :: rest) [x0a]).
  split.
  - intros E. apply app_eq_nil in E as [E _]. contradiction.
  - apply app_ascii_starts; [cbn; lia | exact Hl | exact H].
Qed.

Lemma sanitizeBody_text (body summary : gostring) :
  strings.TrimSpace body <> [] \/ (summary <> [] /\ startsNonSpace summary) ->
  commit.sanitizeBody body summary <> []
  /\ startsNonSpace (commit.sanitizeBody body summary).
Proof.
  intros H. unfold commit.sanitizeBody.
  set (text := if is_empty (strings.TrimSpace body) then summary else strings.TrimSpace body).
  assert (text <> [] /\ startsNonSpace text) as [Ht St].
  { unfold text. destruct (is_empty (strings.TrimSpace body)) eqn:E.
    - apply is_empty_true in E. destruct H as [H|H]; [contradiction | exact H].
    - apply is_empty_false in E. split; [exact E | apply TrimSpace_starts_ends]. }
  destruct (TrimLines_starts text Ht St) as (line & rest & -> & Hl & Sl).
  destruct (sanitizeLine_starts line Hl Sl) as [Hs Ss].
  cbn [map]. now apply Join_cons_starts.
Qed.

Lemma sanitizeBody_blank (body : gostring) :
  strings.TrimSpace body = [] -> commit.sanitizeBody body [] = [].
Proof. intros H. unfold commit.sanitizeBody. now rewrite H. Qed.

(** ** The sanitizers of internal/commit *)

Lemma replaceSpaceRuns_keeps (s : gostring) (b : byte) :
  forall a, In b s -> regexp.perlSpace b = false -> In b (regexp.replaceSpaceRuns a s).
Proof.
  induction s as [|c t IH]; intros a H P; [destruct H|].
  cbn [regexp.replaceSpaceRuns]. destruct H as [->|H].
  - rewrite P. now left.
  - destruct (regexp.perlSpace c); [destruct a|]; [| right | right]; now apply IH.
Qed.

Lemma perlSpace_ascii (b : byte) : regexp.perlSpace b = true -> b2z b < 0x80.
Proof. unfold regexp.perlSpace. lia. Qed.

Lemma perlSpace_spaceByte (b : byte) : ~ spaceByte b -> regexp.perlSpace b = false.
Proof. unfold spaceByte, regexp.perlSpace. lia. Qed.

Lemma CondenseSpaces_spaces (s : gostring) (b : byte) :
  In b (util.CondenseSpaces s) -> regexp.perlSpace b = true -> b = x20.
Proof.
  apply (isCondensed_spaces _ false). apply replaceSpaceRuns_condensed.
Qed.

Lemma TruncateShorten_spaces (s : gostring) (n : Z) :
  (forall b, In b s -> regexp.perlSpace b = true -> b = x20) ->
  forall b, In b (util.TruncateShorten s n) -> regexp.perlSpace b = true -> b = x20.
Proof.
  intros H b Hb P. apply H; [|exact P].
  apply (TruncateShorten_In_ascii s n b Hb). now apply perlSpace_ascii.
Qed.

Lemma sanitizeSummary_count (s : gostring) :
  utf8.RuneCountInString (commit.sanitizeSummary s) <= 100.
Proof.
  unfold commit.sanitizeSummary.
  destruct (is_empty (util.CondenseSpaces (strings.TrimSpace s))); [cbn; lia|].
  destruct (Z.of_nat (length (utf8.runes (util.CondenseSpaces (strings.TrimSpace s)))) >? 100)
    eqn:E.
  - apply TruncateShorten_count. lia.
  - unfold utf8.RuneCountInString. lia.
Qed.

Lemma sanitizeSummary_spaces (s : gostring) (b : byte) :
  In b (commit.sanitizeSummary s) -> regexp.perlSpace b = true -> b = x20.
Proof.
  unfold commit.sanitizeSummary.
  destruct (is_empty (util.CondenseSpaces (strings.TrimSpace s))); [intros []|].
  destruct (Z.of_nat (length (utf8.runes (util.CondenseSpaces (strings.TrimSpace s)))) >? 100).
  - apply TruncateShorten_spaces. apply CondenseSpaces_spaces.
  - apply CondenseSpaces_spaces.
Qed.

Lemma sanitizeSummary_starts (s : gostring) : startsNonSpace (commit.sanitizeSummary s).
Proof.
  unfold commit.sanitizeSummary.
  pose proof (CondenseSpaces_starts _ (proj1 (TrimSpace_starts_ends s))) as H.
  destruct (is_empty (util.CondenseSpaces (strings.TrimSpace s))); [apply startsNonSpace_nil|].
  destruct (Z.of_nat (length (utf8.runes (util.CondenseSpaces (strings.TrimSpace s)))) >? 100).
  - now apply TruncateShorten_starts.
  - exact H.
Qed.

Lemma sanitizeSummary_empty (s : gostring) :
  commit.sanitizeSummary s = [] <-> strings.TrimSpace s = [].
Proof.
  unfold commit.sanitizeSummary. split.
  - destruct (strings.TrimSpace s) as [|b t] eqn:T; [reflexivity|].
    assert (util.CondenseSpaces (b :: t) <> []) as N
        by (apply CondenseSpaces_nonempty; discriminate).
    replace (is_empty (util.CondenseSpaces (b :: t))) with false
      by (symmetry; now apply is_empty_false).
    destruct (Z.of_nat (length (utf8.runes (util.CondenseSpaces (b :: t)))) >? 100).
    + intros E. exfalso. revert E. apply TruncateShorten_nonempty; [lia | exact N].
    + intros E. contradiction.
  - intros ->. reflexivity.
Qed.

(** X4. The summary that sanitizeSummary returns has at most 100 runes, is
    one line in which white space of the class \s is single spaces only,
    does not start with white space, and is empty exactly when the text is
    blank. *)
Theorem sanitizeSummary_one_line (s : gostring) :
  utf8.RuneCountInString (commit.sanitizeSummary s) <= 100
  /\ (forall b, In b (commit.sanitizeSummary s) -> regexp.perlSpace b = true -> b = x20)
  /\ startsNonSpace (commit.sanitizeSummary s)
  /\ (commit.sanitizeSummary s = [] <-> strings.TrimSpace s = []).
Proof.
  split; [apply sanitizeSummary_count|].
  split; [apply sanitizeSummary_spaces|].
  split; [apply sanitizeSummary_starts | apply sanitizeSummary_empty].
Qed.

Lemma sanitizeDescription_prefix (s : gostring) :
  strings.TrimSpace s <> [] ->
  exists text q,
    text = commit.sanitizeDescription s ++ q
    /\ Forall (fun b => b = x2e) q
    /\ text <> [] /\ startsNonSpace text
    /\ (forall b, In b text -> regexp.perlSpace b = true -> b = x20)
    /\ (text = util.CondenseSpaces (strings.TrimSpace s)
        \/ exists head, text = head ++ util.ellipsis).
Proof.
  intros T. unfold commit.sanitizeDescription.
  pose proof (CondenseSpaces_nonempty _ T) as N.
  pose proof (CondenseSpaces_starts _ (proj1 (TrimSpace_starts_ends s))) as S.
  replace (is_empty (util.CondenseSpaces (strings.TrimSpace s))) with false
    by (symmetry; now apply is_empty_false).
  set (c := util.CondenseSpaces (strings.TrimSpace s)) in *.
  set (text := if Z.of_nat (length (utf8.runes c)) >? 72
               then util.TruncateShorten c 72 else c).
  destruct (TrimRight_split text (str ".")) as (q & E & Q).
  exists text, q. split; [exact E|]. split.
  { eapply Forall_impl; [|exact Q]. intros b Hb. cbn in Hb.
    rewrite orb_false_r in Hb. now apply byte_eqb_eq in Hb. }
  unfold text. destruct (Z.of_nat (length (utf8.runes c)) >? 72) eqn:L.
  - split; [apply TruncateShorten_nonempty; [lia | exact N]|].
    split; [now apply TruncateShorten_starts|].
    split; [apply TruncateShorten_spaces; apply CondenseSpaces_spaces|].
    right. eexists. apply TruncateShorten_long. unfold utf8.RuneCountInString. lia.
  - split; [exact N|]. split; [exact S|].
    split; [apply CondenseSpaces_spaces | now left].
Qed.

Lemma sanitizeDescription_blank (s : gostring) :
  strings.TrimSpace s = [] -> commit.sanitizeDescription s = [].
Proof. intros H. unfold commit.sanitizeDescription. now rewrite H. Qed.

Lemma sanitizeDescription_starts (s : gostring) :
  startsNonSpace (commit.sanitizeDescription s).
Proof.
  destruct (strings.TrimSpace s) as [|b0 t0] eqn:T.
  - rewrite sanitizeDescription_blank by exact T. apply startsNonSpace_nil.
  - destruct (sanitizeDescription_prefix s) as (text & q & E & _ & _ & S & _);
      [rewrite T; discriminate|].
    destruct (commit.sanitizeDescription s) as [|b t] eqn:D; [apply startsNonSpace_nil|].
    rewrite E in S. apply (startsNonSpace_prefix _ q S). discriminate.
Qed.

Lemma sanitizeDescription_spaces (s : gostring) (b : byte) :
  In b (commit.sanitizeDescription s) -> regexp.perlSpace b = true -> b = x20.
Proof.
  destruct (strings.TrimSpace s) as [|b0 t0] eqn:T.
  - rewrite sanitizeDescription_blank by exact T. intros [].
  - destruct (sanitizeDescription_prefix s) as (text & q & E & _ & _ & _ & P & _);
      [rewrite T; discriminate|].
    intros H. apply P. rewrite E. apply in_or_app. now left.
Qed.

(** X5. The description that sanitizeDescription returns is one line in
    which white space of the class \s is single spaces only, it does not
    start with white space, and it is not empty when the text holds a
    printable ASCII character other than a period. *)
Theorem sanitizeDescription_one_line (s : gostring) :
  (forall b, In b (commit.sanitizeDescription s) -> regexp.perlSpace b = true -> b = x20)
  /\ startsNonSpace (commit.sanitizeDescription s)
  /\ (forall b, In b s -> ~ spaceByte b -> b <> x2e -> commit.sanitizeDescription s <> []).
Proof.
  split; [apply sanitizeDescription_spaces|].
  split; [apply sanitizeDescription_starts|].
  intros b Hb Sb Pb.
  pose proof (TrimSpace_keeps s b Hb Sb) as Ht.
  destruct (sanitizeDescription_prefix s) as (text & q & E & Q & _ & _ & _ & [C|(head & C)]).
  { intros T. now rewrite T in Ht. }
  - intros D. rewrite D in E. cbn [app] in E.
    assert (In b text) as Hin.
    { rewrite C. apply (replaceSpaceRuns_keeps _ _ false Ht).
      now apply perlSpace_spaceByte. }
    rewrite E in Hin. rewrite Forall_forall in Q. now apply Q in Hin.
  - intros D. rewrite D in E. cbn [app] in E.
    assert (In xe2 text) as Hin.
    { rewrite C. apply in_or_app. right. now left. }
    rewrite E in Hin. rewrite Forall_forall in Q. apply Q in Hin. discriminate.
Qed.

Lemma sanitizeDescription_one_line_witness :
  In x61 (str " a.. ") /\ commit.sanitizeDescription (str " a.. ") <> [].
Proof.
  assert (In x61 (str " a.. ")) as H by (right; now left).
  split; [exact H|].
  destruct (sanitizeDescription_one_line (str " a.. ")) as (_ & _ & N).
  apply (N x61 H).
  - unfold spaceByte. cbn. lia.
  - discriminate.
Defined.

Lemma sanitizeLine_nonempty (line : gostring) :
  line <> [] -> commit.sanitizeLine line <> [].
Proof.
  intros H. unfold commit.sanitizeLine.
  pose proof (CondenseSpaces_nonempty line H) as N.
  destruct (Z.of_nat (length (utf8.runes (util.CondenseSpaces line))) >? 300);
    [apply TruncateShorten_nonempty; [lia | exact N] | exact N].
Qed.

Lemma sanitizeLine_spaces (line : gostring) (b : byte) :
  In b (commit.sanitizeLine line) -> regexp.perlSpace b = true -> b = x20.
Proof.
  unfold commit.sanitizeLine.
  destruct (Z.of_nat (length (utf8.runes (util.CondenseSpaces line))) >? 300).
  - apply TruncateShorten_spaces. apply CondenseSpaces_spaces.
  - apply CondenseSpaces_spaces.
Qed.

Lemma sanitizeBody_Join (body summary : gostring) :
  commit.sanitizeBody body summary
  = strings.Join
      (map commit.sanitizeLine
           (util.TrimLines (if is_empty (strings.TrimSpace body) then summary
                            else strings.TrimSpace body)))
      [x0a].
Proof.
  unfold commit.sanitizeBody.
  now destruct (util.TrimLines (if is_empty (strings.TrimSpace body) then summary
                                else strings.TrimSpace body)).
Qed.

Lemma Join_nil (lines : list gostring) (sep : gostring) :
  Forall (fun line => line <> []) lines ->
  strings.Join lines sep = [] -> lines = [].
Proof.
  intros F E. destruct lines as [|l [|l2 rest]]; [reflexivity| |].
  - inversion F; subst. cbn in E. contradiction.
  - inversion F; subst. exfalso.
    change (l ++ sep ++ strings.Join (l2 :: rest) sep = []) in E.
    apply app_eq_nil in E as [E _]. contradiction.
Qed.

(** X6. The body that sanitizeBody returns is made of lines joined by
    newlines; no line is empty, none holds white space of the class \s
    other than single spaces, and each has at most 300 runes. There is no
    line exactly when the body is empty. The body is not empty, and not
    blank, when the text given is not blank, or when it is and the summary
    is a text that does not start with white space; a blank text with an
    empty summary gives the empty body. *)
Theorem sanitizeBody_text_lines (body summary : gostring) :
  exists lines,
    commit.sanitizeBody body summary = strings.Join lines [x0a]
    /\ (forall line, In line lines ->
                     line <> [] /\ utf8.RuneCountInString line <= 300
                     /\ forall b, In b line -> regexp.perlSpace b = true -> b = x20)
    /\ (lines = [] <-> commit.sanitizeBody body summary = [])
    /\ (strings.TrimSpace body <> [] \/ (summary <> [] /\ startsNonSpace summary) ->
        strings.TrimSpace (commit.sanitizeBody body summary) <> [])
    /\ (strings.TrimSpace body = [] -> summary = [] ->
        commit.sanitizeBody body summary = []).
Proof.
  set (text := if is_empty (strings.TrimSpace body) then summary else strings.TrimSpace body).
  exists (map commit.sanitizeLine (util.TrimLines text)).
  assert (forall line, In line (map commit.sanitizeLine (util.TrimLines text)) ->
                       line <> [] /\ utf8.RuneCountInString line <= 300
                       /\ forall b, In b line -> regexp.perlSpace b = true -> b = x20) as L.
  { intros line H. apply in_map_iff in H as (l0 & <- & H0).
    apply TrimLines_line in H0 as (N & _).
    split; [now apply sanitizeLine_nonempty|].
    split; [apply sanitizeLine_count | apply sanitizeLine_spaces]. }
  split; [apply sanitizeBody_Join|]. split; [exact L|]. split; [|split].
  - rewrite sanitizeBody_Join. fold text. split; [now intros ->|].
    apply Join_nil. apply Forall_forall. intros line H. now apply L.
  - intros H. destruct (sanitizeBody_text body summary H) as [N S].
    now apply TrimSpace_nonempty.
  - intros B ->. now apply sanitizeBody_blank.
Qed.

Lemma sanitizeBody_text_lines_witness :
  strings.TrimSpace (str "  ") = [] /\ commit.sanitizeBody (str "  ") [] = [].
Proof.
  assert (strings.TrimSpace (str "  ") = []) as H by reflexivity.
  split; [exact H|].
  destruct (sanitizeBody_text_lines (str "  ") []) as (lines & _ & _ & _ & _ & E).
  now apply E.
Defined.

(** ** The Parts of a response, and the message built from them *)

Lemma detectCommitType_in_types (table : Z -> Z) (order : list (gostring * gostring))
      (raw : gostring) :
  In (commit.detectCommitType table order raw) commit.commitTypes.
Proof.
  unfold commit.detectCommitType.
  generalize (strings.ToLower table raw). intros lower.
  assert (forall kws, incl kws commit.commitKeywords ->
                      In (commit.rangeKeywords table order lower kws) commit.commitTypes) as H.
  { induction kws as [|k kws IH]; intros I; [apply chore_is_type|].
    cbn [commit.rangeKeywords]. destruct (strings.Contains lower k).
    - assert (In k commit.commitTypes) as K
          by (apply keywords_are_types, I; now left).
      now rewrite (normaliseCommitType_fixed table order k K).
    - apply IH. intros x Hx. apply I. now right. }
  apply H, incl_refl.
Qed.

Lemma default_description :
  str "update project files" <> []
  /\ startsNonSpace (str "update project files")
  /\ utf8.RuneCountInString (str "update project files") <= 72.
Proof. split; [discriminate|]. split; [reflexivity | vm_compute; discriminate]. Qed.

(** X7. The Parts that ParseParts returns are normal: the commit type is one
    of the nine of the enumeration, the description has at most 72 runes, the
    summary at most 100 and no white space at its front, and the body is
    empty only when the summary is: a response without body gets the summary
    as its body. *)
Theorem ParseParts_normal
        (table : Z -> Z) (order : list (gostring * gostring))
        (Unmarshal : gostring -> option commit.Parts) (raw : gostring)
        (parts : commit.Parts) :
  Permutation order commit.allowedCommitTypes ->
  commit.ParseParts table order Unmarshal raw = commit.Ok parts ->
  In (commit.CommitType parts) commit.commitTypes
  /\ utf8.RuneCountInString (commit.Description parts) <= 72
  /\ utf8.RuneCountInString (commit.Summary parts) <= 100
  /\ startsNonSpace (commit.Summary parts)
  /\ (commit.Body parts = [] -> commit.Summary parts = [])
  /\ (commit.Summary parts <> [] -> strings.TrimSpace (commit.Body parts) <> []).
Proof.
  intros P H. unfold commit.ParseParts in H.
  destruct (is_empty (strings.TrimSpace raw)); [discriminate|].
  destruct ((strings.Index (strings.TrimSpace raw) (str "{") =? -1)
            || (strings.LastIndex (strings.TrimSpace raw) (str "}") =? -1)
            || (strings.Index (strings.TrimSpace raw) (str "{")
                >? strings.LastIndex (strings.TrimSpace raw) (str "}"))); [discriminate|].
  destruct (Unmarshal _) as [p|]; [|discriminate].
  injection H as <-. unfold commit.normaliseParts.
  cbn [commit.CommitType commit.Description commit.Summary commit.Body].
  split.
  { apply normaliseCommitType_in_types. intros x Hx.
    now apply (Permutation_in x P). }
  split; [apply sanitizeDescription_count|].
  split; [apply sanitizeSummary_count|].
  split; [apply sanitizeSummary_starts|].
  assert (commit.sanitizeSummary (commit.Summary p) <> [] ->
          strings.TrimSpace
            (commit.sanitizeBody (commit.Body p) (commit.sanitizeSummary (commit.Summary p)))
          <> []) as B.
  { intros N.
    destruct (sanitizeBody_text (commit.Body p) (commit.sanitizeSummary (commit.Summary p)))
      as [N' S'].
    - right. split; [exact N | apply sanitizeSummary_starts].
    - now apply TrimSpace_nonempty. }
  split; [|exact B].
  intros E. destruct (commit.sanitizeSummary (commit.Summary p)) as [|b t] eqn:S;
    [reflexivity|].
  exfalso. rewrite E in B. apply B; [discriminate | reflexivity].
Qed.

Lemma ParseParts_normal_witness :
  Permutation commit.allowedCommitTypes commit.allowedCommitTypes
  /\ commit.ParseParts Examples.identityTable commit.allowedCommitTypes commit.UnmarshalParts
                       (str "Sure: " ++ Examples.noDescriptionResponse ++ str " Done.")
     = commit.Ok (commit.mkParts (str "chore") [] (str "logs auth events")
                                 (str "logs auth events"))
  /\ In (str "chore") commit.commitTypes.
Proof.
  assert (commit.ParseParts Examples.identityTable commit.allowedCommitTypes
                            commit.UnmarshalParts
                            (str "Sure: " ++ Examples.noDescriptionResponse ++ str " Done.")
          = commit.Ok (commit.mkParts (str "chore") [] (str "logs auth events")
                                      (str "logs auth events"))) as H
      by (vm_compute; reflexivity).
  split; [reflexivity|]. split; [exact H|].
  destruct (ParseParts_normal Examples.identityTable commit.allowedCommitTypes
              commit.UnmarshalParts
              (str "Sure: " ++ Examples.noDescriptionResponse ++ str " Done.")
              (commit.mkParts (str "chore") [] (str "logs auth events")
                              (str "logs auth events"))
              (Permutation_refl _) H) as (T & _).
  exact T.
Defined.

Lemma FallbackParts_fields (table : Z -> Z) (order : list (gostring * gostring))
      (raw : gostring) :
  let p := commit.FallbackParts table order raw in
  (commit.Description p <> [] /\ startsNonSpace (commit.Description p)
   /\ utf8.RuneCountInString (commit.Description p) <= 72)
  /\ (commit.Summary p <> [] /\ startsNonSpace (commit.Summary p)
      /\ utf8.RuneCountInString (commit.Summary p) <= 100).
Proof.
  unfold commit.FallbackParts.
  cbn [commit.Description commit.Summary].
  set (clean := if is_empty (commit.sanitizeDescription raw)
                then str "update project files" else commit.sanitizeDescription raw).
  assert (clean <> [] /\ startsNonSpace clean /\ utf8.RuneCountInString clean <= 72)
    as (Nc & Sc & Cc).
  { unfold clean. destruct (is_empty (commit.sanitizeDescription raw)) eqn:E.
    - apply default_description.
    - apply is_empty_false in E. split; [exact E|].
      split; [apply sanitizeDescription_starts | apply sanitizeDescription_count]. }
  split; [now repeat split|].
  destruct (is_empty (commit.sanitizeSummary raw)) eqn:E.
  - rewrite TruncateShorten_short by lia. repeat split; [exact Nc | exact Sc | lia].
  - apply is_empty_false in E. split; [exact E|].
    split; [apply sanitizeSummary_starts | apply sanitizeSummary_count].
Qed.

(** X8. The Parts that FallbackParts builds from any text are complete: the
    commit type is one of the nine of the enumeration, the description is
    not empty and has at most 72 runes, the summary is not empty and has at
    most 100, and the body is not blank. *)
Theorem FallbackParts_complete (table : Z -> Z) (order : list (gostring * gostring))
        (raw : gostring) :
  let p := commit.FallbackParts table order raw in
  In (commit.CommitType p) commit.commitTypes
  /\ commit.Description p <> []
  /\ utf8.RuneCountInString (commit.Description p) <= 72
  /\ commit.Summary p <> []
  /\ utf8.RuneCountInString (commit.Summary p) <= 100
  /\ strings.TrimSpace (commit.Body p) <> [].
Proof.
  intros p.
  destruct (FallbackParts_fields table order raw) as ((Nd & Sd & Cd) & (Ns & Ss & Cs)).
  fold p in Nd, Sd, Cd, Ns, Ss, Cs.
  split; [apply detectCommitType_in_types|].
  repeat (split; [assumption|]).
  assert (commit.Body p = commit.sanitizeBody raw (commit.Summary p)) as -> by reflexivity.
  destruct (sanitizeBody_text raw (commit.Summary p)) as [N S]; [right; now split|].
  now apply TrimSpace_nonempty.
Qed.

Lemma BuildMessage_body_eq (table : Z -> Z) (order : list (gostring * gostring))
      (branch : gostring) (parts : commit.Parts) :
  exists summary,
    commit.MessageBody (commit.BuildMessage table order branch parts)
    = commit.sanitizeBody (commit.Body parts) summary
    /\ summary <> [] /\ startsNonSpace summary.
Proof.
  unfold commit.BuildMessage. cbn [commit.MessageBody].
  eexists. split; [reflexivity|].
  pose proof (sanitizeSummary_starts (commit.Summary parts)) as Ss.
  pose proof (sanitizeSummary_count (commit.Summary parts)) as Cs.
  pose proof (sanitizeDescription_starts (commit.Description parts)) as Sd.
  pose proof (sanitizeDescription_count (commit.Description parts)) as Cd.
  destruct default_description as (N0 & S0 & C0).
  destruct (is_empty (commit.sanitizeSummary (commit.Summary parts))) eqn:Es.
  - cbn [negb].
    destruct (is_empty (commit.sanitizeDescription (commit.Description parts))) eqn:Ed.
    + rewrite TruncateShorten_short by lia. now split.
    + apply is_empty_false in Ed. rewrite TruncateShorten_short by lia. now split.
  - apply is_empty_false in Es. now split.
Qed.

Lemma TrimSpace_bracket (a b : gostring) : strings.TrimSpace (a ++ x5b :: b) <> [].
Proof.
  assert (In x5b (strings.TrimSpace (a ++ x5b :: b))) as H.
  { apply TrimSpace_keeps.
    - apply in_or_app. right. now left.
    - unfold spaceByte. cbn. lia. }
  intros E. now rewrite E in H.
Qed.

(** X9. The message that BuildMessage returns always has a body: for every
    branch and every Parts the body is not blank, and its lines are not
    empty and have at most 300 runes each. The headline has no white space
    around it. *)
Theorem BuildMessage_body (table : Z -> Z) (order : list (gostring * gostring))
        (branch : gostring) (parts : commit.Parts) :
  let m := commit.BuildMessage table order branch parts in
  strings.TrimSpace (commit.MessageBody m) <> []
  /\ (forall line, In line (strings.SplitByte (commit.MessageBody m) x0a) ->
                   line <> [] /\ utf8.RuneCountInString line <= 300)
  /\ strings.TrimSpace (commit.Headline m) = commit.Headline m.
Proof.
  intros m.
  destruct (BuildMessage_body_eq table order branch parts) as (summary & E & N & S).
  fold m in E. rewrite E.
  destruct (sanitizeBody_text (commit.Body parts) summary) as [Nb Sb]; [right; now split|].
  split; [now apply TrimSpace_nonempty|]. split.
  - rewrite sanitizeBody_Join in *. 
    set (lines := map commit.sanitizeLine _) in *.
    assert (forall line, In line lines ->
                         line <> [] /\ ~ In x0a line
                         /\ utf8.RuneCountInString line <= 300) as L.
    { intros line H. apply in_map_iff in H as (l0 & <- & H0).
      apply TrimLines_line in H0 as (N0 & _).
      split; [now apply sanitizeLine_nonempty|].
      split; [apply sanitizeLine_no_newline | apply sanitizeLine_count]. }
    assert (lines <> []) as Nl by (intros Z; now rewrite Z in Nb).
    rewrite SplitByte_Join; [|exact Nl|].
    + intros line H. destruct (L line H) as (A & _ & C). now split.
    + apply Forall_forall. intros line H. now apply L.
  - unfold m, commit.BuildMessage. cbn [commit.Headline]. apply TrimSpace_idempotent.
Qed.

(** ** The git repository *)

Lemma BuildMessage_headline_text (table : Z -> Z) (order : list (gostring * gostring))
      (branch : gostring) (parts : commit.Parts) :
  commit.Headline (commit.BuildMessage table order branch parts) <> []
  /\ strings.TrimSpace (commit.Headline (commit.BuildMessage table order branch parts))
     = commit.Headline (commit.BuildMessage table order branch parts).
Proof.
  split.
  - rewrite BuildMessage_headline_eq.
    change (str " " ++ (str "[" ++ commit.normaliseCommitType table order
                                     (commit.CommitType parts) ++ str "]")
            ++ str " " ++ Spec.resolvedDescription parts)
      with (x20 :: x5b :: (commit.normaliseCommitType table order (commit.CommitType parts)
                           ++ str "]") ++ str " " ++ Spec.resolvedDescription parts).
    replace (commit.extractTicket branch
             ++ x20 :: x5b :: (commit.normaliseCommitType table order (commit.CommitType parts)
                               ++ str "]") ++ str " " ++ Spec.resolvedDescription parts)
      with ((commit.extractTicket branch ++ [x20])
            ++ x5b :: (commit.normaliseCommitType table order (commit.CommitType parts)
                       ++ str "]") ++ str " " ++ Spec.resolvedDescription parts)
      by (now rewrite <- app_assoc).
    apply TrimSpace_bracket.
  - unfold commit.BuildMessage. cbn [commit.Headline]. apply TrimSpace_idempotent.
Qed.

(** X10. Commit never refuses the message that BuildMessage built: for
    every branch and every Parts it runs the one command
    git commit -m <headline> -m <body>, and its error is that of the
    command. *)
Theorem Commit_of_BuildMessage
        (World ExecError : Type)
        (Run : list gostring -> World -> gostring * option ExecError * World)
        (table : Z -> Z) (order : list (gostring * gostring))
        (branch : gostring) (parts : commit.Parts) (w : World) :
  let m := commit.BuildMessage table order branch parts in
  let ran := Run [str "git"; str "commit"; str "-m"; commit.Headline m;
                  str "-m"; commit.MessageBody m] w in
  git.Commit Run (commit.Headline m) (commit.MessageBody m) w
  = (option_map git.ErrRun (snd (fst ran)), snd ran)
  /\ fst (git.Commit Run (commit.Headline m) (commit.MessageBody m) w)
     <> Some git.ErrEmptyHeadline.
Proof.
  intros m ran.
  destruct (BuildMessage_headline_text table order branch parts) as [Hn Ht].
  destruct (BuildMessage_body_eq table order branch parts) as (summary & E & N & S).
  fold m in Hn, Ht, E.
  assert (strings.TrimSpace (commit.MessageBody m) <> []) as Hb.
  { rewrite E. destruct (sanitizeBody_text (commit.Body parts) summary) as [Nb Sb];
      [right; now split|]. now apply TrimSpace_nonempty. }
  assert (git.Commit Run (commit.Headline m) (commit.MessageBody m) w
          = (option_map git.ErrRun (snd (fst ran)), snd ran)) as C.
  { unfold git.Commit, git.commitArgs. rewrite Ht.
    replace (is_empty (commit.Headline m)) with false
      by (symmetry; now apply is_empty_false).
    replace (is_empty (strings.TrimSpace (commit.MessageBody m))) with false
      by (symmetry; now apply is_empty_false).
    cbn [negb app]. fold ran. now destruct ran as [[out err] w']. }
  split; [exact C|]. rewrite C. cbn [fst].
  destruct (snd (fst ran)); discriminate.
Qed.

(** X11. The branch that CurrentBranch returns has no white space around
    it. It is the output of git rev-parse --abbrev-ref HEAD, trimmed, when
    that is a name other than HEAD, and no second command is run then;
    otherwise it is the trimmed output of git rev-parse --short HEAD, run in
    the state the first command left. *)
Theorem CurrentBranch_trimmed
        (World ExecError : Type)
        (Run : list gostring -> World -> gostring * option ExecError * World)
        (w w' : World) (branch : gostring) :
  git.CurrentBranch Run w = (inl branch, w') ->
  strings.TrimSpace branch = branch
  /\ ((exists out,
          Run [str "git"; str "rev-parse"; str "--abbrev-ref"; str "HEAD"] w
          = (out, None, w')
          /\ branch = strings.TrimSpace out /\ branch <> [] /\ branch <> str "HEAD")
      \/ (exists out1 w1 out2,
             Run [str "git"; str "rev-parse"; str "--abbrev-ref"; str "HEAD"] w
             = (out1, None, w1)
             /\ (strings.TrimSpace out1 = [] \/ strings.TrimSpace out1 = str "HEAD")
             /\ Run [str "git"; str "rev-parse"; str "--short"; str "HEAD"] w1
                = (out2, None, w')
             /\ branch = strings.TrimSpace out2)).
Proof.
  unfold git.CurrentBranch.
  destruct (Run [str "git"; str "rev-parse"; str "--abbrev-ref"; str "HEAD"] w)
    as [[out1 [e1|]] w1] eqn:R1; [discriminate|].
  destruct (is_empty (strings.TrimSpace out1)) eqn:E1; cbn [negb andb].
  - apply is_empty_true in E1.
    destruct (Run [str "git"; str "rev-parse"; str "--short"; str "HEAD"] w1)
      as [[out2 [e2|]] w2] eqn:R2; [discriminate|].
    intros H. injection H as <- <-. split; [apply TrimSpace_idempotent|].
    right. exists out1, w1, out2. repeat split; try assumption. now left.
  - apply is_empty_false in E1.
    destruct (bytes_eqb (strings.TrimSpace out1) (str "HEAD")) eqn:E2; cbn [negb].
    + apply bytes_eqb_eq in E2.
      destruct (Run [str "git"; str "rev-parse"; str "--short"; str "HEAD"] w1)
        as [[out2 [e2|]] w2] eqn:R2; [discriminate|].
      intros H. injection H as <- <-. split; [apply TrimSpace_idempotent|].
      right. exists out1, w1, out2. repeat split; try assumption. now right.
    + intros H. injection H as <- <-. split; [apply TrimSpace_idempotent|].
      left. exists out1. repeat split; try assumption.
      intros C. apply bytes_eqb_eq in C. congruence.
Qed.

Lemma CurrentBranch_trimmed_witness :
  git.CurrentBranch MoreExamples.recordingRun []
  = (inl (str "main"),
     [[str "git"; str "rev-parse"; str "--abbrev-ref"; str "HEAD"]])
  /\ strings.TrimSpace (str "main") = str "main".
Proof.
  assert (git.CurrentBranch MoreExamples.recordingRun []
          = (inl (str "main"),
             [[str "git"; str "rev-parse"; str "--abbrev-ref"; str "HEAD"]])) as H
      by reflexivity.
  split; [exact H|].
  exact (proj1 (CurrentBranch_trimmed _ _ MoreExamples.recordingRun [] _ _ H)).
Defined.

(** ** The streaming client *)

Lemma bodyLines_app (lines : list gostring) (rest : gostring) :
  Forall (fun line => ~ In x0a line) lines ->
  ollama.bodyLines (Spec.bodyOf lines ++ rest) [] = lines ++ ollama.bodyLines rest [].
Proof.
  induction 1 as [|line lines Hline _ IH]; [reflexivity|].
  unfold Spec.bodyOf in *. cbn [flat_map].
  rewrite <- !app_assoc. cbn [app].
  rewrite bodyLines_line by exact Hline. cbn [app]. now rewrite IH.
Qed.

Lemma scanLoop_done (decode : gostring -> option ollama.Chunk)
      (before more : list gostring) (doneLine : gostring) (chunk : ollama.Chunk) :
  len doneLine < ollama.MaxScanTokenSize ->
  decode (ollama.dropCR doneLine) = Some chunk ->
  ollama.Done chunk = true ->
  forall out,
    ollama.scanLoop decode (before ++ doneLine :: more) out
    = ollama.scanLoop decode (before ++ [doneLine]) out.
Proof.
  intros L D T. induction before as [|line before IH]; intros out.
  - cbn [app ollama.scanLoop].
    replace (ollama.MaxScanTokenSize <=? len doneLine) with false by lia.
    now rewrite D, T.
  - cbn [app ollama.scanLoop].
    destruct (ollama.MaxScanTokenSize <=? len line); [reflexivity|].
    destruct (decode (ollama.dropCR line)) as [c|]; [|apply IH].
    destruct (ollama.Done c); [reflexivity | apply IH].
Qed.

(** X12. Generate stops reading at the first record that is done: whatever
    the server sends after the line of that record, even a line too long
    for the scanner, does not change the result. *)
Theorem Generate_stops_when_done
        (decode : gostring -> option ollama.Chunk) (StatusCode : Z)
        (before : list gostring) (doneLine rest : gostring) (chunk : ollama.Chunk) :
  StatusCode < 300 ->
  Forall (fun line => ~ In x0a line) (before ++ [doneLine]) ->
  len doneLine < ollama.MaxScanTokenSize ->
  decode (ollama.dropCR doneLine) = Some chunk ->
  ollama.Done chunk = true ->
  ollama.Generate decode StatusCode (Spec.bodyOf (before ++ [doneLine]) ++ rest)
  = ollama.Generate decode StatusCode (Spec.bodyOf (before ++ [doneLine])).
Proof.
  intros S N L D T. unfold ollama.Generate.
  replace (StatusCode >=? 300) with false by lia.
  rewrite bodyLines_app by exact N. rewrite bodyLines_bodyOf by exact N.
  rewrite <- app_assoc. cbn [app].
  now rewrite (scanLoop_done decode before _ doneLine chunk L D T).
Qed.

Lemma Generate_stops_when_done_witness :
  ollama.Generate ollama.UnmarshalChunk 200
    (Spec.bodyOf ([Examples.heChunkLine] ++ [Examples.lloChunkLine]) ++ repeat x61 65536)
  = ollama.Generate ollama.UnmarshalChunk 200
      (Spec.bodyOf ([Examples.heChunkLine] ++ [Examples.lloChunkLine])).
Proof.
  apply (Generate_stops_when_done ollama.UnmarshalChunk 200 [Examples.heChunkLine]
           Examples.lloChunkLine (repeat x61 65536) (ollama.mkChunk (str "llo ") true)).
  - lia.
  - repeat constructor; vm_compute; intuition discriminate.
  - vm_compute. reflexivity.
  - vm_compute. reflexivity.
  - reflexivity.
Defined.

(** X13. A status of 300 or more makes Generate fail with the status and
    the whole body, read or not as lines; and the text that Generate
    returns has no white space around it, so that trimming it again, as the
    use case does with the review, changes nothing. *)
Theorem Generate_status_and_trim
        (decode : gostring -> option ollama.Chunk) (StatusCode : Z) (body : gostring) :
  (300 <= StatusCode ->
   ollama.Generate decode StatusCode body
   = ollama.Err (ollama.ErrStatus StatusCode body))
  /\ (forall text,
         ollama.Generate decode StatusCode body = ollama.Ok text ->
         StatusCode < 300
         /\ strings.TrimSpace text = text
         /\ startsNonSpace text /\ endsNonSpace text).
Proof.
  unfold ollama.Generate. split.
  - intros H. now replace (StatusCode >=? 300) with true by lia.
  - intros text. destruct (StatusCode >=? 300) eqn:S; [discriminate|].
    destruct (ollama.scanLoop decode (ollama.bodyLines body []) []) as [out|e];
      [|discriminate].
    intros H. injection H as <-.
    split; [lia|]. split; [apply TrimSpace_idempotent | apply TrimSpace_starts_ends].
Qed.

Lemma Generate_status_and_trim_witness :
  300 <= 404
  /\ ollama.Generate ollama.UnmarshalChunk 404 (str "model not found")
     = ollama.Err (ollama.ErrStatus 404 (str "model not found")).
Proof.
  split; [lia|].
  apply (proj1 (Generate_status_and_trim ollama.UnmarshalChunk 404 (str "model not found"))).
  lia.
Defined.

(** ** The prompts *)

(** X14. A prompt is its fixed text around the diff, and for the commit
    around the branch: with a positive limit of max bytes on the diff, the
    review prompt has at most 473 + max bytes and the commit prompt at most
    875 + max bytes besides the branch; the diff cut by TrimTo may take
    up to max + 20 of them. *)
Theorem prompt_bounded (diff branch : gostring) (max : Z) :
  0 < max ->
  len (prompt.Review (util.TrimTo diff max)) <= 473 + max
  /\ len (prompt.Commit (util.TrimTo diff max) branch) <= 875 + len branch + max
  /\ (len diff <= max ->
      prompt.Review (util.TrimTo diff max) = prompt.reviewHead ++ diff ++ [x0a]
      /\ prompt.Commit (util.TrimTo diff max) branch
         = prompt.commitHead ++ branch ++ prompt.commitMiddle ++ diff ++ [x0a]).
Proof.
  intros M.
  assert (len (util.TrimTo diff max) <= max + 20) as L.
  { unfold util.TrimTo.
    destruct ((max <=? 0) || (len diff <=? max)) eqn:E; [lia|].
    rewrite len_app, len_truncatedMark.
    set (head := strings.slice diff 0 max).
    assert (len head <= max) as Lh.
    { unfold head. rewrite slice_0. unfold len. rewrite length_firstn. lia. }
    destruct (strings.LastIndex head [x0a] >? 0) eqn:I; [|lia].
    rewrite slice_0. unfold len in *. rewrite length_firstn. lia. }
  assert (len prompt.reviewHead = 452) as Lr by (vm_compute; reflexivity).
  assert (len prompt.commitHead = 845) as Lc by (vm_compute; reflexivity).
  assert (len prompt.commitMiddle = 9) as Lm by (vm_compute; reflexivity).
  unfold prompt.Review, prompt.Commit, prompt.nl.
  split; [|split].
  - rewrite !len_app, Lr. change (len [x0a]) with 1. lia.
  - rewrite !len_app, Lc, Lm. change (len [x0a]) with 1. lia.
  - intros F. unfold util.TrimTo.
    replace ((max <=? 0) || (len diff <=? max)) with true by lia. now split.
Qed.

Lemma prompt_bounded_witness :
  0 < 32000 /\ len (prompt.Review (util.TrimTo (repeat x61 40000) 32000)) <= 473 + 32000.
Proof.
  split; [lia|].
  apply (proj1 (prompt_bounded (repeat x61 40000) [] 32000 ltac:(lia))).
Defined.

(** ** The use case *)

Section Execute.

Context {World GoError : Type}.
Variable table : Z -> Z.
Variables orderParts orderMessage : list (gostring * gostring).
Variable Unmarshal : gostring -> option commit.Parts.

(** X15. What a result of Execute holds. The diff used is the staged diff,
    which was not blank, cut by TrimTo; the branch is the one the repository
    gave. The message can be committed: its headline is not empty and has
    no white space around it, its body is not blank, also when the response
    of the model could not be parsed. A review and a review error are never
    both there, the review has no white space around it, and without the
    review option there is neither. *)
Theorem Execute_result
        (s : option (usecase.Service World GoError)) (opts : usecase.Options)
        (w w' : World) (r : usecase.Result GoError) :
  usecase.Execute table orderParts orderMessage Unmarshal s opts w = (inl r, w') ->
  (exists repo llm diff w1 w2,
      s = Some (usecase.mkService (Some repo) (Some llm))
      /\ usecase.StagedDiff repo w = (inl diff, w1)
      /\ strings.TrimSpace diff <> []
      /\ usecase.DiffUsed r = util.TrimTo diff (usecase.MaxBytes opts)
      /\ usecase.CurrentBranch repo w1 = (inl (usecase.Branch r), w2))
  /\ commit.Headline (usecase.Message r) <> []
  /\ strings.TrimSpace (commit.Headline (usecase.Message r))
     = commit.Headline (usecase.Message r)
  /\ strings.TrimSpace (commit.MessageBody (usecase.Message r)) <> []
  /\ (usecase.Review r = [] \/ usecase.ReviewErr r = None)
  /\ strings.TrimSpace (usecase.Review r) = usecase.Review r
  /\ (usecase.RunReview opts = false ->
      usecase.Review r = [] /\ usecase.ReviewErr r = None).
Proof.
  unfold usecase.Execute. intros H.
  destruct s as [[[repo|] [llm|]]|]; cbn [usecase.Repo usecase.LLM] in H;
    try discriminate.
  destruct (usecase.StagedDiff repo w) as [[diff|e] w1] eqn:SD; [|discriminate].
  destruct (is_empty (strings.TrimSpace diff)) eqn:B; [discriminate|].
  apply is_empty_false in B.
  destruct (usecase.CurrentBranch repo w1) as [[branch|e] w2] eqn:CB; [|discriminate].
  set (result0 := usecase.mkResult [] None usecase.zeroMessage
                                   (util.TrimTo diff (usecase.MaxBytes opts)) branch) in H.
  set (stepped := if usecase.RunReview opts
                  then usecase.reviewStep llm (usecase.Endpoint opts) _ _ result0 w2
                  else (result0, w2)) in H.
  assert (usecase.DiffUsed (fst stepped) = util.TrimTo diff (usecase.MaxBytes opts)
          /\ usecase.Branch (fst stepped) = branch
          /\ (usecase.Review (fst stepped) = [] \/ usecase.ReviewErr (fst stepped) = None)
          /\ strings.TrimSpace (usecase.Review (fst stepped)) = usecase.Review (fst stepped)
          /\ (usecase.RunReview opts = false ->
              usecase.Review (fst stepped) = [] /\ usecase.ReviewErr (fst stepped) = None))
    as (S1 & S2 & S3 & S4 & S5).
  { unfold stepped. destruct (usecase.RunReview opts).
    - unfold usecase.reviewStep.
      destruct (usecase.Generate llm _ _ w2) as [[review|e] w3]; cbn.
      + repeat split; try reflexivity; [now right | apply TrimSpace_idempotent | discriminate].
      + repeat split; try reflexivity; [now left | discriminate].
    - cbn. repeat split; try reflexivity. now left. }
  destruct stepped as [result w3]. cbn [fst] in S1, S2, S3, S4, S5.
  destruct (usecase.Generate llm _ _ w3) as [[raw|e] w4]; [|discriminate].
  injection H as <- <-.
  cbn [usecase.Message usecase.DiffUsed usecase.Branch usecase.Review usecase.ReviewErr].
  split.
  { exists repo, llm, diff, w1, w2. rewrite S2. now repeat split. }
  match goal with
  | |- context [commit.BuildMessage table orderMessage branch ?p] => set (parts := p)
  end.
  destruct (BuildMessage_headline_text table orderMessage branch parts) as [Hn Ht].
  destruct (BuildMessage_body_eq table orderMessage branch parts) as (summary & E & N & S).
  split; [exact Hn|]. split; [exact Ht|]. split.
  { rewrite E. destruct (sanitizeBody_text (commit.Body parts) summary) as [Nb Sb];
      [right; now split|]. now apply TrimSpace_nonempty. }
  split; [exact S3|]. split; [exact S4 | exact S5].
Qed.

(** X16. Why a run of Execute fails. A service without repository or
    model fails at once; otherwise the run fails with the error of the
    staged diff, with "no staged changes detected" on a blank diff, with the
    error of the branch, or with the error of the model on the request for
    the commit message, and with nothing else: neither a failed review nor a
    response that cannot be parsed ends the run. The state shows that
    nothing is called after the step that failed. *)
Theorem Execute_failure
        (s : option (usecase.Service World GoError)) (opts : usecase.Options)
        (w w' : World) (err : usecase.error GoError) :
  usecase.Execute table orderParts orderMessage Unmarshal s opts w = (inr err, w') ->
  (err = usecase.ErrNotInitialized /\ w' = w
   /\ forall repo llm, s <> Some (usecase.mkService (Some repo) (Some llm)))
  \/ exists repo llm,
      s = Some (usecase.mkService (Some repo) (Some llm))
      /\ ((exists e, usecase.StagedDiff repo w = (inr e, w') /\ err = usecase.ErrOf e)
          \/ (exists diff,
                 usecase.StagedDiff repo w = (inl diff, w')
                 /\ strings.TrimSpace diff = [] /\ err = usecase.ErrNoStagedChanges)
          \/ (exists diff w1 e,
                 usecase.StagedDiff repo w = (inl diff, w1)
                 /\ usecase.CurrentBranch repo w1 = (inr e, w')
                 /\ err = usecase.ErrOf e)
          \/ (exists diff w1 branch w2 e,
                 usecase.StagedDiff repo w = (inl diff, w1)
                 /\ usecase.CurrentBranch repo w1 = (inl branch, w2)
                 /\ usecase.Generate llm (usecase.Endpoint opts)
                      (ollama.mkRequest (usecase.Model opts)
                         (prompt.Commit (util.TrimTo diff (usecase.MaxBytes opts)) branch)
                         true usecase.commitOptions)
                      (if usecase.RunReview opts
                       then snd (usecase.Generate llm (usecase.Endpoint opts)
                                   (ollama.mkRequest
                                      (if is_empty (usecase.ReviewModel opts)
                                       then usecase.Model opts
                                       else usecase.ReviewModel opts)
                                      (prompt.Review
                                         (util.TrimTo diff (usecase.MaxBytes opts)))
                                      true usecase.reviewOptions) w2)
                       else w2)
                    = (inr e, w')
                 /\ err = usecase.ErrOf e)).
Proof.
  unfold usecase.Execute. intros H.
  destruct s as [[[repo|] [llm|]]|]; cbn [usecase.Repo usecase.LLM] in H;
    try (injection H as <- <-; left; repeat split; discriminate).
  right. exists repo, llm. split; [reflexivity|].
  destruct (usecase.StagedDiff repo w) as [[diff|e] w1] eqn:SD.
  2: { injection H as <- <-. left. now exists e. }
  destruct (is_empty (strings.TrimSpace diff)) eqn:B.
  { injection H as <- <-. apply is_empty_true in B. right. left. now exists diff. }
  destruct (usecase.CurrentBranch repo w1) as [[branch|e] w2] eqn:CB.
  2: { injection H as <- <-. right. right. left. now exists diff, w1, e. }
  right. right. right. exists diff, w1, branch, w2.
  destruct (usecase.RunReview opts).
  - unfold usecase.reviewStep in H.
    destruct (usecase.Generate llm (usecase.Endpoint opts)
                (ollama.mkRequest _ (prompt.Review _) true usecase.reviewOptions) w2)
      as [[review|e] w3]; cbn [snd];
      (destruct (usecase.Generate llm (usecase.Endpoint opts)
                   (ollama.mkRequest _ (prompt.Commit _ _) true usecase.commitOptions) w3)
        as [[raw|e'] w4]; [discriminate|]);
      injection H as <- <-; now exists e'.
  - destruct (usecase.Generate llm (usecase.Endpoint opts)
                (ollama.mkRequest _ (prompt.Commit _ _) true usecase.commitOptions) w2)
      as [[raw|e'] w4]; [discriminate|].
    injection H as <- <-. now exists e'.
Qed.

End Execute.

Lemma Execute_result_witness :
  exists r,
    usecase.Execute Examples.identityTable commit.allowedCommitTypes
                    commit.allowedCommitTypes commit.UnmarshalParts
                    (Some (usecase.mkService (Some MoreExamples.oneLineRepo)
                                             (Some MoreExamples.proseModel)))
                    MoreExamples.defaultOptions 0%nat
    = (inl r, 4%nat)
    /\ commit.Headline (usecase.Message r) <> [].
Proof.
  eexists. split; [vm_compute; reflexivity|].
  refine (proj1 (proj2 (Execute_result Examples.identityTable commit.allowedCommitTypes
                          commit.allowedCommitTypes commit.UnmarshalParts
                          (Some (usecase.mkService (Some MoreExamples.oneLineRepo)
                                                   (Some MoreExamples.proseModel)))
                          MoreExamples.defaultOptions 0%nat 4%nat _ _))).
  vm_compute. reflexivity.
Defined.

Lemma Execute_failure_witness :
  usecase.Execute Examples.identityTable commit.allowedCommitTypes
                  commit.allowedCommitTypes commit.UnmarshalParts
                  (Some (usecase.mkService (Some MoreExamples.oneLineRepo)
                                           (Some MoreExamples.downModel)))
                  MoreExamples.defaultOptions 0%nat
  = (inr (usecase.ErrOf tt), 4%nat)
  /\ exists repo llm,
      Some (usecase.mkService (Some MoreExamples.oneLineRepo)
                              (Some MoreExamples.downModel))
      = Some (usecase.mkService (Some repo) (Some llm)).
Proof.
  assert (usecase.Execute Examples.identityTable commit.allowedCommitTypes
                          commit.allowedCommitTypes commit.UnmarshalParts
                          (Some (usecase.mkService (Some MoreExamples.oneLineRepo)
                                                   (Some MoreExamples.downModel)))
                          MoreExamples.defaultOptions 0%nat
          = (inr (usecase.ErrOf tt), 4%nat)) as H by (vm_compute; reflexivity).
  split; [exact H|].
  destruct (Execute_failure Examples.identityTable commit.allowedCommitTypes
              commit.allowedCommitTypes commit.UnmarshalParts _ _ _ _ _ H)
    as [(_ & _ & N)|(repo & llm & E & _)].
  - exfalso. now apply (N MoreExamples.oneLineRepo MoreExamples.downModel).
  - now exists repo, llm.
Defined.

(** ** The program in one file, beside the packages *)

Lemma truncate_positive (s : gostring) (n : Z) :
  0 < n -> main.truncate s n = main.Ret (util.TruncateShorten s n).
Proof.
  intros N. unfold main.truncate, util.TruncateShorten, utf8.RuneCountInString.
  pose proof (runes_length_le s) as R. unfold len.
  replace (n <=? 0) with false by lia.
  destruct (Z.of_nat (length s) <=? n) eqn:L.
  - now replace (Z.of_nat (length (utf8.runes s)) <=? n) with true by lia.
  - destruct (Z.of_nat (length (utf8.runes s)) <=? n); [reflexivity|].
    now replace (n - 1 <? 0) with false by lia.
Qed.

(** X17. The truncate of main.go and TruncateShorten return the same for
    every positive bound. For a bound of zero or less truncate panics on
    every text that is not empty, where TruncateShorten returns the empty
    text. *)
Theorem truncate_TruncateShorten (s : gostring) (n : Z) :
  (0 < n -> main.truncate s n = main.Ret (util.TruncateShorten s n))
  /\ (n <= 0 -> s <> [] ->
      main.truncate s n = main.Panic /\ util.TruncateShorten s n = []).
Proof.
  split; [apply truncate_positive|].
  intros N Hs. split; [|now apply TruncateShorten_nonpositive].
  unfold main.truncate.
  assert (0 < len s) as L.
  { destruct s; [congruence|]. rewrite len_cons. pose proof (len_nonneg s). lia. }
  assert (0 < Z.of_nat (length (utf8.runes s))) as R.
  { destruct (utf8.runes s) eqn:E; [now apply runes_empty in E | cbn [length]; lia]. }
  replace (len s <=? n) with false by lia.
  replace (Z.of_nat (length (utf8.runes s)) <=? n) with false by lia.
  now replace (n - 1 <? 0) with true by lia.
Qed.

Lemma truncate_TruncateShorten_witness :
  0 < 5 /\ main.truncate (str "héllo wörld") 5
           = main.Ret (util.TruncateShorten (str "héllo wörld") 5).
Proof.
  split; [lia|].
  apply (proj1 (truncate_TruncateShorten (str "héllo wörld") 5)). lia.
Defined.

(** X18. The trimTo of main.go and TrimTo return the same for every
    positive limit. A negative limit makes trimTo panic, and a limit of zero
    makes it drop the whole text and return the mark alone, where TrimTo
    returns the text as it is. *)
Theorem trimTo_TrimTo (s : gostring) (max : Z) :
  (0 < max -> main.trimTo s max = main.Ret (util.TrimTo s max))
  /\ (max < 0 -> main.trimTo s max = main.Panic /\ util.TrimTo s max = s)
  /\ (s <> [] -> main.trimTo s 0 = main.Ret util.truncatedMark /\ util.TrimTo s 0 = s).
Proof.
  pose proof (len_nonneg s) as L.
  unfold main.trimTo, util.TrimTo. split; [|split].
  - intros M. replace (max <=? 0) with false by lia. cbn [orb].
    destruct (len s <=? max); [reflexivity|].
    now replace (max <? 0) with false by lia.
  - intros M. replace (len s <=? max) with false by lia.
    replace (max <? 0) with true by lia.
    now replace (max <=? 0) with true by lia.
  - intros Hs.
    assert (0 < len s) as P.
    { destruct s; [congruence|]. rewrite len_cons. pose proof (len_nonneg s). lia. }
    replace (len s <=? 0) with false by lia. split; reflexivity.
Qed.

Lemma trimTo_TrimTo_witness :
  0 < 12
  /\ main.trimTo (str "line one" ++ [x0a] ++ str "line two") 12
     = main.Ret (util.TrimTo (str "line one" ++ [x0a] ++ str "line two") 12).
Proof.
  split; [lia|].
  apply (proj1 (trimTo_TrimTo (str "line one" ++ [x0a] ++ str "line two") 12)). lia.
Defined.

Lemma rangePrefix_nil (order : list (gostring * gostring)) :
  incl order commit.allowedCommitTypes -> commit.rangePrefix [] order = None.
Proof.
  induction order as [|[k v] order IH]; intros I; [reflexivity|].
  cbn [commit.rangePrefix].
  assert (In (k, v) commit.allowedCommitTypes) as H by (apply I; now left).
  assert (strings.HasPrefix [] k = false) as ->.
  { cbn in H. repeat (destruct H as [H|H]; [injection H as <- _; reflexivity|]).
    destruct H. }
  apply IH. intros x Hx. apply I. now right.
Qed.

Lemma normalizeCommitType_legacy (table : Z -> Z) (order : list (gostring * gostring))
      (t : gostring) :
  incl order commit.allowedCommitTypes ->
  main.normalizeCommitType table order t = commit.normaliseCommitType table order t.
Proof.
  intros I. unfold main.normalizeCommitType, commit.normaliseCommitType.
  change main.allowedCommitTypes with commit.allowedCommitTypes.
  destruct (strings.Trim (strings.ToLower table (strings.TrimSpace t)) (str "[]"))
    as [|b c] eqn:E; [|reflexivity].
  cbn [is_empty]. now rewrite (rangePrefix_nil order I).
Qed.

Lemma detectCommitType_legacy (table : Z -> Z) (order : list (gostring * gostring))
      (raw : gostring) :
  incl order commit.allowedCommitTypes ->
  main.detectCommitType table order raw = commit.detectCommitType table order raw.
Proof.
  intros I. unfold main.detectCommitType, commit.detectCommitType.
  generalize (strings.ToLower table raw). intros lower.
  change [str "fix"; str "feat"; str "perf"; str "refactor"; str "docs"; str "test";
          str "build"; str "ci"] with commit.commitKeywords.
  induction commit.commitKeywords as [|k kws IH]; [reflexivity|].
  cbn [main.rangeKeywords commit.rangeKeywords].
  rewrite IH. now rewrite normalizeCommitType_legacy by exact I.
Qed.

(** X19. The normalizeCommitType of main.go, which has no test for the
    empty candidate, returns what normaliseCommitType returns, for every
    text and every order of the loop over the map: the empty candidate is no
    key and no key is a prefix of it. So the commit type is one of the
    enumeration there too, and the detectCommitType of main.go returns what
    that of internal/commit returns. *)
Theorem normalizeCommitType_normaliseCommitType
        (table : Z -> Z) (order : list (gostring * gostring)) (t : gostring) :
  Permutation order commit.allowedCommitTypes ->
  main.normalizeCommitType table order t = commit.normaliseCommitType table order t
  /\ In (main.normalizeCommitType table order t) commit.commitTypes
  /\ main.detectCommitType table order t = commit.detectCommitType table order t.
Proof.
  intros P.
  assert (incl order commit.allowedCommitTypes) as I
      by (intros x Hx; now apply (Permutation_in x P)).
  rewrite normalizeCommitType_legacy by exact I.
  split; [reflexivity|].
  split; [now apply normaliseCommitType_in_types | now apply detectCommitType_legacy].
Qed.

Lemma normalizeCommitType_normaliseCommitType_witness :
  Permutation commit.allowedCommitTypes commit.allowedCommitTypes
  /\ main.normalizeCommitType Examples.identityTable commit.allowedCommitTypes (str " [] ")
     = commit.normaliseCommitType Examples.identityTable commit.allowedCommitTypes
                                  (str " [] ").
Proof.
  split; [reflexivity|].
  apply (proj1 (normalizeCommitType_normaliseCommitType Examples.identityTable
                  commit.allowedCommitTypes (str " [] ") (Permutation_refl _))).
Defined.

Lemma sanitizeDescription_legacy (s : gostring) :
  main.sanitizeDescription s = main.Ret (commit.sanitizeDescription s).
Proof.
  unfold main.sanitizeDescription, commit.sanitizeDescription.
  change (main.condenseSpaces (strings.TrimSpace s))
    with (util.CondenseSpaces (strings.TrimSpace s)).
  destruct (is_empty (util.CondenseSpaces (strings.TrimSpace s))); [reflexivity|].
  destruct (Z.of_nat (length (utf8.runes (util.CondenseSpaces (strings.TrimSpace s)))) >? 72);
    [rewrite truncate_positive by lia|]; reflexivity.
Qed.

Lemma sanitizeSummary_legacy (s : gostring) :
  main.sanitizeSummary s = main.Ret (commit.sanitizeSummary s).
Proof.
  unfold main.sanitizeSummary, commit.sanitizeSummary.
  change (main.condenseSpaces (strings.TrimSpace s))
    with (util.CondenseSpaces (strings.TrimSpace s)).
  destruct (is_empty (util.CondenseSpaces (strings.TrimSpace s))); [reflexivity|].
  destruct (Z.of_nat (length (utf8.runes (util.CondenseSpaces (strings.TrimSpace s)))) >? 100);
    [rewrite truncate_positive by lia|]; reflexivity.
Qed.

Lemma sanitizeBody_legacy (s : gostring) :
  exists body,
    main.sanitizeBody s = main.Ret body
    /\ utf8.RuneCountInString body <= 300
    /\ (body = [] <-> strings.TrimSpace (strings.ReplaceCRLF s) = []).
Proof.
  unfold main.sanitizeBody.
  destruct (strings.TrimSpace (strings.ReplaceCRLF s)) as [|b0 t0] eqn:T.
  { exists []. cbn. repeat split; lia. }
  cbn [is_empty].
  assert (b0 :: t0 <> [] /\ startsNonSpace (b0 :: t0)) as [N S].
  { split; [discriminate|]. rewrite <- T. apply TrimSpace_starts_ends. }
  destruct (SplitByte_starts _ N S) as (h & r & -> & Hh & Sh).
  cbn [map filter].
  pose proof (CondenseSpaces_nonempty _ (TrimSpace_nonempty h Hh Sh)) as Hc.
  change (main.condenseSpaces (strings.TrimSpace h))
    with (util.CondenseSpaces (strings.TrimSpace h)).
  replace (is_empty (util.CondenseSpaces (strings.TrimSpace h))) with false
    by (symmetry; now apply is_empty_false).
  cbn [negb].
  set (rest := filter _ (map _ r)).
  set (body := strings.Join (util.CondenseSpaces (strings.TrimSpace h) :: rest) [x0a]).
  assert (body <> []) as Nb.
  { unfold body. destruct rest as [|l2 rest']; [exact Hc|].
    change (strings.Join (util.CondenseSpaces (strings.TrimSpace h) :: l2 :: rest') [x0a])
      with (util.CondenseSpaces (strings.TrimSpace h)
            ++ [x0a] ++ strings.Join (l2 :: rest') [x0a]).
    intros E. apply app_eq_nil in E as [E _]. contradiction. }
  destruct (Z.of_nat (length (utf8.runes body)) >? 300) eqn:L.
  - rewrite truncate_positive by lia. eexists. split; [reflexivity|].
    split; [apply TruncateShorten_count; lia|].
    split; [intros E; exfalso; revert E; apply TruncateShorten_nonempty; [lia | exact Nb]
           | discriminate].
  - exists body. split; [reflexivity|]. unfold utf8.RuneCountInString.
    split; [lia|]. split; [contradiction | discriminate].
Qed.

(** X20. The sanitizers of main.go never panic. Its sanitizeDescription
    and sanitizeSummary return what those of internal/commit return; its
    sanitizeBody returns a body of at most 300 runes in all, which is empty
    exactly when the text is blank. *)
Theorem main_sanitizers (s : gostring) :
  main.sanitizeDescription s = main.Ret (commit.sanitizeDescription s)
  /\ main.sanitizeSummary s = main.Ret (commit.sanitizeSummary s)
  /\ exists body,
      main.sanitizeBody s = main.Ret body
      /\ utf8.RuneCountInString body <= 300
      /\ (body = [] <-> strings.TrimSpace (strings.ReplaceCRLF s) = []).
Proof.
  split; [apply sanitizeDescription_legacy|].
  split; [apply sanitizeSummary_legacy | apply sanitizeBody_legacy].
Qed.

Lemma object_span (trimmed pre mid post : gostring) :
  trimmed = pre ++ x7b :: mid ++ x7d :: post ->
  ~ In x7b pre -> ~ In x7d post ->
  is_empty trimmed = false
  /\ (strings.Index trimmed (str "{") =? -1)
     || (strings.LastIndex trimmed (str "}") =? -1)
     || (strings.Index trimmed (str "{") >? strings.LastIndex trimmed (str "}")) = false
  /\ strings.slice trimmed (strings.Index trimmed (str "{"))
                   (strings.LastIndex trimmed (str "}") + 1)
     = x7b :: mid ++ [x7d].
Proof.
  intros E Hpre Hpost.
  change (str "{") with [x7b]. change (str "}") with [x7d].
  assert (strings.Index trimmed [x7b] = len pre) as ->
      by (rewrite E; now apply Index_first).
  assert (strings.LastIndex trimmed [x7d] = len pre + 1 + len mid) as ->.
  { rewrite E. change (pre ++ x7b :: mid ++ x7d :: post)
                 with (pre ++ (x7b :: mid) ++ x7d :: post).
    rewrite app_assoc, LastIndex_last by exact Hpost.
    rewrite len_app, len_cons. lia. }
  pose proof (len_nonneg pre). pose proof (len_nonneg mid).
  split; [rewrite E; destruct pre; reflexivity|].
  split; [lia|]. rewrite E. apply slice_middle.
Qed.

Lemma parseCommitParts_returns
      (table : Z -> Z) (order : list (gostring * gostring))
      (Unmarshal : gostring -> option main.commitParts) (raw : gostring) :
  incl order commit.allowedCommitTypes ->
  exists r,
    main.parseCommitParts table order Unmarshal raw = main.Ret r
    /\ forall parts, r = inl parts ->
         main.Description parts <> []
         /\ utf8.RuneCountInString (main.Description parts) <= 72
         /\ In (main.CommitType parts) commit.commitTypes
         /\ utf8.RuneCountInString (main.Summary parts) <= 100
         /\ utf8.RuneCountInString (main.Body parts) <= 300.
Proof.
  intros I. unfold main.parseCommitParts.
  destruct (is_empty (strings.TrimSpace raw)).
  { eexists. split; [reflexivity | discriminate]. }
  destruct ((strings.Index (strings.TrimSpace raw) (str "{") =? -1)
            || (strings.LastIndex (strings.TrimSpace raw) (str "}") =? -1)
            || (strings.Index (strings.TrimSpace raw) (str "{")
                >? strings.LastIndex (strings.TrimSpace raw) (str "}"))).
  { eexists. split; [reflexivity | discriminate]. }
  destruct (Unmarshal _) as [p|].
  2: { eexists. split; [reflexivity | discriminate]. }
  rewrite sanitizeDescription_legacy, sanitizeSummary_legacy.
  destruct (sanitizeBody_legacy (main.Body p)) as (body & -> & Cb & _).
  cbn [main.bind].
  destruct (is_empty (commit.sanitizeDescription (main.Description p))) eqn:D.
  { eexists. split; [reflexivity | discriminate]. }
  apply is_empty_false in D.
  eexists. split; [reflexivity|]. intros parts E. injection E as <-.
  cbn [main.Description main.CommitType main.Summary main.Body].
  split; [exact D|]. split; [apply sanitizeDescription_count|].
  split; [rewrite normalizeCommitType_legacy by exact I;
          now apply normaliseCommitType_in_types|].
  split; [apply sanitizeSummary_count | exact Cb].
Qed.

(** X21. The parseCommitParts of main.go never panics, and the Parts it
    returns have a description: a response whose JSON object decodes to a
    description that is empty once sanitised is refused with "model response
    missing description". The Parts returned have a commit type of the
    enumeration, a description of at most 72 runes, a summary of at most
    100 and a body of at most 300 runes in all. *)
Theorem parseCommitParts_description
        (table : Z -> Z) (order : list (gostring * gostring))
        (Unmarshal : gostring -> option main.commitParts) (raw : gostring) :
  Permutation order commit.allowedCommitTypes ->
  (exists r, main.parseCommitParts table order Unmarshal raw = main.Ret r)
  /\ (forall parts,
         main.parseCommitParts table order Unmarshal raw = main.Ret (inl parts) ->
         main.Description parts <> []
         /\ utf8.RuneCountInString (main.Description parts) <= 72
         /\ In (main.CommitType parts) commit.commitTypes
         /\ utf8.RuneCountInString (main.Summary parts) <= 100
         /\ utf8.RuneCountInString (main.Body parts) <= 300)
  /\ (forall pre mid post p,
         strings.TrimSpace raw = pre ++ x7b :: mid ++ x7d :: post ->
         ~ In x7b pre -> ~ In x7d post ->
         Unmarshal (x7b :: mid ++ [x7d]) = Some p ->
         commit.sanitizeDescription (main.Description p) = [] ->
         main.parseCommitParts table order Unmarshal raw
         = main.Ret (inr main.ErrMissingDescription)).
Proof.
  intros P.
  assert (incl order commit.allowedCommitTypes) as I
      by (intros x Hx; now apply (Permutation_in x P)).
  destruct (parseCommitParts_returns table order Unmarshal raw I) as (r & E & F).
  split; [now exists r|]. split.
  - intros parts H. rewrite H in E. injection E as <-. now apply F.
  - intros pre mid post p T Hpre Hpost U D.
    destruct (object_span _ pre mid post T Hpre Hpost) as (A & B & C).
    unfold main.parseCommitParts. rewrite A, B, C, U.
    rewrite sanitizeDescription_legacy, sanitizeSummary_legacy.
    destruct (sanitizeBody_legacy (main.Body p)) as (body & -> & _).
    cbn [main.bind]. now rewrite D.
Qed.

Lemma parseCommitParts_description_witness :
  Permutation commit.allowedCommitTypes commit.allowedCommitTypes
  /\ main.parseCommitParts Examples.identityTable commit.allowedCommitTypes
       MoreExamples.UnmarshalCommitParts
       (str "Sure: " ++ Examples.noDescriptionResponse ++ str " Done.")
     = main.Ret (inr main.ErrMissingDescription).
Proof.
  split; [reflexivity|].
  destruct (parseCommitParts_description Examples.identityTable commit.allowedCommitTypes
              MoreExamples.UnmarshalCommitParts
              (str "Sure: " ++ Examples.noDescriptionResponse ++ str " Done.")
              (Permutation_refl _)) as (_ & _ & M).
  apply (M (str "Sure: ")
           (Examples.member (str "summary") (str "logs auth events"))
           (str " Done.")
           (main.mkCommitParts [] [] (str "logs auth events") [])).
  - vm_compute. reflexivity.
  - vm_compute. intuition discriminate.
  - vm_compute. intuition discriminate.
  - vm_compute. reflexivity.
  - reflexivity.
Defined.

Lemma extractTicket_legacy_nonempty (branch : gostring) : main.extractTicket branch <> [].
Proof.
  unfold main.extractTicket.
  change (main.condenseSpaces (strings.TrimSpace branch))
    with (util.CondenseSpaces (strings.TrimSpace branch)).
  set (b := util.CondenseSpaces (strings.TrimSpace branch)).
  destruct (is_empty b) eqn:E; [discriminate|]. apply is_empty_false in E.
  destruct (negb (strings.LastIndex b (str "/") =? -1)
            && (strings.LastIndex b (str "/") <? len b - 1)) eqn:C; [|exact E].
  unfold strings.slice_from. intros H.
  assert (length (skipn (Z.to_nat (strings.LastIndex b (str "/") + 1)) b) = 0%nat) as L
      by now rewrite H.
  rewrite length_skipn in L. unfold len in C.
  destruct (LastIndex_single b x2f) as [(_ & Z0)|(pre & post & _ & _ & Z0)];
    change (str "/") with [x2f] in *; rewrite Z0 in *.
  - cbn in C. discriminate.
  - pose proof (len_nonneg pre). lia.
Qed.

(** X22. The extractTicket of internal/commit is that of main.go followed
    by the search for a ticket: it returns the ticket at the front of what
    main.go returns, or the same text when there is none. Neither returns
    the empty text. *)
Theorem extractTicket_of_main (branch : gostring) :
  commit.extractTicket branch
  = match regexp.findTicket (main.extractTicket branch) with
    | Some ticket => ticket
    | None => main.extractTicket branch
    end
  /\ main.extractTicket branch <> []
  /\ commit.extractTicket branch <> [].
Proof.
  split; [|split; [apply extractTicket_legacy_nonempty | apply extractTicket_nonempty]].
  unfold commit.extractTicket, main.extractTicket.
  change (main.condenseSpaces (strings.TrimSpace branch))
    with (util.CondenseSpaces (strings.TrimSpace branch)).
  destruct (is_empty (util.CondenseSpaces (strings.TrimSpace branch))); reflexivity.
Qed.

Lemma fallbackCommitParts_returns (table : Z -> Z) (order : list (gostring * gostring))
      (raw : gostring) :
  exists parts,
    main.fallbackCommitParts table order raw = main.Ret parts
    /\ main.Description parts <> []
    /\ main.Summary parts <> [].
Proof.
  unfold main.fallbackCommitParts.
  rewrite sanitizeDescription_legacy, sanitizeSummary_legacy. cbn [main.bind].
  destruct (sanitizeBody_legacy raw) as (body & -> & _).
  set (clean := if is_empty (commit.sanitizeDescription raw)
                then str "update project files" else commit.sanitizeDescription raw).
  assert (clean <> []) as Nc.
  { unfold clean. destruct (is_empty (commit.sanitizeDescription raw)) eqn:E;
      [discriminate | now apply is_empty_false]. }
  destruct (is_empty (commit.sanitizeSummary raw)) eqn:Es.
  - rewrite truncate_positive by lia. cbn [main.bind].
    eexists. split; [reflexivity|].
    cbn [main.Description main.Summary]. split; [exact Nc|].
    apply TruncateShorten_nonempty; [lia | exact Nc].
  - apply is_empty_false in Es. cbn [main.bind].
    eexists. split; [reflexivity|]. now split.
Qed.

Lemma formatCommitOutput_returns (table : Z -> Z) (order : list (gostring * gostring))
      (branch : gostring) (parts : main.commitParts) :
  exists description body,
    main.formatCommitOutput table order branch parts
    = main.Ret (main.extractTicket branch ++ str " ["
                ++ main.normalizeCommitType table order (main.CommitType parts)
                ++ str "] " ++ description, body)
    /\ description <> [] /\ body <> []
    /\ (main.Description parts <> [] -> description = main.Description parts).
Proof.
  unfold main.formatCommitOutput.
  set (description := if is_empty (main.Description parts)
                      then str "update project files" else main.Description parts).
  assert (description <> []) as Nd.
  { unfold description. destruct (is_empty (main.Description parts)) eqn:E;
      [discriminate | now apply is_empty_false]. }
  assert (main.Description parts <> [] -> description = main.Description parts) as Ed.
  { intros H. unfold description.
    now replace (is_empty (main.Description parts)) with false
      by (symmetry; now apply is_empty_false). }
  exists description.
  destruct (is_empty (main.Summary parts)) eqn:Es.
  - rewrite truncate_positive by lia. cbn [main.bind].
    eexists. split; [reflexivity|]. split; [exact Nd|]. split; [|exact Ed].
    destruct (is_empty (main.Body parts)) eqn:Eb.
    + apply TruncateShorten_nonempty; [lia | exact Nd].
    + now apply is_empty_false.
  - cbn [main.bind]. eexists. split; [reflexivity|]. split; [exact Nd|].
    split; [|exact Ed].
    destruct (is_empty (main.Body parts)) eqn:Eb; now apply is_empty_false.
Qed.

(** X23. What main makes of a response never panics and never stops with
    "Model returned an empty message": for every branch and every response
    there is a headline <ticket> [<type>] <description> with a description
    that is not empty, a body that is not empty, and the commit message is
    the headline, an empty line and the body. *)
Theorem main_message_composed
        (table : Z -> Z) (order : list (gostring * gostring))
        (Unmarshal : gostring -> option main.commitParts) (branch raw : gostring) :
  Permutation order commit.allowedCommitTypes ->
  exists commitType description body,
    main.main_message table order Unmarshal branch raw
    = main.Ret (main.Composed
                  (main.extractTicket branch ++ str " [" ++ commitType
                   ++ str "] " ++ description)
                  body
                  ((main.extractTicket branch ++ str " [" ++ commitType
                    ++ str "] " ++ description) ++ [x0a; x0a] ++ body))
    /\ In commitType commit.commitTypes
    /\ description <> [] /\ body <> [].
Proof.
  intros P.
  assert (incl order commit.allowedCommitTypes) as I
      by (intros x Hx; now apply (Permutation_in x P)).
  unfold main.main_message.
  destruct (parseCommitParts_returns table order Unmarshal raw I) as (r & -> & _).
  cbn [main.bind].
  assert (exists parts,
             match r with
             | inl parts => main.Ret parts
             | inr _ => main.fallbackCommitParts table order raw
             end = main.Ret parts) as (parts & ->).
  { destruct r as [parts|e]; [now exists parts|].
    destruct (fallbackCommitParts_returns table order raw) as (parts & E & _).
    now exists parts. }
  cbn [main.bind].
  destruct (formatCommitOutput_returns table order branch parts)
    as (description & body & -> & Nd & Nb & _).
  cbn [main.bind].
  exists (main.normalizeCommitType table order (main.CommitType parts)), description, body.
  assert (strings.TrimSpace
            (main.extractTicket branch ++ str " ["
             ++ main.normalizeCommitType table order (main.CommitType parts)
             ++ str "] " ++ description) <> []) as Hh.
  { change (main.extractTicket branch ++ str " ["
            ++ main.normalizeCommitType table order (main.CommitType parts)
            ++ str "] " ++ description)
      with (main.extractTicket branch
            ++ x20 :: x5b :: main.normalizeCommitType table order (main.CommitType parts)
            ++ str "] " ++ description).
    replace (main.extractTicket branch
             ++ x20 :: x5b :: main.normalizeCommitType table order (main.CommitType parts)
             ++ str "] " ++ description)
      with ((main.extractTicket branch ++ [x20])
            ++ x5b :: main.normalizeCommitType table order (main.CommitType parts)
            ++ str "] " ++ description)
      by (now rewrite <- app_assoc).
    apply TrimSpace_bracket. }
  replace (is_empty (strings.TrimSpace _)) with false
    by (symmetry; now apply is_empty_false).
  replace (is_empty body) with false by (symmetry; now apply is_empty_false).
  cbn [negb]. split; [reflexivity|].
  split; [|now split].
  rewrite normalizeCommitType_legacy by exact I. now apply normaliseCommitType_in_types.
Qed.

Lemma main_message_composed_witness :
  Permutation commit.allowedCommitTypes commit.allowedCommitTypes
  /\ exists commitType description body,
      main.main_message Examples.identityTable commit.allowedCommitTypes
                        MoreExamples.UnmarshalCommitParts (str "feature/TES-123-login")
                        (str "Sure: " ++ Examples.noDescriptionResponse ++ str " Done.")
      = main.Ret (main.Composed
                    (main.extractTicket (str "feature/TES-123-login") ++ str " ["
                     ++ commitType ++ str "] " ++ description)
                    body
                    ((main.extractTicket (str "feature/TES-123-login") ++ str " ["
                      ++ commitType ++ str "] " ++ description) ++ [x0a; x0a] ++ body))
      /\ description <> [].
Proof.
  split; [reflexivity|].
  destruct (main_message_composed Examples.identityTable commit.allowedCommitTypes
              MoreExamples.UnmarshalCommitParts (str "feature/TES-123-login")
              (str "Sure: " ++ Examples.noDescriptionResponse ++ str " Done.")
              (Permutation_refl _)) as (commitType & description & body & E & _ & N & _).
  exists commitType, description, body. split; [exact E | exact N].
Defined.

(** X24. The fallbackCommitParts of main.go never panics and builds the
    commit type, the description and the summary that FallbackParts builds;
    the two differ in the body only, which main.go cuts to 300 runes in
    all. *)
Theorem fallbackCommitParts_FallbackParts
        (table : Z -> Z) (order : list (gostring * gostring)) (raw : gostring) :
  Permutation order commit.allowedCommitTypes ->
  exists parts,
    main.fallbackCommitParts table order raw = main.Ret parts
    /\ main.CommitType parts = commit.CommitType (commit.FallbackParts table order raw)
    /\ main.Description parts = commit.Description (commit.FallbackParts table order raw)
    /\ main.Summary parts = commit.Summary (commit.FallbackParts table order raw)
    /\ utf8.RuneCountInString (main.Body parts) <= 300.
Proof.
  intros P.
  assert (incl order commit.allowedCommitTypes) as I
      by (intros x Hx; now apply (Permutation_in x P)).
  unfold main.fallbackCommitParts, commit.FallbackParts.
  rewrite sanitizeDescription_legacy, sanitizeSummary_legacy. cbn [main.bind].
  destruct (sanitizeBody_legacy raw) as (body & -> & Cb & _).
  set (clean := if is_empty (commit.sanitizeDescription raw)
                then str "update project files" else commit.sanitizeDescription raw).
  destruct (is_empty (commit.sanitizeSummary raw)) eqn:Es;
    [rewrite truncate_positive by lia|];
    cbn [main.bind]; (eexists; split; [reflexivity|]);
    cbn [main.CommitType main.Description main.Summary main.Body
         commit.CommitType commit.Description commit.Summary commit.Body];
    (split; [now apply detectCommitType_legacy|]); now repeat split.
Qed.

Lemma fallbackCommitParts_FallbackParts_witness :
  Permutation commit.allowedCommitTypes commit.allowedCommitTypes
  /\ exists parts,
      main.fallbackCommitParts Examples.identityTable commit.allowedCommitTypes
                               (str "Fix the login.")
      = main.Ret parts
      /\ main.Description parts
         = commit.Description (commit.FallbackParts Examples.identityTable
                                 commit.allowedCommitTypes (str "Fix the login.")).
Proof.
  split; [reflexivity|].
  destruct (fallbackCommitParts_FallbackParts Examples.identityTable
              commit.allowedCommitTypes (str "Fix the login.") (Permutation_refl _))
    as (parts & E & _ & D & _).
  exists parts. split; [exact E | exact D].
Defined.

(** ** The headline is one line *)

Lemma commitTypes_letters (t : gostring) (b : byte) :
  In t commit.commitTypes -> In b t -> regexp.perlSpace b = false.
Proof.
  intros Ht Hb. cbn in Ht.
  repeat (destruct Ht as [<-|Ht];
          [cbn in Hb; repeat (destruct Hb as [<-|Hb]; [reflexivity|]); destruct Hb|]).
  destruct Ht.
Qed.

Lemma findTicket_subset (segment ticket : gostring) (b : byte) :
  regexp.findTicket segment = Some ticket -> In b ticket -> In b segment.
Proof.
  intros F H. apply findTicket_spec in F as (letters & digits & rest & -> & -> & _).
  change (letters ++ x2d :: digits ++ rest) with (letters ++ (x2d :: digits) ++ rest).
  rewrite app_assoc. apply in_or_app. now left.
Qed.

Lemma extractTicket_spaces (branch : gostring) (b : byte) :
  In b (commit.extractTicket branch) -> regexp.perlSpace b = true -> b = x20.
Proof.
  intros H P.
  destruct (util.CondenseSpaces (strings.TrimSpace branch)) as [|c0 t0] eqn:C.
  - unfold commit.extractTicket in H. rewrite C in H. cbn [is_empty] in H.
    exfalso. cbn in H.
    repeat (destruct H as [<-|H]; [discriminate P|]). destruct H.
  - destruct (extractTicket_segment branch) as (segment & E & _ & S).
    { rewrite C. discriminate. }
    cbv zeta in S. rewrite E in H.
    assert (In b segment) as Hs.
    { destruct (regexp.findTicket segment) as [ticket|] eqn:F;
        [now apply (findTicket_subset segment ticket) | exact H]. }
    apply (CondenseSpaces_spaces (strings.TrimSpace branch)); [|exact P].
    destruct S as [[_ ->]|[(pre & -> & _)|[_ ->]]]; try exact Hs.
    apply in_or_app. right. now right.
Qed.

Lemma resolvedDescription_spaces (parts : commit.Parts) (b : byte) :
  In b (Spec.resolvedDescription parts) -> regexp.perlSpace b = true -> b = x20.
Proof.
  unfold Spec.resolvedDescription.
  destruct (is_empty (commit.sanitizeDescription (commit.Description parts)));
    cbn [negb]; [|apply sanitizeDescription_spaces].
  destruct (is_empty (commit.sanitizeSummary (commit.Summary parts)));
    cbn [negb]; [|apply sanitizeSummary_spaces].
  intros H P. cbn in H.
  repeat (destruct H as [<-|H]; [reflexivity || discriminate P|]). destruct H.
Qed.

(** X25. The headline that BuildMessage returns is one line: it holds no
    newline, tab, form feed or carriage return, whatever the branch and the
    Parts hold; the only white space of the class \s in it is the space. *)
Theorem BuildMessage_headline_one_line
        (table : Z -> Z) (order : list (gostring * gostring))
        (branch : gostring) (parts : commit.Parts) (b : byte) :
  Permutation order commit.allowedCommitTypes ->
  In b (commit.Headline (commit.BuildMessage table order branch parts)) ->
  regexp.perlSpace b = true -> b = x20.
Proof.
  intros P H S. rewrite BuildMessage_headline_eq in H.
  apply TrimSpace_subset in H.
  assert (In (commit.normaliseCommitType table order (commit.CommitType parts))
             commit.commitTypes) as T.
  { apply normaliseCommitType_in_types. intros x Hx. now apply (Permutation_in x P). }
  repeat (apply in_app_or in H as [H|H]).
  - now apply (extractTicket_spaces branch).
  - cbn in H. destruct H as [<-|[]]. reflexivity.
  - cbn in H. destruct H as [<-|[]]. discriminate S.
  - rewrite (commitTypes_letters _ b T H) in S. discriminate S.
  - cbn in H. destruct H as [<-|[]]. discriminate S.
  - cbn in H. destruct H as [<-|[]]. reflexivity.
  - now apply (resolvedDescription_spaces parts).
Qed.

Lemma BuildMessage_headline_one_line_witness :
  Permutation commit.allowedCommitTypes commit.allowedCommitTypes
  /\ In x20 (commit.Headline
               (commit.BuildMessage Examples.identityTable commit.allowedCommitTypes
                  (str "feature/TES-123-login")
                  (commit.mkParts (str "feat") (str "add" ++ [x0a] ++ str "hook") [] [])))
  /\ regexp.perlSpace x20 = true
  /\ ~ In x0a (commit.Headline
                 (commit.BuildMessage Examples.identityTable commit.allowedCommitTypes
                    (str "feature/TES-123-login")
                    (commit.mkParts (str "feat") (str "add" ++ [x0a] ++ str "hook") [] []))).
Proof.
  split; [reflexivity|].
  split; [vm_compute; tauto|]. split; [reflexivity|].
  intros H.
  pose proof (BuildMessage_headline_one_line Examples.identityTable
                commit.allowedCommitTypes (str "feature/TES-123-login")
                (commit.mkParts (str "feat") (str "add" ++ [x0a] ++ str "hook") [] [])
                x0a (Permutation_refl _) H eq_refl) as E.
  discriminate E.
Defined.

(** ** The rune at the end of a text that was rewritten *)

Lemma RuneStart_spec (b : byte) :
  strings.RuneStart b = negb ((0x80 <=? b2z b) && (b2z b <? 0xC0)).
Proof. destruct b; reflexivity. Qed.

(** A text that decodes as one rune of two bytes or more is a leading byte
    followed by continuation bytes. *)
Lemma DecodeRune_whole (e : gostring) (r : Z) :
  strings.DecodeRune e = (r, length e) -> (2 <= length e)%nat ->
  exists p0 rest,
    e = p0 :: rest /\ 0xC2 <= b2z p0 /\ (length rest <= 3)%nat
    /\ Forall (fun b => 0x80 <= b2z b < 0xC0) rest.
Proof.
  intros D L. destruct e as [|p0 t]; [cbn in L; lia|].
  exists p0, t. split; [reflexivity|]. cbn [length] in L.
  unfold strings.DecodeRune in D.
  destruct (utf8.first p0) as [| |sz lo hi] eqn:F;
    try (apply (f_equal snd) in D; cbn [snd length] in *; lia).
  apply first_seq in F as (R0 & Rlo & Rhi & _).
  split; [lia|].
  destruct t as [|p1 t1]; [apply (f_equal snd) in D; cbn [snd length] in *; lia|].
  destruct (utf8.within lo hi p1) eqn:W1; cbn [negb] in D;
    [|apply (f_equal snd) in D; cbn [snd length] in *; lia].
  apply within_spec in W1.
  destruct (sz <=? 2)%nat.
  { apply (f_equal snd) in D. cbn [snd length] in *. destruct t1; [|cbn [length] in *; lia].
    split; [cbn; lia|]. repeat constructor; lia. }
  destruct t1 as [|p2 t2]; [apply (f_equal snd) in D; cbn [snd length] in *; lia|].
  destruct (utf8.within utf8.locb utf8.hicb p2) eqn:W2; cbn [negb] in D;
    [|apply (f_equal snd) in D; cbn [snd length] in *; lia].
  apply within_spec in W2. unfold utf8.locb, utf8.hicb in W2.
  destruct (sz <=? 3)%nat.
  { apply (f_equal snd) in D. cbn [snd length] in *. destruct t2; [|cbn [length] in *; lia].
    split; [cbn; lia|]. repeat constructor; lia. }
  destruct t2 as [|p3 t3]; [apply (f_equal snd) in D; cbn [snd length] in *; lia|].
  destruct (utf8.within utf8.locb utf8.hicb p3) eqn:W3; cbn [negb] in D;
    [|apply (f_equal snd) in D; cbn [snd length] in *; lia].
  apply within_spec in W3. unfold utf8.locb, utf8.hicb in W3.
  apply (f_equal snd) in D. cbn [snd length] in *. destruct t3; [|cbn [length] in *; lia].
  split; [cbn; lia|]. repeat constructor; lia.
Qed.

Lemma DecodeLastRune_ascii (x : gostring) (b : byte) :
  b2z b < 0x80 -> strings.DecodeLastRune (x ++ [b]) = (b2z b, 1%nat).
Proof.
  intros H. unfold strings.DecodeLastRune. rewrite rev_app_distr. cbn [rev app].
  unfold utf8.RuneSelf. now replace (b2z b <? 128) with true by lia.
Qed.

(** A text that ends with the bytes of one whole rune has that rune as its
    last. *)
Lemma DecodeLastRune_whole (x e : gostring) (r : Z) :
  strings.DecodeRune e = (r, length e) -> (2 <= length e)%nat ->
  strings.DecodeLastRune (x ++ e) = (r, length e).
Proof.
  intros D L.
  destruct (DecodeRune_whole e r D L) as (p0 & rest & -> & H0 & Lr & Fr).
  assert (strings.RuneStart p0 = true) as S0.
  { rewrite RuneStart_spec. pose proof (b2z_range p0). lia. }
  assert (forall b, 0x80 <= b2z b < 0xC0 -> strings.RuneStart b = false) as Sc.
  { intros b Hb. rewrite RuneStart_spec. lia. }
  unfold strings.DecodeLastRune.
  destruct rest as [|p1 [|p2 [|p3 [|p4 rest]]]]; [cbn in L; lia | | | |cbn in Lr; lia].
  - inversion Fr as [|? ? H1 _]; subst.
    rewrite rev_app_distr. cbn [rev app].
    unfold utf8.RuneSelf. replace (b2z p1 <? 128) with false by lia.
    cbn [strings.lastStart]. rewrite S0.
    rewrite length_app. cbn [length].
    replace (length x + 2 - 1 - 1)%nat with (length x) by lia.
    rewrite skipn_app, skipn_all, Nat.sub_diag. cbn [skipn app].
    rewrite D. cbn [length]. now rewrite Nat.eqb_refl.
  - inversion Fr as [|? ? H1 Fr']; subst. inversion Fr' as [|? ? H2 _]; subst.
    rewrite rev_app_distr. cbn [rev app].
    unfold utf8.RuneSelf. replace (b2z p2 <? 128) with false by lia.
    cbn [strings.lastStart]. rewrite (Sc p1 H1), S0.
    rewrite length_app. cbn [length].
    replace (length x + 3 - 1 - 2)%nat with (length x) by lia.
    rewrite skipn_app, skipn_all, Nat.sub_diag. cbn [skipn app].
    rewrite D. cbn [length]. now rewrite Nat.eqb_refl.
  - inversion Fr as [|? ? H1 Fr']; subst. inversion Fr' as [|? ? H2 Fr'']; subst.
    inversion Fr'' as [|? ? H3 _]; subst.
    rewrite rev_app_distr. cbn [rev app].
    unfold utf8.RuneSelf. replace (b2z p3 <? 128) with false by lia.
    cbn [strings.lastStart]. rewrite (Sc p2 H2), (Sc p1 H1), S0.
    rewrite length_app. cbn [length].
    replace (length x + 4 - 1 - 3)%nat with (length x) by lia.
    rewrite skipn_app, skipn_all, Nat.sub_diag. cbn [skipn app].
    rewrite D. cbn [length]. now rewrite Nat.eqb_refl.
Qed.

Lemma endsNonSpace_ascii (x : gostring) (b : byte) :
  b2z b < 0x80 -> (endsNonSpace (x ++ [b]) <-> unicode.IsSpace (b2z b) = false).
Proof.
  intros H. unfold endsNonSpace. rewrite DecodeLastRune_ascii by exact H. reflexivity.
Qed.

Lemma endsNonSpace_whole (x e : gostring) (r : Z) :
  strings.DecodeRune e = (r, length e) -> (2 <= length e)%nat ->
  (endsNonSpace (x ++ e) <-> unicode.IsSpace r = false).
Proof.
  intros D L. unfold endsNonSpace. rewrite (DecodeLastRune_whole x e r D L). reflexivity.
Qed.

Lemma DecodeRune_single (b : byte) :
  0x80 <= b2z b -> strings.DecodeRune [b] = (utf8.RuneError, 1%nat).
Proof.
  intros H. unfold strings.DecodeRune.
  destruct (utf8.first b) eqn:F; try reflexivity.
  apply first_ascii in F. lia.
Qed.

(** A text ends with no white space when its last byte, if ASCII, is none,
    and no whole rune of several bytes at its end is one. *)
Lemma endsNonSpace_intro (y : gostring) :
  (forall x b, y = x ++ [b] -> b2z b < 0x80 -> unicode.IsSpace (b2z b) = false) ->
  (forall x e r, y = x ++ e -> (2 <= length e)%nat ->
                 strings.DecodeRune e = (r, length e) -> unicode.IsSpace r = false) ->
  endsNonSpace y.
Proof.
  intros A W. unfold endsNonSpace.
  destruct (unicode.IsSpace (fst (strings.DecodeLastRune y))) eqn:S; [|reflexivity].
  destruct y as [|y0 y']; [discriminate|].
  set (y := y0 :: y') in *.
  assert (y <> []) as Ny by discriminate.
  pose proof (DecodeLastRune_width y Ny) as Wd.
  pose proof (DecodeLastRune_space_tail y S) as T.
  destruct (strings.DecodeLastRune y) as [r w]. cbn [fst snd] in *.
  set (e := skipn (length y - w) y) in *.
  assert (y = firstn (length y - w) y ++ e) as E
      by (unfold e; now rewrite firstn_skipn).
  assert (length e = w) as Le by (unfold e; rewrite length_skipn; lia).
  destruct (Nat.eq_dec w 1) as [->|N1].
  - destruct e as [|b [|b2 e']]; try discriminate.
    destruct (Z_lt_ge_dec (b2z b) 0x80) as [Hb|Hb].
    + rewrite DecodeRune_ascii in T by exact Hb. injection T as <-.
      pose proof (A _ b E Hb). congruence.
    + rewrite DecodeRune_single in T by lia. injection T as <-. discriminate.
  - assert (unicode.IsSpace r = false) as Z0
        by (apply (W _ e r E); [lia | now rewrite Le]).
    congruence.
Qed.

Lemma last_cases {A : Type} (l : list A) : l = [] \/ exists l0 z, l = l0 ++ [z].
Proof.
  induction l as [|a l [->|(l0 & z & ->)]]; [now left | right | right].
  - now exists [], a.
  - now exists (a :: l0), z.
Qed.

Lemma whole_high (e : gostring) (r : Z) :
  strings.DecodeRune e = (r, length e) -> (2 <= length e)%nat ->
  Forall (fun z => 0x80 <= b2z z) e.
Proof.
  intros D L. destruct (DecodeRune_whole e r D L) as (p0 & rest & -> & H0 & _ & F).
  constructor; [lia|]. eapply Forall_impl; [|exact F]. cbn. intros; lia.
Qed.

(** Bytes of multi-byte sequences at the end of a text lie after its last
    ASCII byte. *)
Lemma high_suffix_ascii (e : gostring) :
  Forall (fun z => 0x80 <= b2z z) e ->
  forall x l c' b,
    x ++ b :: l = c' ++ e -> b2z b < 0x80 -> exists l', l = l' ++ e.
Proof.
  induction e as [|h e0 IH] using rev_ind; intros F x l c' b E Hb.
  - exists l. now rewrite app_nil_r.
  - apply Forall_app in F as [F0 Fh]. inversion Fh as [|? ? Hh _]; subst.
    destruct (last_cases l) as [->|(l0 & z & ->)].
    + rewrite app_assoc in E.
      change (x ++ [b]) with (x ++ [b]) in E.
      apply app_inj_tail in E as [_ ->]. lia.
    + replace (x ++ b :: l0 ++ [z]) with ((x ++ b :: l0) ++ [z]) in E
        by (now rewrite <- app_assoc).
      rewrite app_assoc in E. apply app_inj_tail in E as [E ->].
      destruct (IH F0 x l0 c' b E Hb) as (l' & ->).
      exists l'. now rewrite app_assoc.
Qed.

Lemma app_ascii_ends (x l : gostring) (b : byte) :
  b2z b < 0x80 -> l <> [] -> endsNonSpace l -> endsNonSpace (x ++ b :: l).
Proof.
  intros Hb Nl El. apply endsNonSpace_intro.
  - intros x' z E Hz.
    destruct (last_cases l) as [->|(l0 & z0 & ->)]; [congruence|].
    replace (x ++ b :: l0 ++ [z0]) with ((x ++ b :: l0) ++ [z0]) in E
      by (now rewrite <- app_assoc).
    apply app_inj_tail in E as [_ ->].
    now apply (endsNonSpace_ascii l0 z Hz).
  - intros x' e r E L D.
    destruct (high_suffix_ascii e (whole_high e r D L) x l x' b E Hb) as (l' & ->).
    now apply (endsNonSpace_whole l' e r D L).
Qed.

Lemma runState_app (a : bool) (x y : gostring) :
  runState a (x ++ y) = runState (runState a x) y.
Proof. unfold runState. apply fold_left_app. Qed.

Lemma replaceSpaceRuns_app (x y : gostring) :
  forall a,
    regexp.replaceSpaceRuns a (x ++ y)
    = regexp.replaceSpaceRuns a x ++ regexp.replaceSpaceRuns (runState a x) y.
Proof.
  induction x as [|b t IH]; intros a; [reflexivity|].
  cbn [app regexp.replaceSpaceRuns]. change (runState a (b :: t))
    with (runState (regexp.perlSpace b) t).
  destruct (regexp.perlSpace b).
  - destruct a; rewrite IH; reflexivity.
  - rewrite IH. reflexivity.
Qed.

Lemma replaceSpaceRuns_ends_space (t : gostring) :
  runState false t = true -> exists x, regexp.replaceSpaceRuns false t = x ++ [x20].
Proof.
  induction t as [|b1 t1 IH] using rev_ind; [discriminate|].
  rewrite runState_app. cbn [runState fold_left]. intros P.
  rewrite replaceSpaceRuns_app. cbn [regexp.replaceSpaceRuns]. rewrite P.
  destruct (runState false t1) eqn:S1.
  - destruct (IH eq_refl) as (x & ->). exists x. now rewrite app_nil_r.
  - now exists (regexp.replaceSpaceRuns false t1).
Qed.

Lemma replaceSpaceRuns_suffix_high (e : gostring) :
  Forall (fun z => 0x80 <= b2z z) e ->
  forall t c', regexp.replaceSpaceRuns false t = c' ++ e -> exists t', t = t' ++ e.
Proof.
  induction e as [|h e0 IH] using rev_ind; intros F t c' E.
  - exists t. now rewrite app_nil_r.
  - apply Forall_app in F as [F0 Fh]. inversion Fh as [|? ? Hh _]; subst.
    destruct (last_cases t) as [->|(t1 & b1 & ->)].
    + cbn in E. symmetry in E. apply app_eq_nil in E as [_ E].
      apply app_eq_nil in E as [_ E]. discriminate.
    + rewrite replaceSpaceRuns_app in E. cbn [regexp.replaceSpaceRuns] in E.
      rewrite app_assoc in E.
      destruct (regexp.perlSpace b1) eqn:P.
      * exfalso. destruct (runState false t1) eqn:S1.
        -- destruct (replaceSpaceRuns_ends_space t1 S1) as (x & X).
           rewrite X, app_nil_r in E. apply app_inj_tail in E as [_ <-]. cbn in Hh. lia.
        -- apply app_inj_tail in E as [_ <-]. cbn in Hh. lia.
      * apply app_inj_tail in E as [E ->].
        destruct (IH F0 t1 c' E) as (t' & ->).
        exists t'. now rewrite app_assoc.
Qed.

Lemma perlSpace_IsSpace (b : byte) :
  regexp.perlSpace b = true -> b2z b < 0x80 /\ unicode.IsSpace (b2z b) = true.
Proof.
  intros P. pose proof (b2z_range b). unfold regexp.perlSpace in P.
  split; [lia|]. unfold unicode.IsSpace.
  replace ((0 <=? b2z b) && (b2z b <=? 0xFF)) with true by lia. lia.
Qed.

Lemma CondenseSpaces_ends (t : gostring) :
  endsNonSpace t -> endsNonSpace (util.CondenseSpaces t).
Proof.
  intros Et. unfold util.CondenseSpaces. apply endsNonSpace_intro.
  - intros x b E Hb.
    destruct (last_cases t) as [->|(t1 & b1 & ->)];
      [cbn in E; symmetry in E; apply app_eq_nil in E as [_ E]; discriminate|].
    rewrite replaceSpaceRuns_app in E. cbn [regexp.replaceSpaceRuns] in E.
    destruct (regexp.perlSpace b1) eqn:P.
    + apply perlSpace_IsSpace in P as [P1 P2].
      apply (endsNonSpace_ascii t1 b1 P1) in Et. congruence.
    + apply app_inj_tail in E as [_ ->].
      now apply (endsNonSpace_ascii t1 b Hb).
  - intros x e r E L D.
    destruct (replaceSpaceRuns_suffix_high e (whole_high e r D L) t x E) as (t' & ->).
    now apply (endsNonSpace_whole t' e r D L).
Qed.

Lemma TruncateShorten_ends (s : gostring) (n : Z) :
  endsNonSpace s -> endsNonSpace (util.TruncateShorten s n).
Proof.
  intros H.
  destruct (Z_le_gt_dec n 0) as [N|N].
  { rewrite TruncateShorten_nonpositive by exact N. apply endsNonSpace_nil. }
  destruct (Z_le_gt_dec (utf8.RuneCountInString s) n) as [C|C].
  { now rewrite TruncateShorten_short. }
  rewrite TruncateShorten_long by lia.
  apply (endsNonSpace_whole _ util.ellipsis 0x2026); [reflexivity | cbn; lia | reflexivity].
Qed.

(** ** Sanitising twice *)

Lemma isCondensed_intro (s : gostring) :
  (forall b, In b s -> regexp.perlSpace b = true -> b = x20) ->
  (forall pre post, s <> pre ++ x20 :: x20 :: post) ->
  forall a, (a = true -> forall t, s <> x20 :: t) -> isCondensed a s = true.
Proof.
  induction s as [|b t IH]; intros Sp Nd a Ha; [reflexivity|].
  cbn [isCondensed]. destruct (regexp.perlSpace b) eqn:P.
  - assert (b = x20) as -> by (apply Sp; [now left | exact P]).
    cbn [Byte.eqb]. rewrite byte_eqb_refl. cbn [andb].
    destruct a; [exfalso; now apply (Ha eq_refl t)|]. cbn [negb andb].
    apply IH.
    + intros c Hc. apply Sp. now right.
    + intros pre post E. apply (Nd (x20 :: pre) post). now rewrite E.
    + intros _ t' E. apply (Nd [] t'). now rewrite E.
  - apply IH.
    + intros c Hc. apply Sp. now right.
    + intros pre post E. apply (Nd (b :: pre) post). now rewrite E.
    + discriminate.
Qed.

Lemma runes_double_space (A B : list Z) :
  forall s, utf8.runes s = A ++ 0x20 :: 0x20 :: B ->
            exists pre post, s = pre ++ x20 :: x20 :: post.
Proof.
  assert (forall s rs, utf8.runes s = 0x20 :: rs ->
                       exists t, s = x20 :: t /\ utf8.runes t = rs) as Hd.
  { intros [|b t] rs E; [discriminate|].
    rewrite runes_step in E.
    remember (strings.DecodeRune (b :: t)) as d eqn:Ed.
    injection E as E1 E2.
    assert (fst d < 0x80) as Lt by lia. rewrite Ed in Lt.
    pose proof (DecodeRune_ascii_inv b t Lt) as Eb. rewrite <- Ed, E1 in Eb.
    assert (b = x20) as -> by (apply b2z_inj; now rewrite <- Eb).
    exists t. split; [reflexivity|].
    rewrite DecodeRune_ascii in Ed by (cbn; lia). subst d. exact E2. }
  induction A as [|r A IH]; intros s E.
  - cbn [app] in E. destruct (Hd s _ E) as (t & -> & E').
    destruct (Hd t _ E') as (t' & -> & _). now exists [], t'.
  - destruct s as [|b t]; [discriminate|].
    rewrite runes_step in E.
    remember (strings.DecodeRune (b :: t)) as d eqn:Ed.
    injection E as _ E. subst d.
    destruct (IH _ E) as (pre & post & E').
    exists (firstn (snd (strings.DecodeRune (b :: t))) (b :: t) ++ pre), post.
    rewrite <- app_assoc, <- E'. now rewrite firstn_skipn.
Qed.

Lemma runes_of_double_space (pre post : gostring) :
  utf8.runes (pre ++ x20 :: x20 :: post)
  = utf8.runes pre ++ 0x20 :: 0x20 :: utf8.runes post.
Proof.
  rewrite runes_app_ascii by (cbn; lia).
  rewrite runes_step, DecodeRune_ascii by (cbn; lia). cbn [fst snd skipn].
  rewrite runes_step, DecodeRune_ascii by (cbn; lia). reflexivity.
Qed.

Lemma double_before_last (A B F : list Z) (e : Z) :
  e <> 0x20 -> A ++ 0x20 :: 0x20 :: B = F ++ [e] ->
  exists B', F = A ++ 0x20 :: 0x20 :: B'.
Proof.
  intros Ne. revert F. induction A as [|a A IH]; intros F E.
  - destruct F as [|f1 [|f2 F']].
    + cbn in E. discriminate.
    + cbn in E. injection E as _ E _. congruence.
    + cbn in E. injection E as <- <- _. now exists F'.
  - destruct F as [|f F'].
    + cbn in E. injection E as _ E. destruct A; discriminate.
    + cbn in E. injection E as <- E. destruct (IH F' E) as (B' & ->). now exists B'.
Qed.

Lemma TruncateShorten_condensed (c : gostring) (n : Z) :
  isCondensed false c = true -> isCondensed false (util.TruncateShorten c n) = true.
Proof.
  intros C.
  destruct (Z_le_gt_dec n 0) as [N|N].
  { now rewrite TruncateShorten_nonpositive. }
  destruct (Z_le_gt_dec (utf8.RuneCountInString c) n) as [L|L].
  { now rewrite TruncateShorten_short. }
  apply isCondensed_intro; [| |discriminate].
  - apply TruncateShorten_spaces. now apply (isCondensed_spaces c false).
  - intros pre post E.
    pose proof (TruncateShorten_long_runes c n ltac:(lia)) as R.
    rewrite E, runes_of_double_space in R.
    destruct (double_before_last _ _ _ 0x2026 ltac:(lia) R) as (B' & F).
    assert (utf8.runes c
            = utf8.runes pre ++ 0x20 :: 0x20 :: B'
                ++ skipn (Z.to_nat (n - 1)) (utf8.runes c)) as Rc.
    { rewrite <- (firstn_skipn (Z.to_nat (n - 1)) (utf8.runes c)) at 1.
      rewrite F, <- app_assoc. reflexivity. }
    destruct (runes_double_space _ _ c Rc) as (pre' & post' & E').
    now apply (isCondensed_no_double c false C pre' post').
Qed.

Lemma TruncateShorten_exact (c : gostring) (n : Z) :
  0 < n < utf8.RuneCountInString c ->
  utf8.RuneCountInString (util.TruncateShorten c n) = n.
Proof.
  intros H. unfold utf8.RuneCountInString in *.
  rewrite TruncateShorten_long_runes by exact H.
  rewrite length_app, length_firstn. cbn [length]. lia.
Qed.

(** The loop body of sanitizeBody, and sanitizeSummary, change nothing in
    what they returned. *)
Lemma sanitizeLine_fixed (line : gostring) :
  commit.sanitizeLine (commit.sanitizeLine line) = commit.sanitizeLine line.
Proof.
  assert (forall out,
             isCondensed false out = true ->
             Z.of_nat (length (utf8.runes out)) <= 300 ->
             commit.sanitizeLine out = out) as Fix.
  { intros out C L. unfold commit.sanitizeLine.
    assert (util.CondenseSpaces out = out) as ->
        by (unfold util.CondenseSpaces; now apply replaceSpaceRuns_fixed).
    now replace (Z.of_nat (length (utf8.runes out)) >? 300) with false by lia. }
  apply Fix; unfold commit.sanitizeLine;
    pose proof (replaceSpaceRuns_condensed line false) as C;
    fold (util.CondenseSpaces line) in C;
    destruct (Z.of_nat (length (utf8.runes (util.CondenseSpaces line))) >? 300) eqn:L.
  - now apply TruncateShorten_condensed.
  - exact C.
  - pose proof (TruncateShorten_exact (util.CondenseSpaces line) 300) as X.
    unfold utf8.RuneCountInString in X. rewrite X; lia.
  - lia.
Qed.

Lemma sanitizeLine_ends (line : gostring) :
  endsNonSpace line -> endsNonSpace (commit.sanitizeLine line).
Proof.
  intros H. unfold commit.sanitizeLine.
  pose proof (CondenseSpaces_ends line H) as E.
  destruct (Z.of_nat (length (utf8.runes (util.CondenseSpaces line))) >? 300);
    [now apply TruncateShorten_ends | exact E].
Qed.

Lemma sanitizeSummary_ends (s : gostring) : endsNonSpace (commit.sanitizeSummary s).
Proof.
  unfold commit.sanitizeSummary.
  pose proof (CondenseSpaces_ends _ (proj2 (TrimSpace_starts_ends s))) as E.
  destruct (is_empty (util.CondenseSpaces (strings.TrimSpace s))); [apply endsNonSpace_nil|].
  destruct (Z.of_nat (length (utf8.runes (util.CondenseSpaces (strings.TrimSpace s)))) >? 100);
    [now apply TruncateShorten_ends | exact E].
Qed.

Lemma sanitizeSummary_fixed (s : gostring) :
  commit.sanitizeSummary (commit.sanitizeSummary s) = commit.sanitizeSummary s.
Proof.
  pose proof (sanitizeSummary_starts s) as St.
  pose proof (sanitizeSummary_ends s) as En.
  pose proof (sanitizeSummary_count s) as Ct.
  assert (isCondensed false (commit.sanitizeSummary s) = true) as C.
  { unfold commit.sanitizeSummary.
    destruct (is_empty (util.CondenseSpaces (strings.TrimSpace s))); [reflexivity|].
    destruct (Z.of_nat (length (utf8.runes (util.CondenseSpaces (strings.TrimSpace s)))) >? 100).
    - apply TruncateShorten_condensed. apply replaceSpaceRuns_condensed.
    - apply replaceSpaceRuns_condensed. }
  revert St En Ct C. generalize (commit.sanitizeSummary s). intros out St En Ct C.
  unfold commit.sanitizeSummary.
  rewrite (TrimSpace_fixed out St En).
  assert (util.CondenseSpaces out = out) as ->
      by (unfold util.CondenseSpaces; now apply replaceSpaceRuns_fixed).
  destruct out as [|b t]; [reflexivity|]. cbn [is_empty].
  unfold utf8.RuneCountInString in Ct.
  now replace (Z.of_nat (length (utf8.runes (b :: t))) >? 100) with false by lia.
Qed.

Lemma ReplaceCRLF_id (s : gostring) : ~ In x0d s -> strings.ReplaceCRLF s = s.
Proof.
  remember (length s) as n eqn:Hn. revert s Hn.
  induction n as [n IH] using lt_wf_ind. intros s Hn H.
  destruct s as [|b [|b1 t1]]; [reflexivity | reflexivity |].
  rewrite ReplaceCRLF_step.
  destruct (Byte.eqb b x0d) eqn:E.
  { apply byte_eqb_eq in E. subst b. exfalso. apply H. now left. }
  cbn [andb]. f_equal. eapply IH; [|reflexivity|].
  - subst n. cbn. lia.
  - intros Hin. apply H. now right.
Qed.

Lemma In_Join (lines : list gostring) (sep : gostring) (b : byte) :
  In b (strings.Join lines sep) -> In b sep \/ exists line, In line lines /\ In b line.
Proof.
  induction lines as [|l [|l2 rest] IH]; [intros [] | |].
  - intros H. right. exists l. split; [now left | exact H].
  - change (strings.Join (l :: l2 :: rest) sep)
      with (l ++ sep ++ strings.Join (l2 :: rest) sep).
    intros H. apply in_app_or in H as [H|H]; [right; exists l; split; [now left | exact H]|].
    apply in_app_or in H as [H|H]; [now left|].
    destruct (IH H) as [S|(line & Hl & Hb)]; [now left|].
    right. exists line. split; [now right | exact Hb].
Qed.

Lemma Join_ends (lines : list gostring) :
  lines <> [] ->
  Forall (fun line => line <> [] /\ endsNonSpace line) lines ->
  strings.Join lines [x0a] <> [] /\ endsNonSpace (strings.Join lines [x0a]).
Proof.
  induction lines as [|l [|l2 rest] IH]; intros N F; [congruence | |].
  - inversion F as [|? ? [Hl El] _]; subst. now split.
  - inversion F as [|? ? [Hl El] F']; subst.
    destruct (IH ltac:(discriminate) F') as [Nj Ej].
    change (strings.Join (l :: l2 :: rest) [x0a])
      with (l ++ x0a :: strings.Join (l2 :: rest) [x0a]).
    split.
    + intros E. apply app_eq_nil in E as [E _]. contradiction.
    + apply app_ascii_ends; [cbn; lia | exact Nj | exact Ej].
Qed.

Lemma Join_starts (lines : list gostring) :
  lines <> [] ->
  Forall (fun line => line <> [] /\ startsNonSpace line) lines ->
  startsNonSpace (strings.Join lines [x0a]).
Proof.
  intros N F. destruct lines as [|l rest]; [congruence|].
  inversion F as [|? ? [Hl Sl] _]; subst. now apply Join_cons_starts.
Qed.

Lemma filter_all {A : Type} (f : A -> bool) (l : list A) :
  (forall x, In x l -> f x = true) -> filter f l = l.
Proof.
  induction l as [|a l IH]; intros H; [reflexivity|].
  cbn [filter]. rewrite (H a (or_introl eq_refl)). f_equal.
  apply IH. intros x Hx. apply H. now right.
Qed.

Lemma map_fixed {A : Type} (f : A -> A) (l : list A) :
  (forall x, In x l -> f x = x) -> map f l = l.
Proof.
  induction l as [|a l IH]; intros H; [reflexivity|].
  cbn [map]. rewrite (H a (or_introl eq_refl)). f_equal.
  apply IH. intros x Hx. apply H. now right.
Qed.

(** A body of lines that are already sanitised is left as it is. *)
Lemma sanitizeBody_of_lines (lines : list gostring) (summary : gostring) :
  lines <> [] ->
  (forall line, In line lines ->
                line <> [] /\ startsNonSpace line /\ endsNonSpace line
                /\ ~ In x0a line /\ ~ In x0d line /\ commit.sanitizeLine line = line) ->
  commit.sanitizeBody (strings.Join lines [x0a]) summary = strings.Join lines [x0a].
Proof.
  intros N H.
  set (B := strings.Join lines [x0a]).
  assert (B <> [] /\ endsNonSpace B) as [NB EB].
  { apply Join_ends; [exact N|]. apply Forall_forall. intros l Hl.
    destruct (H l Hl) as (A1 & _ & A3 & _). now split. }
  assert (startsNonSpace B) as SB.
  { apply Join_starts; [exact N|]. apply Forall_forall. intros l Hl.
    destruct (H l Hl) as (A1 & A2 & _). now split. }
  assert (~ In x0d B) as RB.
  { intros Hin. apply In_Join in Hin as [S|(l & Hl & Hb)].
    - cbn in S. destruct S as [S|[]]. discriminate.
    - destruct (H l Hl) as (_ & _ & _ & _ & A5 & _). contradiction. }
  rewrite sanitizeBody_Join. rewrite (TrimSpace_fixed B SB EB).
  replace (is_empty B) with false by (symmetry; now apply is_empty_false).
  unfold util.TrimLines.
  replace (is_empty B) with false by (symmetry; now apply is_empty_false).
  rewrite (ReplaceCRLF_id B RB). unfold B.
  rewrite SplitByte_Join; [|exact N|].
  2: { apply Forall_forall. intros l Hl. now destruct (H l Hl) as (_ & _ & _ & A4 & _). }
  rewrite (map_fixed strings.TrimSpace).
  2: { intros l Hl. destruct (H l Hl) as (_ & A2 & A3 & _). now apply TrimSpace_fixed. }
  rewrite filter_all.
  2: { intros l Hl. destruct (H l Hl) as (A1 & _).
       now replace (is_empty l) with false by (symmetry; now apply is_empty_false). }
  rewrite (map_fixed commit.sanitizeLine); [reflexivity|].
  intros l Hl. now destruct (H l Hl) as (_ & _ & _ & _ & _ & A6).
Qed.

Lemma sanitizeBody_fixed (body summary summary' : gostring) :
  commit.sanitizeBody body summary <> [] ->
  commit.sanitizeBody (commit.sanitizeBody body summary) summary'
  = commit.sanitizeBody body summary.
Proof.
  intros N. rewrite (sanitizeBody_Join body summary) in *.
  set (text := if is_empty (strings.TrimSpace body) then summary
               else strings.TrimSpace body) in *.
  apply sanitizeBody_of_lines.
  - intros E. rewrite E in N. now apply N.
  - intros line H. apply in_map_iff in H as (l0 & <- & H0).
    apply TrimLines_line in H0 as (N0 & _ & T0).
    assert (startsNonSpace l0 /\ endsNonSpace l0) as [S0 E0]
        by (rewrite <- T0; apply TrimSpace_starts_ends).
    destruct (sanitizeLine_starts l0 N0 S0) as [N1 S1].
    split; [exact N1|]. split; [exact S1|]. split; [now apply sanitizeLine_ends|].
    split; [apply sanitizeLine_no_newline|]. split; [|apply sanitizeLine_fixed].
    intros Hin. apply sanitizeLine_spaces in Hin; [discriminate | reflexivity].
Qed.

(** X26. Sanitising twice. sanitizeSummary changes nothing in a summary it
    returned, and such a summary has no white space around it; sanitizeBody
    changes nothing in a body it returned, when there is one, whatever the
    summary given with it. The description is not so: of "a ." the
    sanitised description is "a " and of that it is "a". *)
Theorem sanitize_twice (s body summary summary' : gostring) :
  commit.sanitizeSummary (commit.sanitizeSummary s) = commit.sanitizeSummary s
  /\ strings.TrimSpace (commit.sanitizeSummary s) = commit.sanitizeSummary s
  /\ (commit.sanitizeBody body summary <> [] ->
      commit.sanitizeBody (commit.sanitizeBody body summary) summary'
      = commit.sanitizeBody body summary)
  /\ commit.sanitizeDescription (str "a .") = str "a "
  /\ commit.sanitizeDescription (str "a ") = str "a".
Proof.
  split; [apply sanitizeSummary_fixed|].
  split; [apply TrimSpace_fixed; [apply sanitizeSummary_starts | apply sanitizeSummary_ends]|].
  split; [apply sanitizeBody_fixed|]. split; reflexivity.
Qed.

Lemma sanitize_twice_witness :
  commit.sanitizeBody (str " one  two ") [] <> []
  /\ commit.sanitizeBody (commit.sanitizeBody (str " one  two ") []) (str "else")
     = commit.sanitizeBody (str " one  two ") [].
Proof.
  assert (commit.sanitizeBody (str " one  two ") [] <> []) as H
      by (vm_compute; discriminate).
  split; [exact H|].
  destruct (sanitize_twice [] (str " one  two ") [] (str "else")) as (_ & _ & F & _).
  exact (F H).
Defined.

Lemma BuildMessage_sanitised_body
      (table : Z -> Z) (order : list (gostring * gostring))
      (branch : gostring) (parts : commit.Parts) (body summary : gostring) :
  commit.Body parts = commit.sanitizeBody body summary ->
  commit.Body parts <> [] ->
  commit.MessageBody (commit.BuildMessage table order branch parts) = commit.Body parts.
Proof.
  intros E N.
  destruct (BuildMessage_body_eq table order branch parts) as (summary' & -> & _).
  rewrite E in *. now apply sanitizeBody_fixed.
Qed.

(** X27. BuildMessage keeps the body of the Parts it is given by the two
    makers of Parts: the body of the message is the body of the Parts that
    ParseParts returned, when they have one, and the body of the Parts that
    FallbackParts built, whatever the order of the loops over the map. *)
Theorem BuildMessage_keeps_body
        (table : Z -> Z) (order order' : list (gostring * gostring))
        (Unmarshal : gostring -> option commit.Parts) (branch raw : gostring) :
  (forall parts,
      commit.ParseParts table order Unmarshal raw = commit.Ok parts ->
      commit.Body parts <> [] ->
      commit.MessageBody (commit.BuildMessage table order' branch parts)
      = commit.Body parts)
  /\ commit.MessageBody
       (commit.BuildMessage table order' branch (commit.FallbackParts table order raw))
     = commit.Body (commit.FallbackParts table order raw).
Proof.
  split.
  - intros parts H N. unfold commit.ParseParts in H.
    destruct (is_empty (strings.TrimSpace raw)); [discriminate|].
    destruct ((strings.Index (strings.TrimSpace raw) (str "{") =? -1)
              || (strings.LastIndex (strings.TrimSpace raw) (str "}") =? -1)
              || (strings.Index (strings.TrimSpace raw) (str "{")
                  >? strings.LastIndex (strings.TrimSpace raw) (str "}"))); [discriminate|].
    destruct (Unmarshal _) as [p|]; [|discriminate].
    injection H as <-.
    eapply BuildMessage_sanitised_body; [reflexivity | exact N].
  - destruct (FallbackParts_fields table order raw) as (_ & (Ns & Ss & _)).
    eapply BuildMessage_sanitised_body; [reflexivity|].
    assert (commit.Body (commit.FallbackParts table order raw)
            = commit.sanitizeBody raw (commit.Summary (commit.FallbackParts table order raw)))
      as -> by reflexivity.
    destruct (sanitizeBody_text raw (commit.Summary (commit.FallbackParts table order raw)))
      as [N _]; [right; now split | exact N].
Qed.

Lemma BuildMessage_keeps_body_witness :
  commit.ParseParts Examples.identityTable commit.allowedCommitTypes commit.UnmarshalParts
                    (str "Sure: " ++ Examples.noDescriptionResponse ++ str " Done.")
  = commit.Ok (commit.mkParts (str "chore") [] (str "logs auth events")
                              (str "logs auth events"))
  /\ commit.MessageBody
       (commit.BuildMessage Examples.identityTable (rev commit.allowedCommitTypes)
          (str "main")
          (commit.mkParts (str "chore") [] (str "logs auth events")
                          (str "logs auth events")))
     = str "logs auth events".
Proof.
  assert (commit.ParseParts Examples.identityTable commit.allowedCommitTypes
                            commit.UnmarshalParts
                            (str "Sure: " ++ Examples.noDescriptionResponse ++ str " Done.")
          = commit.Ok (commit.mkParts (str "chore") [] (str "logs auth events")
                                      (str "logs auth events"))) as H
      by (vm_compute; reflexivity).
  split; [exact H|].
  apply (proj1 (BuildMessage_keeps_body Examples.identityTable commit.allowedCommitTypes
                  (rev commit.allowedCommitTypes) commit.UnmarshalParts (str "main")
                  (str "Sure: " ++ Examples.noDescriptionResponse ++ str " Done.")) _ H).
  discriminate.
Defined.
